(** * langchain-google-genai: message translation between LangChain and
      the two Google GenAI wire protocols

    Shallow embedding of
    - [src/utils/message-inputs.ts]   (standard encoder),
    - [src/utils/message-outputs.ts]  (standard decoders, full and streamed),
    - [src/utils/interaction-utils.ts] (interactions encoder and decoder),
    - [src/chat-models.ts]            (protocol routing),
    followed by the properties of the specification that concern them.

    Conventions of the embedding.
    - A JavaScript string is a [string]; an optional field is an [option];
      a [throw new Error(msg)] is the [Throw] case of [result], the error
      carrying what the message interpolates.
    - JSON values that the code only moves around (tool arguments, code
      execution payloads) are kept as their JSON text.
    - [uuidv4()] draws from an explicit supply: a counter threaded through
      the decoders, [uuid_of] turning a counter value into the identifier. *)

From Stdlib Require Import Ascii String.
From stdpp Require Import base option list strings gmap pretty.

(** ** Errors and the result of a fallible conversion *)

Inductive Error : Type :=
  | EmptyResponseError
  | MalformedContentError (msg : string)
  | InvalidImageUrlError (msg : string)
  | UnsupportedBlockError (type : string)
  | UnsupportedMessageTypeError (type : string).

(** The text handed to [new Error(...)] at each throw site. *)
Definition error_message (e : Error) : string :=
  match e with
  | EmptyResponseError => "No candidates returned from Google GenAI."
  | MalformedContentError msg => msg
  | InvalidImageUrlError msg => msg
  | UnsupportedBlockError type => "Unsupported content block type: " +:+ type
  | UnsupportedMessageTypeError type => "Unsupported message type: " +:+ type
  end.

Inductive result (A : Type) : Type :=
  | Ok (a : A)
  | Throw (e : Error).
Arguments Ok {A} a.
Arguments Throw {A} e.

(** A throw aborts everything that would have followed it. *)
#[global] Instance result_bind : MBind result := fun A B k m =>
  match m with
  | Ok a => k a
  | Throw e => Throw e
  end.
#[global] Instance result_ret : MRet result := fun A a => Ok a.

Definition is_Ok {A : Type} (r : result A) : Prop := exists a, r = Ok a.

(** [xs.map(f)] where [f] may throw: elements are converted in order and the
    first failure aborts the whole map. *)
Fixpoint map_throwing {A B : Type} (f : A -> result B) (l : list A)
  : result (list B) :=
  match l with
  | [] => Ok []
  | x :: l' =>
      y ← f x;
      ys ← map_throwing f l';
      Ok (y :: ys)
  end.

(** [xs.flatMap(f)] where [f] may throw. *)
Fixpoint flatMap_throwing {A B : Type} (f : A -> result (list B)) (l : list A)
  : result (list B) :=
  match l with
  | [] => Ok []
  | x :: l' =>
      ys ← f x;
      zs ← flatMap_throwing f l';
      Ok (ys ++ zs)
  end.

(** ** Strings *)

(** [s.startsWith(p)] *)
Definition startsWith (p s : string) : bool := String.prefix p s.

(** JavaScript truthiness of a string-valued optional field. *)
Definition truthy (o : option string) : bool :=
  match o with
  | Some s => bool_decide (s <> "")
  | None => false
  end.

(** [xs.join(sep)] *)
Fixpoint join (sep : string) (l : list string) : string :=
  match l with
  | [] => ""
  | [x] => x
  | x :: l' => x +:+ sep +:+ join sep l'
  end.

(** Characters that the pattern [.] refuses: the line terminators.  Of the
    four that JavaScript knows, line feed and carriage return are the two
    that an 8-bit character can be. *)
Definition is_line_terminator (c : ascii) : bool :=
  bool_decide (c = "010"%char) || bool_decide (c = "013"%char).

Fixpoint has_line_terminator (s : string) : bool :=
  match s with
  | EmptyString => false
  | String c s' => is_line_terminator c || has_line_terminator s'
  end.

(** [strip_prefix p s] is the rest of [s] behind the prefix [p]. *)
Fixpoint strip_prefix (p s : string) : option string :=
  match p, s with
  | EmptyString, _ => Some s
  | String a p', String b s' =>
      if bool_decide (a = b) then strip_prefix p' s' else None
  | String _ _, EmptyString => None
  end.

Definition base64_marker : string := ";base64,".

(** The two groups of [(.+);base64,(.+)$] on a text free of line
    terminators.  The first group is greedy: a split further to the right is
    preferred, and only when the rest admits none is the marker tried right
    behind the current character. *)
Fixpoint split_greedy (s : string) : option (string * string) :=
  match s with
  | EmptyString => None
  | String c s' =>
      match split_greedy s' with
      | Some (m, d) => Some (String c m, d)
      | None =>
          match strip_prefix base64_marker s' with
          | Some d => if bool_decide (d = "") then None else Some (String c "", d)
          | None => None
          end
      end
  end.

(** [dataUrl.match(/^data:(.+);base64,(.+)$/)], returning the two groups. *)
Definition match_data_url (url : string) : option (string * string) :=
  match strip_prefix "data:" url with
  | Some rest => if has_line_terminator rest then None else split_greedy rest
  | None => None
  end.

(** ** LangChain messages *)

Definition Json : Type := string.

Inductive ImageUrl : Type :=
  | UrlString (url : string)
  | UrlObject (url : option string).

(** A complex content block: [type] and the fields the converters read.
    [b_text] and [b_reasoning] are [Some] when the field holds a string. *)
Record ContentBlock : Type := mkBlock {
  b_type : string;
  b_text : option string;
  b_reasoning : option string;
  b_image_url : option ImageUrl;
  b_index : option nat
}.

Inductive MessageContent : Type :=
  | CString (s : string)
  | CBlocks (blocks : list ContentBlock).

Definition text_block (s : string) : ContentBlock :=
  mkBlock "text" (Some s) None None None.
Definition reasoning_block (s : string) (i : option nat) : ContentBlock :=
  mkBlock "reasoning" None (Some s) None i.
Definition image_url_block (url : string) : ContentBlock :=
  mkBlock "image_url" None None (Some (UrlObject (Some url))) None.

Record ToolCall : Type := mkToolCall {
  tc_name : string;
  tc_args : Json;
  tc_id : option string
}.

Record ToolCallChunk : Type := mkToolCallChunk {
  tcc_name : option string;
  tcc_args : option string;
  tcc_id : option string;
  tcc_index : option nat
}.

Record UsageMetadata : Type := mkUsage {
  input_tokens : nat;
  output_tokens : nat;
  total_tokens : nat
}.

(** A value stored in [response_metadata]. *)
Inductive MetaValue : Type :=
  | MString (s : string)
  | MNumber (n : nat)
  | MStrings (l : list string)
  | MJson (j : Json).

Inductive BaseMessage : Type :=
  | HumanMessage (content : MessageContent)
  | AIMessage (content : MessageContent) (tool_calls : list ToolCall)
      (response_metadata : gmap string MetaValue)
      (usage_metadata : option UsageMetadata)
  | SystemMessage (content : MessageContent)
  | ToolMessage (content : MessageContent) (name : option string)
      (tool_call_id : string) (status : option string)
  | ChatMessage (content : MessageContent) (role : string)
  | OtherMessage (type : string) (content : MessageContent).

Definition msg_content (m : BaseMessage) : MessageContent :=
  match m with
  | HumanMessage c | AIMessage c _ _ _ | SystemMessage c
  | ToolMessage c _ _ _ | ChatMessage c _ | OtherMessage _ c => c
  end.

Definition isSystemMessage (m : BaseMessage) : bool :=
  match m with SystemMessage _ => true | _ => false end.
Definition isAIMessage (m : BaseMessage) : bool :=
  match m with AIMessage _ _ _ _ => true | _ => false end.

(** [typeof metadata[key] === 'string'] *)
Definition string_at (key : string) (metadata : gmap string MetaValue)
  : option string :=
  match metadata !! key with
  | Some (MString s) => Some s
  | _ => None
  end.

(** ** Standard protocol: wire parts *)

Record FunctionCall : Type := mkFunctionCall {
  fc_name : option string;
  fc_args : option Json;
  fc_id : option string
}.

Record FunctionResponse : Type := mkFunctionResponse {
  fr_name : string;
  fr_response_name : option string;
  fr_response_content : MessageContent
}.

Record Part : Type := mkPart {
  p_text : option string;
  p_thought : bool;
  p_inlineData : option (string * string);   (* mimeType, data *)
  p_fileData : option (string * string);     (* mimeType, fileUri *)
  p_functionCall : option FunctionCall;
  p_functionResponse : option FunctionResponse;
  p_thoughtSignature : option string;
  p_executableCode : option Json;
  p_codeExecutionResult : option Json
}.

Definition empty_part : Part :=
  mkPart None false None None None None None None None.

Definition text_part (s : string) : Part :=
  mkPart (Some s) false None None None None None None None.
Definition thought_part (s : string) : Part :=
  mkPart (Some s) true None None None None None None None.
Definition inlineData_part (mimeType data : string) : Part :=
  mkPart None false (Some (mimeType, data)) None None None None None None.
Definition fileData_part (mimeType fileUri : string) : Part :=
  mkPart None false None (Some (mimeType, fileUri)) None None None None None.
Definition functionCall_part (fc : FunctionCall) : Part :=
  mkPart None false None None (Some fc) None None None None.
Definition functionResponse_part (fr : FunctionResponse) : Part :=
  mkPart None false None None None (Some fr) None None None.

(** [part.thoughtSignature = signature] *)
Definition set_thoughtSignature (signature : string) (p : Part) : Part :=
  mkPart (p_text p) (p_thought p) (p_inlineData p) (p_fileData p)
    (p_functionCall p) (p_functionResponse p) (Some signature)
    (p_executableCode p) (p_codeExecutionResult p).

Record Content : Type := mkContent {
  c_role : string;
  c_parts : option (list Part)
}.

(** ** Standard protocol: encoder ([message-inputs.ts]) *)

Definition parseBase64Data (dataUrl : string) : result (string * string) :=
  match match_data_url dataUrl with
  | Some (mimeType, data) => Ok (mimeType, data)
  | None => Throw (MalformedContentError "Invalid base64 image data URL")
  end.

(** Truthiness of [b.image_url]: an object, or a non-empty string. *)
Definition image_url_truthy (o : option ImageUrl) : bool :=
  match o with
  | Some (UrlString url) => bool_decide (url <> "")
  | Some (UrlObject _) => true
  | None => false
  end.

(** The callback of [content.map] in [convertContentToParts]. *)
Definition convertBlockToPart (b : ContentBlock) : result Part :=
  let unsupported := Throw (UnsupportedBlockError (b_type b)) in
  if bool_decide (b_type b = "text") && bool_decide (is_Some (b_text b)) then
    Ok (text_part (default "" (b_text b)))
  else if bool_decide (b_type b = "reasoning")
          && bool_decide (is_Some (b_reasoning b)) then
    Ok (thought_part (default "" (b_reasoning b)))
  else if bool_decide (b_type b = "image_url")
          && image_url_truthy (b_image_url b) then
    url ← match b_image_url b with
          | Some (UrlString url) => Ok url
          | Some (UrlObject (Some url)) => Ok url
          | _ => Throw (InvalidImageUrlError "Invalid image_url block format")
          end;
    if startsWith "data:" url then
      md ← parseBase64Data url;
      Ok (inlineData_part md.1 md.2)
    else if startsWith "gs://" url || startsWith "https://" url then
      Ok (fileData_part "image/jpeg" url)
    else unsupported
  else unsupported.

Definition convertContentToParts (content : MessageContent)
  : result (list Part) :=
  match content with
  | CString s => if bool_decide (s = "") then Ok [] else Ok [text_part s]
  | CBlocks blocks => map_throwing convertBlockToPart blocks
  end.

Definition convertToolCallToPart (toolCall : ToolCall) : Part :=
  functionCall_part
    (mkFunctionCall (Some (tc_name toolCall)) (Some (tc_args toolCall)) None).

Definition convertToolMessageToPart (content : MessageContent)
    (name : option string) : Part :=
  functionResponse_part
    (mkFunctionResponse (if truthy name then default "" name else "")
       name content).

(** The thought signature of an AI message is put back onto the last part
    built for it; a message that produced no part gets an empty text part to
    carry it. *)
Definition reinjectThoughtSignature (message : BaseMessage)
    (parts : list Part) : list Part :=
  match message with
  | AIMessage _ _ metadata _ =>
      match string_at "thoughtSignature" metadata with
      | Some signature =>
          match last parts with
          | Some lastPart =>
              <[length parts - 1 := set_thoughtSignature signature lastPart]>
                parts
          | None => parts ++ [set_thoughtSignature signature (text_part "")]
          end
      | None => parts
      end
  | _ => parts
  end.

(** The parts of one chat message: the [parts] array of the loop body of
    [convertMessagesToGooglePayload] at the point where it is merged. *)
Definition messageParts (message : BaseMessage) : result (list Part) :=
  contentParts ← convertContentToParts (msg_content message);
  let toolCallParts :=
    match message with
    | AIMessage _ tool_calls _ _ => map convertToolCallToPart tool_calls
    | _ => []
    end in
  let toolResultParts :=
    match message with
    | ToolMessage content name _ _ => [convertToolMessageToPart content name]
    | _ => []
    end in
  Ok (reinjectThoughtSignature message
        (contentParts ++ toolCallParts ++ toolResultParts)).

Definition messageRole (message : BaseMessage) : string :=
  if isAIMessage message then "model" else "user".

(** Merge logic: when the last entry of [contents] has the same role the
    parts are appended to it, otherwise a new entry is pushed. *)
Definition mergeIntoContents (contents : list Content) (role : string)
    (parts : list Part) : list Content :=
  match last contents with
  | Some lastContent =>
      if bool_decide (c_role lastContent = role) then
        <[length contents - 1 :=
            mkContent (c_role lastContent)
              (Some (default [] (c_parts lastContent) ++ parts))]> contents
      else contents ++ [mkContent role (Some parts)]
  | None => contents ++ [mkContent role (Some parts)]
  end.

(** The loop over [chatMessages]. *)
Fixpoint processChatMessages (chatMessages : list BaseMessage)
    (contents : list Content) : result (list Content) :=
  match chatMessages with
  | [] => Ok contents
  | message :: rest =>
      parts ← messageParts message;
      processChatMessages rest
        (mergeIntoContents contents (messageRole message) parts)
  end.

Record GooglePayload : Type := mkGooglePayload {
  contents : list Content;
  systemInstruction : option Content
}.

Definition convertMessagesToGooglePayload (messages : list BaseMessage)
  : result GooglePayload :=
  let systemMessages := List.filter isSystemMessage messages in
  instruction ←
    (if bool_decide (0 < length systemMessages) then
       systemParts ←
         flatMap_throwing (fun msg => convertContentToParts (msg_content msg))
           systemMessages;
       Ok (if bool_decide (0 < length systemParts)
           then Some (mkContent "system" (Some systemParts)) else None)
     else Ok None);
  let chatMessages :=
    List.filter (fun msg => negb (isSystemMessage msg)) messages in
  contents ← processChatMessages chatMessages [];
  Ok (mkGooglePayload contents instruction).

(** ** Interactions protocol: encoder ([interaction-utils.ts]) *)

Inductive Item : Type :=
  | TextContent (text : string)
  | ImageContent (data mime_type uri : option string)
  | FunctionCallContent (id : string) (name : string) (arguments : Json)
  | FunctionResultContent (call_id : string) (name : option string)
      (result : MessageContent) (is_error : bool)
  | ThoughtContent (signature : string).

Record Turn : Type := mkTurn {
  t_role : string;
  t_content : list Item
}.

(** The callback of [content.map] in [formatContent]; [None] is the
    [undefined] that the following [filter] removes. *)
Definition formatBlock (part : ContentBlock) : result (option Item) :=
  if bool_decide (b_type part = "text") then
    Ok (Some (TextContent
                (if truthy (b_text part) then default "" (b_text part) else "")))
  else if bool_decide (b_type part = "image_url") then
    url ← match b_image_url part with
          | Some (UrlString url) => Ok url
          | Some (UrlObject (Some url)) => Ok url
          | _ => Throw (InvalidImageUrlError "Invalid image_url format")
          end;
    if startsWith "data:" url then
      match match_data_url url with
      | Some (mimeType, data) =>
          (* [data && mimeType] holds: both groups are non-empty *)
          Ok (Some (ImageContent
                      (if truthy (Some data) && truthy (Some mimeType)
                       then Some data else None)
                      (if truthy (Some data) && truthy (Some mimeType)
                       then Some mimeType else None)
                      None))
      | None => Throw (MalformedContentError "Invalid data URL format")
      end
    else
      Ok (Some (ImageContent None None
                  (if truthy (Some url) then Some url else None)))
  else Ok None.

(** [parts.filter(part => part !== undefined)] *)
Fixpoint filterDefined {A : Type} (parts : list (option A)) : list A :=
  match parts with
  | [] => []
  | Some part :: rest => part :: filterDefined rest
  | None :: rest => filterDefined rest
  end.

Definition formatContent (content : MessageContent) : result (list Item) :=
  match content with
  | CString s => Ok [TextContent s]
  | CBlocks blocks =>
      parts ← map_throwing formatBlock blocks;
      Ok (filterDefined parts)
  end.

(** [JSON.parse] succeeds or the raw text is kept; with JSON held as its
    text both branches hand the content on as it is. *)
Definition formatToolResult (content : MessageContent) : MessageContent :=
  content.

Definition convertMessageToGoogleTurn (message : BaseMessage)
  : result (option Turn) :=
  match message with
  | HumanMessage content =>
      items ← formatContent content;
      Ok (Some (mkTurn "user" items))
  | AIMessage content tool_calls metadata _ =>
      let thoughtParts :=
        match string_at "thought_signature" metadata with
        | Some thoughtSignature => [ThoughtContent thoughtSignature]
        | None => []
        end in
      contentParts ←
        match content with
        | CString s => Ok (if bool_decide (s <> "") then [TextContent s] else [])
        | CBlocks _ => formatContent content
        end;
      let toolCallParts :=
        map (fun toolCall =>
               FunctionCallContent (default "" (tc_id toolCall))
                 (tc_name toolCall) (tc_args toolCall)) tool_calls in
      Ok (Some (mkTurn "model" (thoughtParts ++ contentParts ++ toolCallParts)))
  | ToolMessage content name tool_call_id status =>
      Ok (Some (mkTurn "user"
                  [FunctionResultContent tool_call_id name
                     (formatToolResult content)
                     (bool_decide (status = Some "error"))]))
  | SystemMessage _ => Ok None
  | ChatMessage content role =>
      items ← formatContent content;
      Ok (Some (mkTurn (if bool_decide (role = "assistant") then "model"
                        else role) items))
  | OtherMessage type _ => Throw (UnsupportedMessageTypeError type)
  end.

Record InteractionPayload : Type := mkInteractionPayload {
  input : list Turn;
  system_instruction : option string
}.

(** Text of a system message: the string itself, or the text blocks joined
    by newlines. *)
Definition systemText (content : MessageContent) : string :=
  match content with
  | CString s => s
  | CBlocks blocks =>
      join (String "010"%char "")
        (map (fun block => default "" (b_text block))
           (List.filter (fun block => bool_decide (b_type block = "text"))
              blocks))
  end.

(** The loop of [convertMessagesToGoogleInteractionPayload], from the state
    [(input, system_instruction)]. *)
Fixpoint interactionLoop (messages : list BaseMessage)
    (acc : InteractionPayload) : result InteractionPayload :=
  match messages with
  | [] => Ok acc
  | message :: rest =>
      match message with
      | SystemMessage content =>
          let text := systemText content in
          interactionLoop rest
            (if bool_decide (text <> "") then
               mkInteractionPayload (input acc)
                 (Some (if truthy (system_instruction acc)
                        then default "" (system_instruction acc)
                             +:+ String "010"%char "" +:+ text
                        else text))
             else acc)
      | _ =>
          turn ← convertMessageToGoogleTurn message;
          interactionLoop rest
            (match turn with
             | Some t => mkInteractionPayload (input acc ++ [t])
                           (system_instruction acc)
             | None => acc
             end)
      end
  end.

Definition convertMessagesToGoogleInteractionPayload
    (messages : list BaseMessage) : result InteractionPayload :=
  interactionLoop messages (mkInteractionPayload [] None).

(** ** Standard protocol: responses *)

Record GoogleUsageMetadata : Type := mkGoogleUsage {
  promptTokenCount : option nat;
  responseTokenCount : option nat;
  totalTokenCount : option nat
}.

Record Candidate : Type := mkCandidate {
  cand_content : option Content;
  cand_finishReason : option string;
  cand_index : option nat
}.

Record GenerateContentResponse : Type := mkResponse {
  candidates : option (list Candidate);
  usageMetadata : option GoogleUsageMetadata;
  promptFeedback : gmap string MetaValue
}.

(** [response.candidates?.[0]] *)
Definition firstCandidate (response : GenerateContentResponse)
  : option Candidate :=
  candidates response ≫= head.

Definition extractUsageMetadata (usage : option GoogleUsageMetadata)
  : option UsageMetadata :=
  match usage with
  | None => None
  | Some u =>
      Some (mkUsage (default 0 (promptTokenCount u))
              (default 0 (responseTokenCount u))
              (default 0 (totalTokenCount u)))
  end.

(** ** Identifier supply *)

(** The identifier that the [n]-th call of [uuidv4()] returns. *)
Definition uuid_of (n : nat) : string := "uuid-" +:+ pretty n.

(** [id ?? uuidv4()]: the supply advances only when an identifier is drawn. *)
Definition idOrUuid (id : option string) (n : nat) : string * nat :=
  match id with
  | Some i => (i, n)
  | None => (uuid_of n, S n)
  end.

(** ** Message chunks and their concatenation *)

Record AIMessageChunk : Type := mkChunk {
  ch_content : MessageContent;
  ch_tool_call_chunks : list ToolCallChunk;
  ch_response_metadata : gmap string MetaValue;
  ch_usage_metadata : option UsageMetadata
}.

Record ChatGenerationChunk : Type := mkGenerationChunk {
  gc_text : string;
  gc_message : AIMessageChunk
}.

(** Modelled from the spec: [AIMessageChunk.concat] and
    [ChatGenerationChunk.concat] belong to the @langchain/core dependency,
    which is not under src/.  Section 4.4 describes the fold as type-aware
    concatenation: text appends to text, reasoning text to the open
    reasoning block, tool-call fragments merge by [index], and a signature
    updates the metadata without opening a block.  How a block finds its
    partner is taken from the comment in [convertPartToChunk]: a block that
    carries an [index] merges into the block with the same index, a block
    without one opens a new entry.  Two strings under one key are
    appended. *)
Definition merge_opt_string (l r : option string) : option string :=
  match l, r with
  | Some a, Some b => Some (a +:+ b)
  | Some a, None => Some a
  | None, _ => r
  end.

(** Modelled from the spec: two blocks of one [index] become the left block
    with the string fields of the right one appended. *)
Definition merge_block (l r : ContentBlock) : ContentBlock :=
  mkBlock (b_type l)
    (merge_opt_string (b_text l) (b_text r))
    (merge_opt_string (b_reasoning l) (b_reasoning r))
    (match b_image_url l with Some u => Some u | None => b_image_url r end)
    (b_index l).

(** Modelled from the spec: tool-call fragments of one [index] are appended
    field by field. *)
Definition merge_tool_call_chunk (l r : ToolCallChunk) : ToolCallChunk :=
  mkToolCallChunk
    (merge_opt_string (tcc_name l) (tcc_name r))
    (merge_opt_string (tcc_args l) (tcc_args r))
    (merge_opt_string (tcc_id l) (tcc_id r))
    (tcc_index l).

Section MergeLists.
Context {A : Type} (index : A -> option nat) (merge : A -> A -> A).

(** Modelled from the spec: an item with an [index] merges into the first
    item that has the same one, any other item is pushed. *)
Definition mergeItem (merged : list A) (item : A) : list A :=
  match index item with
  | Some i =>
      match list_find (fun leftItem => index leftItem = Some i) merged with
      | Some (k, leftItem) => <[k := merge leftItem item]> merged
      | None => merged ++ [item]
      end
  | None => merged ++ [item]
  end.

(** Modelled from the spec: the items of [right] join [left] one by one. *)
Definition mergeLists (left right : list A) : list A :=
  fold_left mergeItem right left.

End MergeLists.

(** Modelled from the spec: concatenation of two contents.  Strings are
    appended; a string next to a block list becomes a text block of it, an
    empty string nothing. *)
Definition mergeContent (first second : MessageContent) : MessageContent :=
  match first, second with
  | CString a, CString b =>
      if bool_decide (a = "") then second else CString (a +:+ b)
  | CString a, CBlocks bs =>
      if bool_decide (a = "") then second else CBlocks (text_block a :: bs)
  | CBlocks ls, CBlocks rs => CBlocks (mergeLists b_index merge_block ls rs)
  | CBlocks ls, CString b =>
      if bool_decide (b = "") then first else CBlocks (ls ++ [text_block b])
  end.

(** Modelled from the spec: metadata is merged key by key; strings and
    string lists are appended, any other value stays as it is on the
    left. *)
Definition merge_meta (l r : MetaValue) : option MetaValue :=
  match l, r with
  | MString a, MString b => Some (MString (a +:+ b))
  | MStrings a, MStrings b => Some (MStrings (a ++ b))
  | _, _ => Some l
  end.

(** Modelled from the spec: the merge of two metadata objects. *)
Definition mergeDicts (left right : gmap string MetaValue)
  : gmap string MetaValue :=
  union_with merge_meta left right.

(** Modelled from the spec: usage counts are added up. *)
Definition mergeUsage (l r : option UsageMetadata) : option UsageMetadata :=
  match l, r with
  | None, None => None
  | _, _ =>
      let zero := mkUsage 0 0 0 in
      Some (mkUsage
              (input_tokens (default zero l) + input_tokens (default zero r))
              (output_tokens (default zero l) + output_tokens (default zero r))
              (total_tokens (default zero l) + total_tokens (default zero r)))
  end.

(** Modelled from the spec: [left.concat(right)] on message chunks. *)
Definition concat (left right : AIMessageChunk) : AIMessageChunk :=
  mkChunk
    (mergeContent (ch_content left) (ch_content right))
    (mergeLists tcc_index merge_tool_call_chunk
       (ch_tool_call_chunks left) (ch_tool_call_chunks right))
    (mergeDicts (ch_response_metadata left) (ch_response_metadata right))
    (mergeUsage (ch_usage_metadata left) (ch_usage_metadata right)).

(** Modelled from the spec: [left.concat(right)] on generation chunks, the
    texts appended and the messages concatenated. *)
Definition concatGeneration (left right : ChatGenerationChunk)
  : ChatGenerationChunk :=
  mkGenerationChunk (gc_text left +:+ gc_text right)
    (concat (gc_message left) (gc_message right)).

(** ** Standard protocol: stream decoder ([message-outputs.ts]) *)

Definition convertFunctionCallToToolCallChunk (fc : FunctionCall)
    (index : nat) (n : nat) : ToolCallChunk * nat :=
  let '(id, n') := idOrUuid (fc_id fc) n in
  (mkToolCallChunk (Some (default "" (fc_name fc))) (fc_args fc) (Some id)
     (Some index), n').

Definition convertPartToChunk (part : Part) (index : nat) (n : nat)
  : AIMessageChunk * nat :=
  let responseMetadata : gmap string MetaValue :=
    if truthy (p_thoughtSignature part)
    then {[ "thoughtSignature"
              := MString (default "" (p_thoughtSignature part)) ]}
    else ∅ in
  match p_text part with
  | Some text =>
      if p_thought part then
        (mkChunk (CBlocks [reasoning_block text (Some 0)]) []
           responseMetadata None, n)
      else (mkChunk (CString text) [] responseMetadata None, n)
  | None =>
      match p_functionCall part with
      | Some fc =>
          let '(toolCallChunk, n') :=
            convertFunctionCallToToolCallChunk fc index n in
          (mkChunk (CString "") [toolCallChunk] responseMetadata None, n')
      | None => (mkChunk (CString "") [] responseMetadata None, n)
      end
  end.

(** [parts.reduce((acc, part, index) => ..., null)], from position [index]
    with accumulator [acc]. *)
Fixpoint reduceParts (parts : list Part) (index : nat)
    (acc : option AIMessageChunk) (n : nat) : option AIMessageChunk * nat :=
  match parts with
  | [] => (acc, n)
  | part :: rest =>
      let '(nextChunk, n') := convertPartToChunk part index n in
      reduceParts rest (S index)
        (Some (match acc with
               | Some a => concat a nextChunk
               | None => nextChunk
               end)) n'
  end.

(** The [text] of a generation chunk: the content when it is a string, the
    text blocks joined otherwise. *)
Definition chunkText (content : MessageContent) : string :=
  match content with
  | CString s => s
  | CBlocks blocks =>
      join ""
        (map (fun block => default "" (b_text block))
           (List.filter
              (fun block => bool_decide (b_type block = "text")
                            && bool_decide (is_Some (b_text block)))
              blocks))
  end.

Definition convertGoogleStreamChunkToLangChainChunk
    (response : GenerateContentResponse) (n : nat)
  : option ChatGenerationChunk * nat :=
  match firstCandidate response with
  | None =>
      match usageMetadata response with
      | Some _ =>
          (Some (mkGenerationChunk ""
                   (mkChunk (CString "") [] ∅
                      (extractUsageMetadata (usageMetadata response)))), n)
      | None => (None, n)
      end
  | Some candidate =>
      match cand_content candidate ≫= c_parts with
      | None => (None, n)
      | Some parts =>
          match reduceParts parts 0 None n with
          | (None, n') => (None, n')
          | (Some chunk, n') =>
              let chunk :=
                match usageMetadata response with
                | Some _ =>
                    mkChunk (ch_content chunk) (ch_tool_call_chunks chunk)
                      (ch_response_metadata chunk)
                      (extractUsageMetadata (usageMetadata response))
                | None => chunk
                end in
              (Some (mkGenerationChunk (chunkText (ch_content chunk)) chunk),
               n')
          end
      end
  end.

(** The streaming branch of [_generate] ([chat-models.ts]): every chunk that
    the converter yields is folded into [finalChunk], left to right. *)
Fixpoint foldStream (stream : list GenerateContentResponse)
    (finalChunk : option ChatGenerationChunk) (n : nat)
  : option ChatGenerationChunk * nat :=
  match stream with
  | [] => (finalChunk, n)
  | response :: rest =>
      match convertGoogleStreamChunkToLangChainChunk response n with
      | (Some chunk, n') =>
          foldStream rest
            (Some (match finalChunk with
                   | Some f => concatGeneration f chunk
                   | None => chunk
                   end)) n'
      | (None, n') => foldStream rest finalChunk n'
      end
  end.

(** ** Standard protocol: full-response decoder ([message-outputs.ts]) *)

Record GenerationInfo : Type := mkGenerationInfo {
  gi_finishReason : option string;
  gi_index : option nat
}.

Record ChatGeneration : Type := mkGeneration {
  g_text : string;
  g_message : BaseMessage;
  g_generationInfo : GenerationInfo
}.

(** The variables that the loop over the parts updates. *)
Record DecodeState : Type := mkDecodeState {
  textContent : string;
  contentBlocks : list ContentBlock;
  toolCalls : list ToolCall;
  responseMetadata : gmap string MetaValue
}.

Definition insert_some (key : string) (v : option MetaValue)
    (m : gmap string MetaValue) : gmap string MetaValue :=
  match v with
  | Some x => <[key := x]> m
  | None => m
  end.

(** One iteration of [for (const part of candidate.content.parts)]. *)
Definition decodePart (st : DecodeState) (part : Part) (n : nat)
  : DecodeState * nat :=
  (* text, as reasoning or as standard text *)
  let st1 :=
    if truthy (p_text part) then
      let text := default "" (p_text part) in
      if p_thought part then
        let existingThoughts :=
          match responseMetadata st !! "thoughts" with
          | Some (MStrings l) => l
          | _ => []
          end in
        mkDecodeState (textContent st)
          (contentBlocks st ++ [reasoning_block text None])
          (toolCalls st)
          (<["thoughts" := MStrings (existingThoughts ++ [text])]>
             (responseMetadata st))
      else
        mkDecodeState (textContent st +:+ text)
          (contentBlocks st ++ [text_block text])
          (toolCalls st) (responseMetadata st)
    else st in
  (* function call *)
  let '(st2, n') :=
    match p_functionCall part with
    | Some fc =>
        let '(id, n') := idOrUuid (fc_id fc) n in
        (mkDecodeState (textContent st1) (contentBlocks st1)
           (toolCalls st1 ++
              [mkToolCall (default "" (fc_name fc))
                 (default "{}" (fc_args fc)) (Some id)])
           (responseMetadata st1), n')
    | None => (st1, n)
    end in
  (* thought signature and code execution *)
  let metadata :=
    insert_some "codeExecutionResult" (MJson <$> p_codeExecutionResult part)
      (insert_some "executableCode" (MJson <$> p_executableCode part)
         (if truthy (p_thoughtSignature part)
          then <["thoughtSignature" :=
                   MString (default "" (p_thoughtSignature part))]>
                 (responseMetadata st2)
          else responseMetadata st2)) in
  (mkDecodeState (textContent st2) (contentBlocks st2) (toolCalls st2)
     metadata, n').

Fixpoint decodeParts (parts : list Part) (st : DecodeState) (n : nat)
  : DecodeState * nat :=
  match parts with
  | [] => (st, n)
  | part :: rest =>
      let '(st', n') := decodePart st part n in
      decodeParts rest st' n'
  end.

(** [contentBlocks.some(b => b.type === 'reasoning')] *)
Definition hasReasoning (blocks : list ContentBlock) : bool :=
  existsb (fun b => bool_decide (b_type b = "reasoning")) blocks.

Definition convertGoogleResponseToChatGeneration
    (response : GenerateContentResponse) (n : nat)
  : result (ChatGeneration * nat) :=
  match firstCandidate response with
  | None => Throw EmptyResponseError
  | Some candidate =>
      match cand_content candidate with
      | None => Throw EmptyResponseError
      | Some content =>
          let initialMetadata : gmap string MetaValue :=
            promptFeedback response ∪
              insert_some "finishReason"
                (MString <$> cand_finishReason candidate)
                (insert_some "index" (MNumber <$> cand_index candidate) ∅) in
          let '(st, n') :=
            decodeParts (default [] (c_parts content))
              (mkDecodeState "" [] [] initialMetadata) n in
          let finalContent :=
            if hasReasoning (contentBlocks st)
            then CBlocks (contentBlocks st)
            else CString (textContent st) in
          Ok (mkGeneration (textContent st)
                (AIMessage finalContent (toolCalls st) (responseMetadata st)
                   (extractUsageMetadata (usageMetadata response)))
                (mkGenerationInfo (cand_finishReason candidate)
                   (cand_index candidate)), n')
      end
  end.

(** ** Interactions protocol: decoder ([interaction-utils.ts]) *)

Record InteractionUsage : Type := mkInteractionUsage {
  total_input_tokens : option nat;
  total_output_tokens : option nat;
  usage_total_tokens : option nat
}.

(** An item of [summary]: its [type] and [text]. *)
Record SummaryItem : Type := mkSummaryItem {
  s_type : string;
  s_text : string
}.

Inductive Output : Type :=
  | OText (text : option string)
  | OImage (mime_type data : option string)
  | OFunctionCall (id : option string) (name : string) (arguments : Json)
  | OThought (signature : option string) (summary : option (list SummaryItem))
  | OCodeExecutionResult (payload : Json)
  | OOther (type : string).

Record Interaction : Type := mkInteraction {
  i_id : option string;
  i_status : option string;
  i_model : option string;
  i_outputs : option (list Output);
  i_usage : option InteractionUsage
}.

(** A template literal renders a missing value as [undefined]. *)
Definition render (o : option string) : string := default "undefined" o.

Definition decodeOutput (st : DecodeState) (output : Output) : DecodeState :=
  match output with
  | OText text =>
      let text := if truthy text then default "" text else "" in
      mkDecodeState (textContent st +:+ text)
        (contentBlocks st ++ [text_block text]) (toolCalls st)
        (responseMetadata st)
  | OImage mime_type data =>
      mkDecodeState (textContent st)
        (contentBlocks st ++
           [image_url_block
              ("data:" +:+ render mime_type +:+ ";base64," +:+ render data)])
        (toolCalls st) (responseMetadata st)
  | OFunctionCall id name arguments =>
      mkDecodeState (textContent st) (contentBlocks st)
        (toolCalls st ++ [mkToolCall name arguments id])
        (responseMetadata st)
  | OThought signature summary =>
      let metadata :=
        if truthy signature
        then <["thought_signature" := MString (default "" signature)]>
               (responseMetadata st)
        else responseMetadata st in
      let blocks :=
        match summary with
        | Some (s :: ss) =>
            contentBlocks st ++
              [reasoning_block
                 (join (String "010"%char "")
                    (map (fun s => if bool_decide (s_type s = "text")
                                   then s_text s else "") (s :: ss)))
                 None]
        | _ => contentBlocks st
        end in
      mkDecodeState (textContent st) blocks (toolCalls st) metadata
  | OCodeExecutionResult payload =>
      mkDecodeState (textContent st) (contentBlocks st) (toolCalls st)
        (<["code_execution_result" := MJson payload]> (responseMetadata st))
  | OOther _ => st
  end.

Definition isOnlyText (blocks : list ContentBlock) : bool :=
  forallb (fun block => bool_decide (b_type block = "text")) blocks.

(** [finalContent.length > 0], on a string or on an array. *)
Definition content_nonempty (content : MessageContent) : bool :=
  match content with
  | CString s => bool_decide (s <> "")
  | CBlocks blocks => bool_decide (blocks <> [])
  end.

Definition convertInteractionToChatGeneration (response : Interaction)
    (usageMetadata : option UsageMetadata) : list ChatGeneration :=
  let outputs := default [] (i_outputs response) in
  let usage :=
    match usageMetadata, i_usage response with
    | None, Some u =>
        Some (mkUsage (default 0 (total_input_tokens u))
                (default 0 (total_output_tokens u))
                (default 0 (usage_total_tokens u)))
    | _, _ => usageMetadata
    end in
  let st := fold_left decodeOutput outputs (mkDecodeState "" [] [] ∅) in
  let finalContent :=
    if isOnlyText (contentBlocks st)
       && bool_decide (textContent st <> "")
    then CString (textContent st)
    else CBlocks (contentBlocks st) in
  let metadata : gmap string MetaValue :=
    responseMetadata st ∪
      insert_some "interaction_id" (MString <$> i_id response)
        (insert_some "finish_reason" (MString <$> i_status response)
           (insert_some "model" (MString <$> i_model response) ∅)) in
  [mkGeneration (textContent st)
     (AIMessage
        (if content_nonempty finalContent then finalContent
         else CString (textContent st))
        (toolCalls st) metadata usage)
     (mkGenerationInfo (i_status response) None)].

(** ** Routing between the protocols ([chat-models.ts]) *)

(** The fields of the model object that the call path reads. *)
Record ChatGoogleGenAI : Type := mkModel {
  model : option string;
  agent : option string;
  streaming : bool;
  streamUsage : bool;
  useExperimentalInteractionsApi : bool;
  background : option bool;
  store : option bool
}.

Record CallOptions : Type := mkCallOptions {
  previousInteractionId : option string;
  opt_background : option bool;
  opt_stop : option (list string);
  tool_choice : option string
}.

(** [!!(this.useExperimentalInteractionsApi || options.previousInteractionId)] *)
Definition shouldUseInteractionsApi (this : ChatGoogleGenAI)
    (options : CallOptions) : bool :=
  useExperimentalInteractionsApi this || truthy (previousInteractionId options).

(** ** Notions used to state the properties *)


(** The URL that both codecs read off an image block, when there is one. *)
Definition block_url (b : ContentBlock) : option string :=
  match b_image_url b with
  | Some (UrlString url) => Some url
  | Some (UrlObject url) => url
  | None => None
  end.


Definition audio_block : ContentBlock := mkBlock "audio" None None None None.

(** All parts of a content list, in order. *)
Definition allParts (cs : list Content) : list Part :=
  List.concat (map (fun c => default [] (c_parts c)) cs).

(** No two neighbours of a list are equal. *)
Definition adjacentDistinct {A : Type} (l : list A) : Prop :=
  forall i a b, l !! i = Some a -> l !! S i = Some b -> a <> b.

(** The messages that become wire entries: all but the system messages. *)
Definition chatMessagesOf (messages : list BaseMessage) : list BaseMessage :=
  List.filter (fun msg => negb (isSystemMessage msg)) messages.

(** The signature that an item of a turn carries. *)
Definition item_signature (item : Item) : option string :=
  match item with
  | ThoughtContent signature => Some signature
  | _ => None
  end.

Definition weather_call : ToolCall :=
  mkToolCall "get_weather" "{}" (Some "call-1").

Definition standard_model : ChatGoogleGenAI :=
  mkModel (Some "gemini-2.5-flash") None false true false None None.

Definition empty_response : GenerateContentResponse :=
  mkResponse (Some []) None ∅.

Definition empty_interaction : Interaction :=
  mkInteraction (Some "interaction-1") (Some "in_progress") None None None.

(** [strings.join('')] *)
Definition concatStrings (l : list string) : string :=
  foldr String.append "" l.

(** The parts of the first candidate of a response. *)
Definition responseParts (response : GenerateContentResponse) : list Part :=
  match firstCandidate response with
  | Some candidate =>
      match cand_content candidate with
      | Some content => default [] (c_parts content)
      | None => []
      end
  | None => []
  end.

(** The content block that a part of a full response gives rise to. *)
Definition partBlocks (part : Part) : list ContentBlock :=
  if truthy (p_text part) then
    [if p_thought part
     then reasoning_block (default "" (p_text part)) None
     else text_block (default "" (p_text part))]
  else [].

(** The standard text that a part of a full response contributes. *)
Definition partText (part : Part) : string :=
  if truthy (p_text part) && negb (p_thought part)
  then default "" (p_text part) else "".

(** The number of function calls that arrive without an identifier. *)
Definition missingIds (fcs : list FunctionCall) : nat :=
  length (List.filter (fun fc => bool_decide (fc_id fc = None)) fcs).

(** The tool call decoded from a function call when the supply stands at
    [k]. *)
Definition toolCallOf (fc : FunctionCall) (k : nat) : ToolCall :=
  mkToolCall (default "" (fc_name fc)) (default "{}" (fc_args fc))
    (Some (default (uuid_of k) (fc_id fc))).

(** The function calls of a list of parts, in order. *)
Definition functionCalls (parts : list Part) : list FunctionCall :=
  omap p_functionCall parts.

(** The tool calls and the metadata of an AI message. *)
Definition msg_tool_calls (m : BaseMessage) : list ToolCall :=
  match m with
  | AIMessage _ tool_calls _ _ => tool_calls
  | _ => []
  end.

Definition msg_response_metadata (m : BaseMessage) : gmap string MetaValue :=
  match m with
  | AIMessage _ _ metadata _ => metadata
  | _ => ∅
  end.

(** The text that an output of an interaction contributes. *)
Definition outputText (output : Output) : string :=
  match output with
  | OText text => if truthy text then default "" text else ""
  | _ => ""
  end.

(** The content block that an output gives rise to. *)
Definition outputBlocks (output : Output) : list ContentBlock :=
  match output with
  | OText _ => [text_block (outputText output)]
  | OImage mime_type data =>
      [image_url_block
         ("data:" +:+ render mime_type +:+ ";base64," +:+ render data)]
  | OThought _ (Some (s :: ss)) =>
      [reasoning_block
         (join (String "010"%char "")
            (map (fun s => if bool_decide (s_type s = "text")
                           then s_text s else "") (s :: ss)))
         None]
  | _ => []
  end.

(** The tool call decoded from an output. *)
Definition outputToolCalls (output : Output) : list ToolCall :=
  match output with
  | OFunctionCall id name arguments => [mkToolCall name arguments id]
  | _ => []
  end.

Definition thinking_response : GenerateContentResponse :=
  mkResponse
    (Some [mkCandidate
             (Some (mkContent "model"
                      (Some [thought_part "plan"; text_part "answer"])))
             (Some "STOP") (Some 0)])
    None ∅.

Definition image_interaction : Interaction :=
  mkInteraction None None None
    (Some [OImage (Some "image/png") (Some "QUJD")]) None.

Definition call_without_id : FunctionCall :=
  mkFunctionCall (Some "get_weather") (Some "{}") None.

Definition tool_call_response : GenerateContentResponse :=
  mkResponse
    (Some [mkCandidate
             (Some (mkContent "model"
                      (Some [functionCall_part call_without_id])))
             (Some "STOP") (Some 0)])
    None ∅.

(** [block.type === 'text' && 'text' in block] *)
Definition isTextBlock (block : ContentBlock) : bool :=
  bool_decide (b_type block = "text") && bool_decide (is_Some (b_text block)).

(** The text blocks of a block list, joined. *)
Definition blocksText (blocks : list ContentBlock) : string :=
  concatStrings
    (map (fun block => default "" (b_text block))
       (List.filter isTextBlock blocks)).

(** The text that a part of a stream chunk contributes to the [text] field:
    its text unless the part is thought-marked. *)
Definition streamPartText (part : Part) : string :=
  if p_thought part then "" else default "" (p_text part).

(** Blocks that carry an [index] are not text blocks: in this program only
    reasoning blocks are indexed. *)
Definition indexedNotText (content : MessageContent) : Prop :=
  match content with
  | CString _ => True
  | CBlocks blocks =>
      Forall (fun b => is_Some (b_index b) -> b_type b <> "text") blocks
  end.

Definition thinking_stream_chunk : GenerateContentResponse :=
  mkResponse
    (Some [mkCandidate
             (Some (mkContent "model"
                      (Some [thought_part "plan"; text_part "an";
                             text_part "swer"])))
             None (Some 0)])
    None ∅.






(** The thought signatures that the decoders read off a list of parts. *)
Definition signatures (parts : list Part) : list string :=
  omap (fun part => if truthy (p_thoughtSignature part)
                    then p_thoughtSignature part else None) parts.

(** All signatures appended, as the metadata merge leaves them. *)
Definition mergeAll (sigs : list string) : option string :=
  match sigs with
  | [] => None
  | _ => Some (concatStrings sigs)
  end.





Definition signed_text_part (s signature : string) : Part :=
  set_thoughtSignature signature (text_part s).



(** ** Interactions protocol: stream decoder ([interaction-utils.ts]) *)

(** The [content] of a [thought_summary] delta: its [type] and [text]. *)
Record SummaryContent : Type := mkSummaryContent {
  sc_type : string;
  sc_text : option string
}.

Inductive Delta : Type :=
  | DText (text : option string)
  | DFunctionCall (id name : option string) (arguments : option Json)
  | DThoughtSignature (signature : option string)
  | DThoughtSummary (content : option SummaryContent)
  | DOther (type : string).

(** A server-sent event.  [MalformedEvent] stands for a value that is null
    or has no [event_type]. *)
Inductive InteractionSSEEvent : Type :=
  | ContentDelta (delta : option Delta) (index : option nat)
  | InteractionComplete (interaction : option Interaction)
  | OtherEvent (event_type : string)
  | MalformedEvent.

Definition makeMessageChunkFromGoogleInteractionEvent
    (event : InteractionSSEEvent) : option AIMessageChunk :=
  match event with
  | ContentDelta (Some delta) index =>
      match delta with
      | DText text =>
          Some (mkChunk (CString (if truthy text then default "" text else ""))
                  [] ∅ None)
      | DFunctionCall id name arguments =>
          Some (mkChunk (CString "")
                  [mkToolCallChunk name arguments id (Some (default 0 index))]
                  ∅ None)
      | DThoughtSignature signature =>
          Some (mkChunk (CString "") []
                  (insert_some "thought_signature" (MString <$> signature) ∅)
                  None)
      | DThoughtSummary content =>
          let text :=
            match content with
            | Some c =>
                if bool_decide (sc_type c = "text")
                then (if truthy (sc_text c) then default "" (sc_text c) else "")
                else ""
            | None => ""
            end in
          Some (mkChunk (CBlocks [reasoning_block text index]) [] ∅ None)
      | DOther _ => None
      end
  | ContentDelta None _ => None
  | InteractionComplete interaction =>
      match interaction ≫= i_usage with
      | Some usage =>
          Some (mkChunk (CString "") []
                  (insert_some "interaction_id"
                     (MString <$> (interaction ≫= i_id)) ∅)
                  (Some (mkUsage (default 0 (total_input_tokens usage))
                           (default 0 (total_output_tokens usage))
                           (default 0 (usage_total_tokens usage)))))
      | None => None
      end
  | OtherEvent _ => None
  | MalformedEvent => None
  end.

(** The streaming branch of [generateInteractions] over the interactions
    branch of [_streamResponseChunks] ([chat-models.ts]): every event that
    gives a chunk is wrapped, with the text of the chunk, and folded into
    [finalChunk].  The [text] getter of a message belongs to @langchain/core;
    it reads a content as [chunkText] does. *)
Fixpoint foldInteractionStream (events : list InteractionSSEEvent)
    (finalChunk : option ChatGenerationChunk) : option ChatGenerationChunk :=
  match events with
  | [] => finalChunk
  | event :: rest =>
      match makeMessageChunkFromGoogleInteractionEvent event with
      | Some chunk =>
          let generationChunk :=
            mkGenerationChunk (chunkText (ch_content chunk)) chunk in
          foldInteractionStream rest
            (Some (match finalChunk with
                   | Some f => concatGeneration f generationChunk
                   | None => generationChunk
                   end))
      | None => foldInteractionStream rest finalChunk
      end
  end.

(** ** Tool choice ([chat-models.ts]) *)

Inductive FunctionCallingConfigMode : Type :=
  | AUTO
  | ANY
  | NONE
  | OtherMode (name : string).

Record FunctionCallingConfig : Type := mkFunctionCallingConfig {
  fcc_mode : option FunctionCallingConfigMode;
  fcc_allowedFunctionNames : option (list string)
}.

Record ToolConfig : Type := mkToolConfig {
  functionCallingConfig : option FunctionCallingConfig;
  retrievalConfig : option Json
}.

(** A [tool_choice] that is an object: whether it has the keys that
    [formatToolConfig] probes, and the object itself. *)
Record ToolChoiceObject : Type := mkToolChoiceObject {
  has_functionCallingConfig : bool;
  has_mode : bool;
  choice_body : Json
}.

Inductive ToolChoice : Type :=
  | ChoiceString (choice : string)
  | ChoiceObject (choice : ToolChoiceObject).

(** What [formatToolConfig] returns: the given [toolConfig], a config made
    of a mode, or the tool-choice object put under [functionCallingConfig]. *)
Inductive FormattedToolConfig : Type :=
  | GivenToolConfig (config : ToolConfig)
  | ModeToolConfig (mode : FunctionCallingConfigMode)
  | WrappedToolChoice (choice : ToolChoiceObject).

(** What [formatInteractionToolConfig] returns: [allowed_tools] with a
    mode, or the tool-choice object as it is. *)
Inductive InteractionToolChoice : Type :=
  | AllowedToolsMode (mode : string)
  | GivenToolChoice (choice : ToolChoiceObject).

(** [c.toUpperCase()] on a character: the letters [a] to [z] lose 32.  Other
    characters stay; none of them upper-cases to a letter of [AUTO], [ANY]
    or [NONE], which is all the lookups below ask for. *)
Definition upperCaseChar (c : ascii) : ascii :=
  let n := nat_of_ascii c in
  if (97 <=? n) && (n <=? 122) then ascii_of_nat (n - 32) else c.

Fixpoint toUpperCase (s : string) : string :=
  match s with
  | EmptyString => EmptyString
  | String c s' => String (upperCaseChar c) (toUpperCase s')
  end.

(** [choice in modeMap ? modeMap[choice] : undefined] for the map of
    [formatToolConfig]. *)
Definition modeMap (choice : string) : option FunctionCallingConfigMode :=
  if bool_decide (choice = "AUTO") then Some AUTO
  else if bool_decide (choice = "ANY") then Some ANY
  else if bool_decide (choice = "NONE") then Some NONE
  else None.

(** The same for the map of [formatInteractionToolConfig]. *)
Definition interactionModeMap (choice : string) : option string :=
  if bool_decide (choice = "AUTO") then Some "auto"
  else if bool_decide (choice = "ANY") then Some "any"
  else if bool_decide (choice = "NONE") then Some "none"
  else None.

(** Truthiness of [options.tool_choice]: an object, or a non-empty string. *)
Definition tool_choice_truthy (o : option ToolChoice) : bool :=
  match o with
  | Some (ChoiceString s) => bool_decide (s <> "")
  | Some (ChoiceObject _) => true
  | None => false
  end.

(** [formatToolConfig], on the two options it reads. *)
Definition formatToolConfig (toolConfig : option ToolConfig)
    (tool_choice : option ToolChoice) : option FormattedToolConfig :=
  match toolConfig with
  | Some config => Some (GivenToolConfig config)
  | None =>
      if tool_choice_truthy tool_choice then
        match tool_choice with
        | Some (ChoiceString s) => ModeToolConfig <$> modeMap (toUpperCase s)
        | Some (ChoiceObject o) =>
            if has_functionCallingConfig o || has_mode o
            then Some (WrappedToolChoice o) else None
        | None => None
        end
      else None
  end.

(** The mode string that [formatInteractionToolConfig] derives from a
    function-calling mode. *)
Definition modeString (mode : option FunctionCallingConfigMode) : string :=
  match mode with
  | Some AUTO => "auto"
  | Some ANY => "any"
  | _ => "none"
  end.

(** The mapping of [toolConfig] at the end of
    [formatInteractionToolConfig]. *)
Definition interactionChoiceOfToolConfig (toolConfig : option ToolConfig)
  : option InteractionToolChoice :=
  match toolConfig ≫= functionCallingConfig with
  | Some fcc => Some (AllowedToolsMode (modeString (fcc_mode fcc)))
  | None => None
  end.

(** [formatInteractionToolConfig], on the two options it reads. *)
Definition formatInteractionToolConfig (toolConfig : option ToolConfig)
    (tool_choice : option ToolChoice) : option InteractionToolChoice :=
  if tool_choice_truthy tool_choice then
    match tool_choice with
    | Some (ChoiceString s) =>
        match interactionModeMap (toUpperCase s) with
        | Some mode => Some (AllowedToolsMode mode)
        | None => interactionChoiceOfToolConfig toolConfig
        end
    | Some (ChoiceObject o) => Some (GivenToolChoice o)
    | None => interactionChoiceOfToolConfig toolConfig
    end
  else interactionChoiceOfToolConfig toolConfig.

(** ** Tools ([chat-models.ts]) *)

Record FunctionDeclaration : Type := mkFunctionDeclaration {
  fd_name : option string;
  fd_description : option string;
  fd_parameters : option Json
}.

(** What [isStructuredTool] accepts: a LangChain tool with its name, its
    description and its schema.  The schema is held as the JSON Schema that
    [toJsonSchema] gives for it, or that it already is. *)
Record StructuredTool : Type := mkStructuredTool {
  st_name : string;
  st_description : string;
  st_schema : Json
}.

(** An entry of [options.tools], by what the formatters probe: the value of
    [type] when the key is there, the value of [functionDeclarations] when
    the key is there ([Some None] for a key without a list), the presence of
    [googleSearch] and of [codeExecution], and the tool as a structured tool
    when [isStructuredTool] holds of it. *)
Record ToolInput : Type := mkToolInput {
  ti_type : option string;
  ti_functionDeclarations : option (option (list FunctionDeclaration));
  ti_googleSearch : bool;
  ti_codeExecution : bool;
  ti_structured : option StructuredTool
}.

(** A tool of the standard protocol: an entry handed on, or the gathered
    function declarations. *)
Inductive Tool : Type :=
  | GivenTool (tool : ToolInput)
  | DeclarationsTool (functionDeclarations : list FunctionDeclaration).

(** A tool of the interactions protocol. *)
Inductive InteractionTool : Type :=
  | GivenInteractionTool (tool : ToolInput)
  | FunctionTool (name description : option string) (parameters : option Json)
  | GoogleSearchTool
  | CodeExecutionTool.

(** ['functionDeclarations' in tool || 'googleSearch' in tool ||
    'codeExecution' in tool] *)
Definition isGoogleTool (tool : ToolInput) : bool :=
  bool_decide (is_Some (ti_functionDeclarations tool))
  || ti_googleSearch tool || ti_codeExecution tool.

Definition declarationOf (lcTool : StructuredTool) : FunctionDeclaration :=
  mkFunctionDeclaration (Some (st_name lcTool)) (Some (st_description lcTool))
    (Some (st_schema lcTool)).

(** The loop of [formatTools], from the state
    [(functionDeclarations, googleTools)]. *)
Fixpoint formatToolsLoop (toolList : list ToolInput)
    (functionDeclarations : list FunctionDeclaration)
    (googleTools : list Tool) : list FunctionDeclaration * list Tool :=
  match toolList with
  | [] => (functionDeclarations, googleTools)
  | tool :: rest =>
      if isGoogleTool tool then
        formatToolsLoop rest functionDeclarations
          (googleTools ++ [GivenTool tool])
      else
        match ti_structured tool with
        | Some lcTool =>
            formatToolsLoop rest
              (functionDeclarations ++ [declarationOf lcTool]) googleTools
        | None => formatToolsLoop rest functionDeclarations googleTools
        end
  end.

Definition formatTools (tools : option (list ToolInput))
  : option (list Tool) :=
  match tools with
  | None => None
  | Some toolList =>
      if bool_decide (length toolList = 0) then None
      else
        let '(functionDeclarations, googleTools) :=
          formatToolsLoop toolList [] [] in
        let googleTools :=
          if bool_decide (0 < length functionDeclarations)
          then googleTools ++ [DeclarationsTool functionDeclarations]
          else googleTools in
        if bool_decide (0 < length googleTools) then Some googleTools
        else None
  end.

(** ['type' in tool] with one of the three types of the interactions
    protocol. *)
Definition isInteractionTool (tool : ToolInput) : bool :=
  match ti_type tool with
  | Some type =>
      bool_decide (type = "function") || bool_decide (type = "google_search")
      || bool_decide (type = "code_execution")
  | None => false
  end.

(** What one entry adds to [googleTools] in [formatInteractionTools]. *)
Definition formatInteractionTool (tool : ToolInput) : list InteractionTool :=
  if isInteractionTool tool then [GivenInteractionTool tool]
  else
    match ti_functionDeclarations tool with
    | Some funcs =>
        map (fun func =>
               FunctionTool (fd_name func) (fd_description func)
                 (fd_parameters func)) (default [] funcs)
        ++ (if ti_googleSearch tool then [GoogleSearchTool] else [])
        ++ (if ti_codeExecution tool then [CodeExecutionTool] else [])
    | None =>
        match ti_structured tool with
        | Some lcTool =>
            [FunctionTool (Some (st_name lcTool))
               (Some (st_description lcTool)) (Some (st_schema lcTool))]
        | None => []
        end
    end.

(** The loop of [formatInteractionTools]. *)
Fixpoint formatInteractionToolsLoop (toolList : list ToolInput)
    (googleTools : list InteractionTool) : list InteractionTool :=
  match toolList with
  | [] => googleTools
  | tool :: rest =>
      formatInteractionToolsLoop rest
        (googleTools ++ formatInteractionTool tool)
  end.

Definition formatInteractionTools (tools : option (list ToolInput))
  : option (list InteractionTool) :=
  match tools with
  | None => None
  | Some toolList =>
      if bool_decide (length toolList = 0) then None
      else
        let googleTools := formatInteractionToolsLoop toolList [] in
        if bool_decide (0 < length googleTools) then Some googleTools
        else None
  end.

(** ** Construction of the model ([chat-models.ts]) *)

Inductive ConfigError : Type :=
  | BothModelAndAgent
  | NeitherModelNorAgent
  | StoreFalseWithBackground
  | AgentWithoutInteractionsApi
  | ApiKeyNotFound.

(** The fields of [ChatGoogleGenAIInput] that the constructor tests or
    defaults; sampling and client settings are copied as they are. *)
Record ChatGoogleGenAIInput : Type := mkInput {
  in_apiKey : option string;
  in_model : option string;
  in_agent : option string;
  in_useExperimentalInteractionsApi : option bool;
  in_streaming : option bool;
  in_streamUsage : option bool;
  in_background : option bool;
  in_store : option bool
}.

(** The constructor, given the value of the environment variable
    [GOOGLE_API_KEY]; it returns the object and its API key, or the error
    that it throws. *)
Definition constructModel (fields : option ChatGoogleGenAIInput)
    (env_GOOGLE_API_KEY : option string)
  : ConfigError + (ChatGoogleGenAI * string) :=
  let model := fields ≫= in_model in
  let agent := fields ≫= in_agent in
  let background := fields ≫= in_background in
  let store := fields ≫= in_store in
  if truthy model && truthy agent then inl BothModelAndAgent
  else if negb (truthy model) && negb (truthy agent) then
    inl NeitherModelNorAgent
  else if bool_decide (store = Some false)
          && bool_decide (background = Some true) then
    inl StoreFalseWithBackground
  else if truthy agent
          && bool_decide
               (fields ≫= in_useExperimentalInteractionsApi = Some false) then
    inl AgentWithoutInteractionsApi
  else
    let useExperimentalInteractionsApi :=
      if truthy agent then true
      else default false (fields ≫= in_useExperimentalInteractionsApi) in
    let apiKey :=
      match fields ≫= in_apiKey with
      | Some key => Some key
      | None => env_GOOGLE_API_KEY
      end in
    if truthy apiKey then
      inr (mkModel model agent
             (default false (fields ≫= in_streaming))
             (default true (fields ≫= in_streamUsage))
             useExperimentalInteractionsApi background store,
           default "" apiKey)
    else inl ApiKeyNotFound.

(** The getters [requiredAgent] and [requiredModel]: [None] when they
    throw. *)
Definition requiredAgent (this : ChatGoogleGenAI) : option string :=
  if truthy (agent this) then agent this else None.

Definition requiredModel (this : ChatGoogleGenAI) : option string :=
  if truthy (model this) then model this else None.

(** The name that a call sends: [_generate], [_streamResponseChunks] and
    [generateInteractions] read [requiredAgent] on the interactions path of
    an object with an agent, and [requiredModel] everywhere else. *)
Definition requestTarget (this : ChatGoogleGenAI) (options : CallOptions)
  : option string :=
  if shouldUseInteractionsApi this options then
    if truthy (agent this) then requiredAgent this else requiredModel this
  else requiredModel this.

(** ** Requests of the interactions protocol ([chat-models.ts]) *)

(** The options of a call that concern tools. *)
Record ToolOptions : Type := mkToolOptions {
  opt_tools : option (list ToolInput);
  opt_toolConfig : option ToolConfig;
  opt_tool_choice : option ToolChoice
}.

(** What is handed to [client.interactions.create].  The generation
    settings and the response format, which [interactiveInvocationParams]
    copies from the object and the options, are left out. *)
Record InteractionRequest : Type := mkInteractionRequest {
  rq_agent : option string;
  rq_model : option string;
  rq_input : list Turn;
  rq_system_instruction : option string;
  rq_previous_interaction_id : option string;
  rq_tools : option (list InteractionTool);
  rq_tool_choice : option InteractionToolChoice;
  rq_background : option bool;
  rq_stream : bool;
  rq_store : option bool
}.

(** [options.background ?? this.background] *)
Definition callBackground (this : ChatGoogleGenAI) (options : CallOptions)
  : option bool :=
  match opt_background options with
  | Some b => Some b
  | None => background this
  end.

(** [None] when [requiredAgent] throws. *)
Definition interactiveAgentInvocationParams (this : ChatGoogleGenAI)
    (input : list Turn) (options : CallOptions) (stream : bool)
  : option InteractionRequest :=
  agent ← requiredAgent this;
  Some (mkInteractionRequest (Some agent) None input None
          (previousInteractionId options) None None
          (callBackground this options) stream (store this)).

(** [None] when [requiredModel] throws. *)
Definition interactiveInvocationParams (this : ChatGoogleGenAI)
    (input : list Turn) (system_instruction : option string)
    (options : CallOptions) (toolOptions : ToolOptions) (stream : bool)
  : option InteractionRequest :=
  let tools := formatInteractionTools (opt_tools toolOptions) in
  let tool_choice :=
    formatInteractionToolConfig (opt_toolConfig toolOptions)
      (opt_tool_choice toolOptions) in
  model ← requiredModel this;
  Some (mkInteractionRequest None (Some model) input system_instruction
          (previousInteractionId options) tools tool_choice
          (callBackground this options) stream (store this)).

(** The request that [generateInteractions] ([stream] false) and the
    interactions branch of [_streamResponseChunks] ([stream] true) build:
    the messages are converted first, then the parameters are made for the
    agent when the object has one and for the model otherwise. *)
Definition interactionRequest (this : ChatGoogleGenAI)
    (messages : list BaseMessage) (options : CallOptions)
    (toolOptions : ToolOptions) (stream : bool)
  : result (option InteractionRequest) :=
  payload ← convertMessagesToGoogleInteractionPayload messages;
  Ok (if truthy (agent this)
      then interactiveAgentInvocationParams this (input payload) options
             stream
      else interactiveInvocationParams this (input payload)
             (system_instruction payload) options toolOptions stream).

(** ** Further notions *)

(** The response whose first candidate holds the given parts. *)
Definition responseOfParts (parts : list Part) : GenerateContentResponse :=
  mkResponse
    (Some [mkCandidate (Some (mkContent "model" (Some parts))) None None])
    None ∅.

(** The messages whose content is a plain string. *)
Definition stringContent (m : BaseMessage) : Prop :=
  exists s, msg_content m = CString s.

Definition isOtherMessage (m : BaseMessage) : bool :=
  match m with OtherMessage _ _ => true | _ => false end.

Definition tool_conversation : list BaseMessage :=
  [SystemMessage (CString "be brief");
   AIMessage (CString "") [weather_call] ∅ None;
   ToolMessage (CString "sunny") (Some "get_weather") "call-1" None].

Definition split_conversation : list BaseMessage :=
  [HumanMessage (CString "a"); SystemMessage (CString "be brief");
   HumanMessage (CString "b")].

(** The name and the arguments of a tool call, without its identifier. *)
Definition callOf (tc : ToolCall) : string * Json := (tc_name tc, tc_args tc).

(** The reasoning text that a part of a full response adds to the
    [thoughts] entry of the metadata. *)
Definition partThoughts (part : Part) : list string :=
  if truthy (p_text part) && p_thought part
  then [default "" (p_text part)] else [].

(** The thought signatures that the interactions decoder reads off a list
    of outputs. *)
Definition outputSignatures (outputs : list Output) : list string :=
  omap (fun output =>
          match output with
          | OThought signature _ =>
              if truthy signature then signature else None
          | _ => None
          end) outputs.

Definition isImageOutput (output : Output) : bool :=
  match output with OImage _ _ => true | _ => false end.

(** The function-call item that the interactions encoder builds for the
    tool call decoded from an output. *)
Definition outputCallItems (output : Output) : list Item :=
  match output with
  | OFunctionCall id name arguments =>
      [FunctionCallContent (default "" id) name arguments]
  | _ => []
  end.

(** An interaction with a signed thought, a text and a function call. *)
Definition signed_interaction : Interaction :=
  mkInteraction (Some "i1") None None
    (Some [OThought (Some "sig") (Some [mkSummaryItem "text" "thinking"]);
           OText (Some "hello");
           OFunctionCall None "get_weather" "{}"]) None.

(** Events that are neither a function-call nor a thought-summary delta. *)
Definition plainEvent (event : InteractionSSEEvent) : bool :=
  match event with
  | ContentDelta (Some (DFunctionCall _ _ _)) _
  | ContentDelta (Some (DThoughtSummary _)) _ => false
  | _ => true
  end.

(** The text, the thought signature and the interaction identifier that an
    event brings. *)
Definition eventText (event : InteractionSSEEvent) : string :=
  match event with
  | ContentDelta (Some (DText text)) _ =>
      if truthy text then default "" text else ""
  | _ => ""
  end.

Definition eventSignature (event : InteractionSSEEvent) : option string :=
  match event with
  | ContentDelta (Some (DThoughtSignature signature)) _ => signature
  | _ => None
  end.

Definition eventId (event : InteractionSSEEvent) : option string :=
  match event with
  | InteractionComplete interaction =>
      match interaction ≫= i_usage with
      | Some _ => interaction ≫= i_id
      | None => None
      end
  | _ => None
  end.

(** What holds of the chunk folded from the plain events [events]. *)
Definition plainEvents (final : option ChatGenerationChunk)
    (events : list InteractionSSEEvent) : Prop :=
  match final with
  | Some f =>
      gc_text f = concatStrings (map eventText events)
      /\ ch_content (gc_message f)
         = CString (concatStrings (map eventText events))
      /\ ch_tool_call_chunks (gc_message f) = []
      /\ ch_response_metadata (gc_message f) !! "thought_signature"
         = MString <$> mergeAll (omap eventSignature events)
      /\ ch_response_metadata (gc_message f) !! "interaction_id"
         = MString <$> mergeAll (omap eventId events)
  | None =>
      Forall (fun event =>
                makeMessageChunkFromGoogleInteractionEvent event = None)
        events
  end.

Definition hello_events : list InteractionSSEEvent :=
  [ContentDelta (Some (DThoughtSignature (Some "sig"))) (Some 0);
   ContentDelta (Some (DText (Some "Hel"))) (Some 1);
   OtherEvent "content.stop";
   ContentDelta (Some (DText (Some "lo"))) (Some 1);
   InteractionComplete
     (Some (mkInteraction (Some "i1") None None None
              (Some (mkInteractionUsage (Some 1) (Some 2) (Some 3)))))].

(** The positions, counted from [index], of the parts that the stream
    converter turns into a tool-call chunk: those with a function call and
    no text. *)
Fixpoint callPositions (parts : list Part) (index : nat) : list nat :=
  match parts with
  | [] => []
  | part :: rest =>
      match p_text part, p_functionCall part with
      | None, Some _ => index :: callPositions rest (S index)
      | _, _ => callPositions rest (S index)
      end
  end.

(** The tool-call chunks of an accumulator of [reduce]. *)
Definition accToolCallChunks (acc : option AIMessageChunk)
  : list ToolCallChunk :=
  match acc with
  | Some a => ch_tool_call_chunks a
  | None => []
  end.

(** The deltas for which the stream converter returns null: no candidate
    and no usage, or a first candidate without any part. *)
Definition droppedDelta (response : GenerateContentResponse) : bool :=
  match firstCandidate response with
  | None =>
      match usageMetadata response with
      | Some _ => false
      | None => true
      end
  | Some candidate =>
      match cand_content candidate ≫= c_parts with
      | Some (_ :: _) => false
      | _ => true
      end
  end.

(** A delta whose candidate has a finish reason and no parts, with usage. *)
Definition finish_delta : GenerateContentResponse :=
  mkResponse (Some [mkCandidate None (Some "STOP") (Some 0)])
    (Some (mkGoogleUsage (Some 1) (Some 2) (Some 3))) ∅.

(** A part with a text and a function call. *)
Definition text_and_call_part : Part :=
  mkPart (Some "calling") false None None (Some call_without_id) None None
    None None.

(** The texts of the system messages of a conversation that are not empty,
    in order. *)
Definition systemTexts (messages : list BaseMessage) : list string :=
  List.filter (fun text => bool_decide (text <> ""))
    (omap (fun message =>
             match message with
             | SystemMessage content => Some (systemText content)
             | _ => None
             end) messages).

(** The system instruction made of a list of texts. *)
Definition instructionOf (texts : list string) : option string :=
  match texts with
  | [] => None
  | _ => Some (join (String "010"%char "") texts)
  end.

(** The function declarations that [formatTools] gathers: those of the
    structured tools among the entries that are not handed on. *)
Definition gatheredDeclarations (toolList : list ToolInput)
  : list FunctionDeclaration :=
  declarationOf <$>
    omap ti_structured
      (List.filter (fun tool => negb (isGoogleTool tool)) toolList).

(** The entries that [formatTools] hands on. *)
Definition givenTools (toolList : list ToolInput) : list Tool :=
  GivenTool <$> List.filter isGoogleTool toolList.

(** An entry that only asks for Google Search, as the standard protocol
    writes it. *)
Definition search_tool : ToolInput := mkToolInput None None true false None.

(** * Properties *)

(** ** Strings and the data-URL pattern *)

Lemma append_cons (c : ascii) (s t : string) :
  String c s +:+ t = String c (s +:+ t).
Proof. reflexivity. Qed.

Lemma append_nil_l (s : string) : "" +:+ s = s.
Proof. reflexivity. Qed.

Lemma append_nil_r (s : string) : s +:+ "" = s.
Proof.
  induction s as [|c s IH]; [reflexivity |].
  by rewrite append_cons, IH.
Qed.

Lemma append_assoc (a b c : string) : (a +:+ b) +:+ c = a +:+ b +:+ c.
Proof.
  induction a as [|x a IH]; [reflexivity |].
  by rewrite !append_cons, IH.
Qed.

Lemma append_eq_nil (a b : string) : a +:+ b = "" -> a = "" /\ b = "".
Proof. destruct a; [auto | discriminate]. Qed.









(** The pattern on the image literals of the specification, and its greedy
    first group on a text with two markers. *)
Example parseBase64Data_png :
  parseBase64Data "data:image/png;base64,QUJD" = Ok ("image/png", "QUJD").
Proof. reflexivity. Qed.

Example match_data_url_greedy :
  match_data_url "data:a;base64,b;base64,c" = Some ("a;base64,b", "c").
Proof. reflexivity. Qed.

Example convertBlockToPart_https :
  convertBlockToPart (image_url_block "https://x/y.png")
  = Ok (fileData_part "image/jpeg" "https://x/y.png").
Proof. reflexivity. Qed.


(** ** Conversions that may throw *)

Lemma is_Ok_Ok {A : Type} (a : A) : is_Ok (Ok a).
Proof. by exists a. Qed.

Lemma not_is_Ok_Throw {A : Type} (e : Error) : ~ is_Ok (@Throw A e).
Proof. intros [a [=]]. Qed.

Lemma bind_Ok {A B : Type} (m : result A) (k : A -> result B) (b : B) :
  m ≫= k = Ok b <-> exists a, m = Ok a /\ k a = Ok b.
Proof.
  destruct m as [a|e]; simpl.
  - split; [eauto | intros (? & [= <-] & ?); done].
  - split; [discriminate | intros (? & [=] & _)].
Qed.

Lemma map_throwing_Ok {A B : Type} (f : A -> result B) (l : list A)
    (ys : list B) :
  map_throwing f l = Ok ys <-> Forall2 (fun x y => f x = Ok y) l ys.
Proof.
  revert ys; induction l as [|x l IH]; intros ys; simpl.
  - split; [intros [= <-]; constructor | by inversion 1].
  - rewrite bind_Ok. split.
    + intros (y & Hy & (zs & Hzs & [= <-])%bind_Ok).
      constructor; [done | by apply IH].
    + inversion 1 as [|? y ? zs Hy Hzs]; subst.
      exists y; split; [done |]. apply bind_Ok. exists zs.
      split; [by apply IH | done].
Qed.

Lemma map_throwing_length {A B : Type} (f : A -> result B) (l : list A)
    (ys : list B) :
  map_throwing f l = Ok ys -> length ys = length l.
Proof. intros H%map_throwing_Ok. symmetry. by eapply Forall2_length. Qed.

(** The first conversion that throws decides the outcome of the map. *)
Lemma map_throwing_first_failure {A B : Type} (f : A -> result B)
    (pre post : list A) (x : A) (e : Error) :
  is_Ok (map_throwing f pre) -> f x = Throw e ->
  map_throwing f (pre ++ x :: post) = Throw e.
Proof.
  intros [ys Hpre] Hx. revert ys Hpre.
  induction pre as [|a pre IH]; intros ys Hpre; simpl in *.
  - by rewrite Hx.
  - apply bind_Ok in Hpre as (y & -> & (zs & Hzs & _)%bind_Ok). simpl.
    by rewrite (IH zs Hzs).
Qed.

(** No conversion of an element can have thrown when the map succeeds. *)
Lemma map_throwing_elem {A B : Type} (f : A -> result B) (l : list A) (x : A) :
  x ∈ l -> is_Ok (map_throwing f l) -> is_Ok (f x).
Proof.
  intros Hx [ys Hys%map_throwing_Ok].
  induction Hys as [|a y l ys Ha _ IH]; [by apply elem_of_nil in Hx |].
  apply elem_of_cons in Hx as [->|Hx]; [by exists y | by apply IH].
Qed.

Lemma flatMap_throwing_elem {A B : Type} (f : A -> result (list B))
    (l : list A) (x : A) :
  x ∈ l -> is_Ok (flatMap_throwing f l) -> is_Ok (f x).
Proof.
  induction l as [|a l IH]; intros Hx [ys Hys]; [by apply elem_of_nil in Hx |].
  simpl in Hys. apply bind_Ok in Hys as (y & Hy & (zs & Hzs & _)%bind_Ok).
  apply elem_of_cons in Hx as [->|Hx]; [by exists y |].
  apply IH; [done | by exists zs].
Qed.

(** ** The standard encoder, message by message *)

Lemma messageParts_content (m : BaseMessage) :
  is_Ok (messageParts m) -> is_Ok (convertContentToParts (msg_content m)).
Proof.
  unfold messageParts. intros [ps (cs & Hcs & _)%bind_Ok]. by exists cs.
Qed.

Lemma processChatMessages_elem (msgs : list BaseMessage) (cs : list Content)
    (m : BaseMessage) :
  m ∈ msgs -> is_Ok (processChatMessages msgs cs) -> is_Ok (messageParts m).
Proof.
  revert cs; induction msgs as [|a msgs IH]; intros cs Hm [out Hout];
    [by apply elem_of_nil in Hm |].
  simpl in Hout. apply bind_Ok in Hout as (ps & Hps & Hrest).
  apply elem_of_cons in Hm as [->|Hm]; [by exists ps |].
  eapply IH; [done | by exists out].
Qed.

(** A payload is only returned when the content of every message, system
    messages included, went through [convertContentToParts] without a
    throw. *)
Lemma convertMessagesToGooglePayload_elem (messages : list BaseMessage)
    (m : BaseMessage) :
  m ∈ messages -> is_Ok (convertMessagesToGooglePayload messages) ->
  is_Ok (convertContentToParts (msg_content m)).
Proof.
  intros Hm [payload Hp]. unfold convertMessagesToGooglePayload in Hp.
  apply bind_Ok in Hp as (instr & Hinstr & (cs & Hcs & _)%bind_Ok).
  destruct (isSystemMessage m) eqn:Hsys.
  - assert (Hin : m ∈ List.filter isSystemMessage messages).
    { apply list_elem_of_In, filter_In. by rewrite <- list_elem_of_In. }
    case_bool_decide as Hlen.
    + apply bind_Ok in Hinstr as (sp & Hsp & _).
      apply (flatMap_throwing_elem
               (fun msg => convertContentToParts (msg_content msg)) _ m Hin).
      by exists sp.
    + destruct (List.filter isSystemMessage messages);
        [by apply elem_of_nil in Hin | simpl in Hlen; lia].
  - apply messageParts_content.
    eapply processChatMessages_elem; [| by exists cs].
    apply list_elem_of_In, filter_In. rewrite <- list_elem_of_In.
    by rewrite Hsys.
Qed.

(** ** The interactions encoder, message by message *)

Lemma interactionLoop_cons (m : BaseMessage) (rest : list BaseMessage)
    (acc : InteractionPayload) :
  isSystemMessage m = false ->
  interactionLoop (m :: rest) acc
  = (turn ← convertMessageToGoogleTurn m;
     interactionLoop rest
       (match turn with
        | Some t => mkInteractionPayload (input acc ++ [t])
                      (system_instruction acc)
        | None => acc
        end)).
Proof. destruct m; (discriminate || reflexivity). Qed.


(** ** Image blocks *)








(** ** Unsupported blocks *)

Lemma convertBlockToPart_unsupported (b : ContentBlock) :
  b_type b <> "text" -> b_type b <> "reasoning" -> b_type b <> "image_url" ->
  convertBlockToPart b = Throw (UnsupportedBlockError (b_type b)).
Proof.
  intros Ht Hr Hi. unfold convertBlockToPart.
  by rewrite !(bool_decide_eq_false_2 (b_type b = _)) by done.
Qed.

Lemma formatBlock_dropped (b : ContentBlock) :
  b_type b <> "text" -> b_type b <> "image_url" -> formatBlock b = Ok None.
Proof.
  intros Ht Hi. unfold formatBlock.
  by rewrite !(bool_decide_eq_false_2 (b_type b = _)) by done.
Qed.

Lemma formatContent_drop (b : ContentBlock) (pre post : list ContentBlock) :
  formatBlock b = Ok None ->
  formatContent (CBlocks (pre ++ b :: post)) = formatContent (CBlocks (pre ++ post)).
Proof.
  intros Hb. simpl. induction pre as [|a pre IH]; simpl.
  - rewrite Hb. simpl.
    by destruct (map_throwing formatBlock post).
  - destruct (formatBlock a) as [o|e]; simpl; [| done].
    destruct (map_throwing formatBlock (pre ++ b :: post)) as [l1|e1];
      destruct (map_throwing formatBlock (pre ++ post)) as [l2|e2];
      simpl in *; try congruence.
    injection IH as IH. destruct o; simpl; by rewrite IH.
Qed.

(** C5, as the code has it.  In the standard codec a block whose type is
    none of [text], [reasoning], [image_url] makes the encoding fail with
    the unsupported-block error naming that type, and a successful encoding
    has one part per block.  The interactions codec does not fail: it leaves
    out every block whose type is neither [text] nor [image_url], reasoning
    blocks included, and encodes the rest. *)
Theorem C5_unsupported_blocks (b : ContentBlock) :
  b_type b <> "text" -> b_type b <> "image_url" ->
  (b_type b <> "reasoning" ->
     (forall pre post, is_Ok (convertContentToParts (CBlocks pre)) ->
        convertContentToParts (CBlocks (pre ++ b :: post))
        = Throw (UnsupportedBlockError (b_type b)))
     /\ error_message (UnsupportedBlockError (b_type b))
        = "Unsupported content block type: " +:+ b_type b
     /\ (forall messages m blocks,
           m ∈ messages -> msg_content m = CBlocks blocks -> b ∈ blocks ->
           ~ is_Ok (convertMessagesToGooglePayload messages)))
  /\ (forall blocks parts,
        convertContentToParts (CBlocks blocks) = Ok parts ->
        length parts = length blocks)
  /\ (forall pre post,
        formatContent (CBlocks (pre ++ b :: post))
        = formatContent (CBlocks (pre ++ post))).
Proof.
  intros Ht Hi. split; [intros Hr | split].
  - pose proof (convertBlockToPart_unsupported b Ht Hr Hi) as Hb.
    repeat split.
    + intros pre post Hpre. simpl. by apply map_throwing_first_failure.
    + intros messages m blocks Hm Hc Hin Hok.
      pose proof (convertMessagesToGooglePayload_elem _ _ Hm Hok) as Hparts.
      rewrite Hc in Hparts. simpl in Hparts.
      pose proof (map_throwing_elem _ _ _ Hin Hparts) as Hblock.
      rewrite Hb in Hblock. by apply not_is_Ok_Throw in Hblock.
  - intros blocks parts Hparts. by eapply map_throwing_length.
  - intros pre post. by apply formatContent_drop, formatBlock_dropped.
Qed.

Lemma C5_unsupported_blocks_witness :
  b_type audio_block <> "text" /\ b_type audio_block <> "image_url"
  /\ convertContentToParts (CBlocks [text_block "a"; audio_block])
     = Throw (UnsupportedBlockError "audio")
  /\ formatContent (CBlocks [text_block "a"; audio_block])
     = Ok [TextContent "a"].
Proof.
  destruct (C5_unsupported_blocks audio_block) as (Hstd & _ & Hint);
    [discriminate | discriminate |].
  destruct Hstd as (Hthrow & _ & _); [discriminate |].
  split; [discriminate |]. split; [discriminate |]. split.
  - apply (Hthrow [text_block "a"] []). apply is_Ok_Ok.
  - etrans; [apply (Hint [text_block "a"] []) | reflexivity].
Defined.

(** C5, counterexample: the interactions codec accepts a block of the
    unmapped type [audio] and drops it, at the codec and in the payload. *)
Lemma C5_interactions_drops_block :
  b_type audio_block <> "text" /\ b_type audio_block <> "reasoning"
  /\ b_type audio_block <> "image_url"
  /\ formatContent (CBlocks [audio_block]) = Ok []
  /\ convertMessagesToGoogleInteractionPayload
       [HumanMessage (CBlocks [audio_block])]
     = Ok (mkInteractionPayload [mkTurn "user" []] None).
Proof. repeat split; discriminate. Qed.

(** ** Merging of adjacent entries in the standard assembler *)

Lemma insert_last {A : Type} (l : list A) (x y : A) :
  <[length (l ++ [x]) - 1 := y]> (l ++ [x]) = l ++ [y].
Proof.
  rewrite length_app. simpl.
  replace (length l + 1 - 1) with (length l + 0) by lia.
  by rewrite insert_app_r.
Qed.

Lemma last_map {A B : Type} (f : A -> B) (l : list A) :
  last (map f l) = f <$> last l.
Proof.
  induction l as [|x [|y l] IH]; [reflexivity | reflexivity |].
  exact IH.
Qed.

Lemma adjacentDistinct_nil {A : Type} : adjacentDistinct (@nil A).
Proof. intros i a b Ha. by rewrite lookup_nil in Ha. Qed.

Lemma adjacentDistinct_snoc {A : Type} (l : list A) (x : A) :
  adjacentDistinct l -> last l <> Some x -> adjacentDistinct (l ++ [x]).
Proof.
  intros Hl Hlast i a b Ha Hb.
  destruct (decide (S i < length l)) as [Hlt|Hge].
  - rewrite lookup_app_l in Ha by lia. rewrite lookup_app_l in Hb by lia.
    by eapply Hl.
  - assert (Hi : S i = length l).
    { apply lookup_lt_Some in Hb. rewrite length_app in Hb. simpl in Hb. lia. }
    rewrite lookup_app_l in Ha by lia.
    rewrite Hi, lookup_app_r, Nat.sub_diag in Hb by lia.
    injection Hb as <-. intros ->. apply Hlast.
    rewrite last_lookup. rewrite <- Hi. simpl. done.
Qed.

Lemma mergeIntoContents_roles (cs : list Content) (role : string)
    (parts : list Part) :
  map c_role (mergeIntoContents cs role parts)
  = if bool_decide (last (map c_role cs) = Some role)
    then map c_role cs else map c_role cs ++ [role].
Proof.
  unfold mergeIntoContents. rewrite last_map.
  destruct (last cs) as [lastContent|] eqn:Hlast; simpl.
  - apply last_Some in Hlast as [cs' ->].
    destruct (decide (c_role lastContent = role)) as [Heq|Hne].
    + rewrite !bool_decide_eq_true_2 by congruence.
      rewrite insert_last, !map_app. done.
    + rewrite !bool_decide_eq_false_2 by congruence.
      by rewrite map_app.
  - by rewrite map_app.
Qed.

Lemma allParts_app (cs1 cs2 : list Content) :
  allParts (cs1 ++ cs2) = allParts cs1 ++ allParts cs2.
Proof. unfold allParts. by rewrite map_app, concat_app. Qed.

Lemma allParts_singleton (c : Content) :
  allParts [c] = default [] (c_parts c).
Proof. unfold allParts. simpl. apply app_nil_r. Qed.

Lemma mergeIntoContents_parts (cs : list Content) (role : string)
    (parts : list Part) :
  allParts (mergeIntoContents cs role parts) = allParts cs ++ parts.
Proof.
  unfold mergeIntoContents.
  destruct (last cs) as [lastContent|] eqn:Hlast.
  - apply last_Some in Hlast as [cs' ->].
    case_bool_decide.
    + rewrite insert_last, !allParts_app, !allParts_singleton. simpl.
      by rewrite app_assoc.
    + by rewrite allParts_app, allParts_singleton.
  - by rewrite allParts_app, allParts_singleton.
Qed.

Lemma mergeIntoContents_adjacentDistinct (cs : list Content) (role : string)
    (parts : list Part) :
  adjacentDistinct (map c_role cs) ->
  adjacentDistinct (map c_role (mergeIntoContents cs role parts)).
Proof.
  intros Hcs. rewrite mergeIntoContents_roles.
  case_bool_decide; [done |]. by apply adjacentDistinct_snoc.
Qed.

(** The loop keeps neighbours of different roles and appends the parts of
    the messages in order. *)
Lemma processChatMessages_spec (msgs : list BaseMessage)
    (cs out : list Content) :
  processChatMessages msgs cs = Ok out ->
  adjacentDistinct (map c_role cs) ->
  adjacentDistinct (map c_role out)
  /\ exists pss, map_throwing messageParts msgs = Ok pss
                 /\ allParts out = allParts cs ++ List.concat pss.
Proof.
  revert cs; induction msgs as [|m msgs IH]; intros cs Hout Hcs; simpl in *.
  - injection Hout as <-. split; [done |]. exists []. split; [done |].
    simpl. by rewrite app_nil_r.
  - apply bind_Ok in Hout as (ps & Hps & Hrest).
    destruct (IH _ Hrest) as (Hadj & pss & Hpss & Hall).
    { by apply mergeIntoContents_adjacentDistinct. }
    split; [done |]. exists (ps :: pss). rewrite Hps, Hpss. split; [done |].
    rewrite Hall, mergeIntoContents_parts. simpl. by rewrite app_assoc.
Qed.

(** The turns of the interactions payload: one per message that is not a
    system message, in order. *)
Lemma interactionLoop_spec (messages : list BaseMessage)
    (acc out : InteractionPayload) :
  interactionLoop messages acc = Ok out ->
  exists turns,
    Forall2 (fun m t => convertMessageToGoogleTurn m = Ok (Some t))
      (List.filter (fun m => negb (isSystemMessage m)) messages) turns
    /\ input out = input acc ++ turns.
Proof.
  revert acc; induction messages as [|m messages IH]; intros acc Hout.
  - injection Hout as <-. exists []. split; [constructor |].
    by rewrite app_nil_r.
  - destruct (isSystemMessage m) eqn:Hsys.
    + destruct m; try discriminate. simpl in Hout.
      apply IH in Hout as (turns & Hturns & Hin).
      exists turns. split; [done |]. rewrite Hin. by case_bool_decide.
    + rewrite interactionLoop_cons in Hout by done.
      apply bind_Ok in Hout as (turn & Hturn & Hrest).
      apply IH in Hrest as (turns & Hturns & Hin).
      simpl. rewrite Hsys. simpl.
      destruct turn as [t|].
      * exists (t :: turns). split; [by constructor |].
        rewrite Hin. simpl. by rewrite <- app_assoc.
      * destruct m; try discriminate; simpl in Hturn;
          try (apply bind_Ok in Hturn as (? & _ & [=])); discriminate.
Qed.

Lemma convertMessagesToGooglePayload_contents (messages : list BaseMessage)
    (payload : GooglePayload) :
  convertMessagesToGooglePayload messages = Ok payload ->
  processChatMessages (chatMessagesOf messages) [] = Ok (contents payload).
Proof.
  unfold convertMessagesToGooglePayload.
  intros (instr & _ & (cs & Hcs & [= <-])%bind_Ok)%bind_Ok. exact Hcs.
Qed.

(** C3, as the code has it.  The standard assembler merges: two consecutive
    messages of one role give a single entry holding the parts of the first
    followed by the parts of the second, and in every payload no two
    neighbouring entries share a role while the parts of all entries, read
    in order, are the parts of the messages in order.  The interactions
    assembler does not merge: its input holds one turn per message that is
    not a system message, in order. *)
Theorem C3_role_merging (messages : list BaseMessage) :
  (forall payload, convertMessagesToGooglePayload messages = Ok payload ->
     adjacentDistinct (map c_role (contents payload))
     /\ exists pss, map_throwing messageParts (chatMessagesOf messages) = Ok pss
                    /\ allParts (contents payload) = List.concat pss)
  /\ (forall m1 m2 ps1 ps2,
        messages = [m1; m2] ->
        isSystemMessage m1 = false -> isSystemMessage m2 = false ->
        messageRole m1 = messageRole m2 ->
        messageParts m1 = Ok ps1 -> messageParts m2 = Ok ps2 ->
        convertMessagesToGooglePayload messages
        = Ok (mkGooglePayload
                [mkContent (messageRole m1) (Some (ps1 ++ ps2))] None))
  /\ (forall payload,
        convertMessagesToGoogleInteractionPayload messages = Ok payload ->
        Forall2 (fun m t => convertMessageToGoogleTurn m = Ok (Some t))
          (chatMessagesOf messages) (input payload)).
Proof.
  split; [| split].
  - intros payload Hp%convertMessagesToGooglePayload_contents.
    apply processChatMessages_spec in Hp as (Hadj & pss & Hpss & Hall);
      [| apply adjacentDistinct_nil].
    split; [done |]. by exists pss.
  - intros m1 m2 ps1 ps2 -> Hs1 Hs2 Hrole Hp1 Hp2.
    unfold convertMessagesToGooglePayload. simpl.
    rewrite Hs1, Hs2. simpl. rewrite Hp1. simpl. rewrite Hp2. simpl.
    unfold mergeIntoContents. simpl.
    by rewrite bool_decide_eq_true_2 by done.
  - intros payload Hp. unfold convertMessagesToGoogleInteractionPayload in Hp.
    apply interactionLoop_spec in Hp as (turns & Hturns & Hin).
    simpl in Hin. by rewrite Hin.
Qed.

Lemma C3_role_merging_witness :
  let messages := [HumanMessage (CString "a"); HumanMessage (CString "b")] in
  convertMessagesToGooglePayload messages
  = Ok (mkGooglePayload
          [mkContent "user" (Some [text_part "a"; text_part "b"])] None)
  /\ Forall2 (fun m t => convertMessageToGoogleTurn m = Ok (Some t))
       messages
       [mkTurn "user" [TextContent "a"]; mkTurn "user" [TextContent "b"]].
Proof.
  intros messages.
  destruct (C3_role_merging messages) as (_ & Hstd & Hint). split.
  - apply (Hstd (HumanMessage (CString "a")) (HumanMessage (CString "b"))
             [text_part "a"] [text_part "b"]); reflexivity.
  - apply (Hint (mkInteractionPayload
                   [mkTurn "user" [TextContent "a"];
                    mkTurn "user" [TextContent "b"]] None)).
    reflexivity.
Defined.

(** C3, counterexample: the interactions assembler turns the human messages
    [a] and [b] into two entries of the role [user]. *)
Lemma C3_interactions_no_merge :
  convertMessagesToGoogleInteractionPayload
    [HumanMessage (CString "a"); HumanMessage (CString "b")]
  = Ok (mkInteractionPayload
          [mkTurn "user" [TextContent "a"]; mkTurn "user" [TextContent "b"]]
          None).
Proof. reflexivity. Qed.

(** ** Thought signatures on re-encoding *)

Lemma reinjectThoughtSignature_snoc (content : MessageContent)
    (tool_calls : list ToolCall) (metadata : gmap string MetaValue)
    (usage : option UsageMetadata) (s : string) (front : list Part)
    (lastPart : Part) :
  string_at "thoughtSignature" metadata = Some s ->
  reinjectThoughtSignature (AIMessage content tool_calls metadata usage)
    (front ++ [lastPart])
  = front ++ [set_thoughtSignature s lastPart].
Proof.
  intros Hs. unfold reinjectThoughtSignature. rewrite Hs.
  rewrite last_snoc. apply insert_last.
Qed.

Lemma map_throwing_app_inv {A B : Type} (f : A -> result B) (l1 l2 : list A)
    (x : A) (ys : list B) :
  map_throwing f (l1 ++ x :: l2) = Ok ys ->
  exists ys1 y ys2, ys = ys1 ++ y :: ys2 /\ f x = Ok y.
Proof.
  intros H%map_throwing_Ok.
  apply Forall2_app_inv_l in H as (ys1 & ys' & _ & H & ->).
  apply Forall2_cons_inv_l in H as (y & ys2 & Hy & _ & ->).
  by exists ys1, y, ys2.
Qed.

Lemma chatMessagesOf_app (l1 l2 : list BaseMessage) :
  chatMessagesOf (l1 ++ l2) = chatMessagesOf l1 ++ chatMessagesOf l2.
Proof. apply List.filter_app. Qed.

Lemma formatBlock_signature (b : ContentBlock) (item : Item) :
  formatBlock b = Ok (Some item) -> item_signature item = None.
Proof.
  unfold formatBlock. case_bool_decide; [by intros [= <-] |].
  case_bool_decide; [| discriminate].
  destruct (match b_image_url b with
            | Some (UrlString url) => Ok url
            | Some (UrlObject (Some url)) => Ok url
            | _ => Throw (InvalidImageUrlError "Invalid image_url format")
            end) as [url|e]; simpl; [| discriminate].
  destruct (startsWith "data:" url).
  - destruct (match_data_url url) as [[? ?]|]; [by intros [= <-] | discriminate].
  - by intros [= <-].
Qed.

Lemma formatContent_signature (content : MessageContent) (items : list Item) :
  formatContent content = Ok items ->
  Forall (fun item => item_signature item = None) items.
Proof.
  destruct content as [s|blocks]; simpl.
  - intros [= <-]. by repeat constructor.
  - intros (parts & Hparts%map_throwing_Ok & [= <-])%bind_Ok.
    induction Hparts as [|b o blocks parts Hb _ IH]; simpl; [constructor |].
    destruct o as [item|]; [| done].
    constructor; [by eapply formatBlock_signature | done].
Qed.

(** C1, as the code has it.  Standard encoder: an AI message whose metadata
    holds a string under [thoughtSignature] is encoded to a non-empty list
    of parts whose last part carries the signature, the other parts being
    those of its content and tool calls unchanged; when content and tool
    calls give no part, the list is a single part of empty text that bears
    the signature; these parts appear, in that order, in the payload.
    Interactions encoder: the signature stored under [thought_signature]
    is sent as a separate thought item that comes first in the turn, before
    the items of the content and of the tool calls, none of which carries a
    signature. *)
Theorem C1_signature_reinjection (content : MessageContent)
    (tool_calls : list ToolCall) (metadata : gmap string MetaValue)
    (usage : option UsageMetadata) (s : string) :
  let m := AIMessage content tool_calls metadata usage in
  (string_at "thoughtSignature" metadata = Some s ->
   forall contentParts, convertContentToParts content = Ok contentParts ->
     let built := contentParts ++ map convertToolCallToPart tool_calls in
     exists parts,
       messageParts m = Ok parts
       /\ (exists p, last parts = Some p /\ p_thoughtSignature p = Some s)
       /\ (built = [] -> parts = [set_thoughtSignature s (text_part "")])
       /\ (forall front lastPart, built = front ++ [lastPart] ->
             parts = front ++ [set_thoughtSignature s lastPart])
       /\ (forall pre post payload,
             convertMessagesToGooglePayload (pre ++ m :: post) = Ok payload ->
             exists before after,
               allParts (contents payload) = before ++ parts ++ after))
  /\ (string_at "thought_signature" metadata = Some s ->
      forall turn, convertMessageToGoogleTurn m = Ok (Some turn) ->
        exists rest,
          t_content turn = ThoughtContent s :: rest
          /\ Forall (fun item => item_signature item = None) rest).
Proof.
  intros m. split.
  - intros Hs contentParts Hcontent built.
    assert (Hparts : messageParts m
                     = Ok (reinjectThoughtSignature m built)).
    { unfold messageParts, m. simpl. rewrite Hcontent. simpl.
      by rewrite app_nil_r. }
    exists (reinjectThoughtSignature m built). split; [done |].
    assert (Hshape :
      (built = [] /\ reinjectThoughtSignature m built
                     = [set_thoughtSignature s (text_part "")])
      \/ exists front lastPart,
           built = front ++ [lastPart]
           /\ reinjectThoughtSignature m built
              = front ++ [set_thoughtSignature s lastPart]).
    { destruct (last built) as [lastPart|] eqn:Hlast.
      - right. apply last_Some in Hlast as [front ->].
        exists front, lastPart. split; [done |].
        by apply reinjectThoughtSignature_snoc.
      - left. apply last_None in Hlast as ->. split; [done |].
        simpl. by rewrite Hs. }
    split; [| split; [| split]].
    + destruct Hshape as [[_ ->]|(front & lastPart & _ & ->)].
      * by eexists.
      * rewrite last_snoc. by eexists.
    + intros Hnil. destruct Hshape as [[_ ->]|(front & lastPart & Hb & _)];
        [done |].
      rewrite Hb in Hnil. by destruct front.
    + intros front lastPart Hb.
      destruct Hshape as [[Hnil _]|(front' & lastPart' & Hb' & ->)].
      * rewrite Hb in Hnil. by destruct front.
      * rewrite Hb in Hb'. apply app_inj_tail in Hb' as [-> ->]. done.
    + intros pre post payload Hp%convertMessagesToGooglePayload_contents.
      apply processChatMessages_spec in Hp as (_ & pss & Hpss & Hall);
        [| apply adjacentDistinct_nil].
      rewrite chatMessagesOf_app in Hpss. simpl in Hpss.
      apply map_throwing_app_inv in Hpss as (ys1 & y & ys2 & -> & Hy).
      rewrite Hparts in Hy. injection Hy as <-.
      exists (List.concat ys1), (List.concat ys2).
      rewrite Hall. simpl. by rewrite concat_app.
  - intros Hs turn Hturn. simpl in Hturn. rewrite Hs in Hturn.
    apply bind_Ok in Hturn as (contentParts & Hcontent & [= <-]).
    eexists. split; [reflexivity |]. apply Forall_app. split.
    + destruct content as [text|blocks].
      * injection Hcontent as <-. case_bool_decide; by repeat constructor.
      * by eapply formatContent_signature.
    + apply Forall_forall. intros item Hitem%list_elem_of_In.
      apply in_map_iff in Hitem as (tc & <- & _). done.
Qed.

Lemma C1_signature_reinjection_witness :
  let metadata : gmap string MetaValue :=
    {[ "thoughtSignature" := MString "S" ]} in
  let m := AIMessage (CString "") [weather_call] metadata None in
  string_at "thoughtSignature" metadata = Some "S"
  /\ convertContentToParts (CString "") = Ok []
  /\ messageParts m
     = Ok [set_thoughtSignature "S" (convertToolCallToPart weather_call)].
Proof.
  intros metadata m.
  assert (Hs : string_at "thoughtSignature" metadata = Some "S")
    by reflexivity.
  destruct (C1_signature_reinjection (CString "") [weather_call] metadata
              None "S") as [Hstd _].
  destruct (Hstd Hs [] eq_refl) as (parts & Hparts & _ & _ & Hsnoc & _).
  split; [exact Hs |]. split; [reflexivity |].
  unfold m. rewrite Hparts. f_equal.
  exact (Hsnoc [] (convertToolCallToPart weather_call) eq_refl).
Defined.

(** C1, counterexample: the interactions encoder puts the signature of an
    AI message in front; the last item of the turn is the text, which bears
    no signature. *)
Lemma C1_interactions_signature_not_last :
  let metadata : gmap string MetaValue :=
    {[ "thought_signature" := MString "S" ]} in
  let m := AIMessage (CString "hi") [] metadata None in
  string_at "thought_signature" metadata = Some "S"
  /\ convertMessageToGoogleTurn m
     = Ok (Some (mkTurn "model" [ThoughtContent "S"; TextContent "hi"]))
  /\ item_signature <$> last [ThoughtContent "S"; TextContent "hi"]
     = Some None.
Proof. repeat split. Qed.

(** ** Routing *)

(** C9, as the code has it.  A call whose options hold a non-empty
    [previousInteractionId] goes through the interactions protocol whatever
    [useExperimentalInteractionsApi] is, and the routing is a function of
    these two fields alone. *)
Theorem C9_routing (this this' : ChatGoogleGenAI)
    (options options' : CallOptions) :
  (forall id, previousInteractionId options = Some id -> id <> "" ->
     shouldUseInteractionsApi this options = true)
  /\ (useExperimentalInteractionsApi this = useExperimentalInteractionsApi this' ->
      previousInteractionId options = previousInteractionId options' ->
      shouldUseInteractionsApi this options
      = shouldUseInteractionsApi this' options').
Proof.
  unfold shouldUseInteractionsApi. split.
  - intros id -> Hid. simpl. rewrite bool_decide_eq_true_2 by done.
    apply orb_true_r.
  - by intros -> ->.
Qed.

Lemma C9_routing_witness :
  let options := mkCallOptions (Some "interaction-1") None None None in
  previousInteractionId options = Some "interaction-1"
  /\ "interaction-1" <> ""
  /\ useExperimentalInteractionsApi standard_model = false
  /\ shouldUseInteractionsApi standard_model options = true.
Proof.
  intros options.
  destruct (C9_routing standard_model standard_model options options)
    as [Hroute _].
  split; [reflexivity |]. split; [discriminate |]. split; [reflexivity |].
  apply (Hroute "interaction-1"); [reflexivity | discriminate].
Defined.

(** C9, counterexample: options that contain the empty string as
    [previousInteractionId] leave a model built without the experimental
    flag on the standard protocol. *)
Lemma C9_empty_previous_id_not_routed :
  previousInteractionId (mkCallOptions (Some "") None None None) = Some ""
  /\ shouldUseInteractionsApi standard_model
       (mkCallOptions (Some "") None None None) = false.
Proof. split; reflexivity. Qed.

(** ** Empty responses *)

(** C4, as the code has it.  The standard full-response decoder throws the
    empty-response error when the response has no candidate, or a first
    candidate without content, and returns nothing.  The interactions
    decoder does not throw: for a response without outputs it returns one
    generation whose text is empty, whose message has the empty string as
    content and no tool calls. *)
Theorem C4_empty_response :
  (forall response n,
     candidates response = None \/ candidates response = Some []
     \/ (exists candidate, firstCandidate response = Some candidate
                           /\ cand_content candidate = None) ->
     convertGoogleResponseToChatGeneration response n
     = Throw EmptyResponseError)
  /\ error_message EmptyResponseError
     = "No candidates returned from Google GenAI."
  /\ (forall response usage,
        i_outputs response = None \/ i_outputs response = Some [] ->
        exists metadata usage',
          convertInteractionToChatGeneration response usage
          = [mkGeneration ""
               (AIMessage (CString "") [] metadata usage')
               (mkGenerationInfo (i_status response) None)]).
Proof.
  split; [| split; [reflexivity |]].
  - intros response n Hempty.
    unfold convertGoogleResponseToChatGeneration, firstCandidate in *.
    destruct Hempty as [-> | [-> | (candidate & -> & ->)]]; reflexivity.
  - intros response usage Hempty.
    unfold convertInteractionToChatGeneration.
    destruct Hempty as [-> | ->]; simpl; by eexists _, _.
Qed.

Lemma C4_empty_response_witness :
  candidates empty_response = Some []
  /\ convertGoogleResponseToChatGeneration empty_response 0
     = Throw EmptyResponseError
  /\ i_outputs empty_interaction = None
  /\ exists metadata usage',
       convertInteractionToChatGeneration empty_interaction None
       = [mkGeneration "" (AIMessage (CString "") [] metadata usage')
            (mkGenerationInfo (Some "in_progress") None)].
Proof.
  destruct C4_empty_response as (Hstd & _ & Hint).
  split; [reflexivity |].
  split; [apply Hstd; right; left; reflexivity |].
  split; [reflexivity |].
  apply (Hint empty_interaction None). left. reflexivity.
Defined.

(** C4, counterexample: decoding an interaction that carries no outputs
    returns a generation with an empty message instead of failing. *)
Lemma C4_interactions_returns_message :
  i_outputs empty_interaction = None
  /\ convertInteractionToChatGeneration empty_interaction None
     = [mkGeneration ""
          (AIMessage (CString "") []
             ({[ "interaction_id" := MString "interaction-1" ]}
              ∪ {[ "finish_reason" := MString "in_progress" ]})
             None)
          (mkGenerationInfo (Some "in_progress") None)].
Proof.
  split; [reflexivity |]. vm_compute. reflexivity.
Qed.

(** ** What the decoders extract, part by part *)

Lemma concatStrings_app (l1 l2 : list string) :
  concatStrings (l1 ++ l2) = concatStrings l1 +:+ concatStrings l2.
Proof.
  unfold concatStrings. induction l1 as [|x l1 IH]; simpl; [done |].
  by rewrite IH, append_assoc.
Qed.

Lemma join_empty (l : list string) : join "" l = concatStrings l.
Proof.
  induction l as [|x [|y l] IH]; [reflexivity | |].
  - simpl. by rewrite append_nil_r.
  - change (join "" (x :: y :: l)) with (x +:+ "" +:+ join "" (y :: l)).
    by rewrite IH.
Qed.

Lemma decodePart_fields (st : DecodeState) (part : Part) (n : nat) :
  let st' := (decodePart st part n).1 in
  contentBlocks st' = contentBlocks st ++ partBlocks part
  /\ textContent st' = textContent st +:+ partText part
  /\ toolCalls st'
     = toolCalls st ++
       match p_functionCall part with
       | Some fc => [toolCallOf fc n]
       | None => []
       end
  /\ (decodePart st part n).2
     = n + missingIds (option_list (p_functionCall part)).
Proof.
  unfold decodePart, partBlocks, partText, toolCallOf, missingIds, idOrUuid.
  destruct (truthy (p_text part)), (p_thought part);
    destruct (p_functionCall part) as [[name args [id|]]|]; simpl;
    rewrite ?app_nil_r, ?append_nil_r, ?Nat.add_0_r, ?Nat.add_1_r; done.
Qed.

Lemma missingIds_app (l1 l2 : list FunctionCall) :
  missingIds (l1 ++ l2) = missingIds l1 + missingIds l2.
Proof. unfold missingIds. by rewrite List.filter_app, length_app. Qed.

Lemma missingIds_cons (fc : FunctionCall) (l : list FunctionCall) :
  missingIds (fc :: l) = missingIds [fc] + missingIds l.
Proof. apply (missingIds_app [fc] l). Qed.

Lemma decodeParts_fields (parts : list Part) (st : DecodeState) (n : nat) :
  let st' := (decodeParts parts st n).1 in
  contentBlocks st' = contentBlocks st ++ flat_map partBlocks parts
  /\ textContent st'
     = textContent st +:+ concatStrings (map partText parts)
  /\ toolCalls st'
     = toolCalls st ++
       imap (fun i fc =>
               toolCallOf fc (n + missingIds (take i (functionCalls parts))))
         (functionCalls parts)
  /\ (decodeParts parts st n).2 = n + missingIds (functionCalls parts).
Proof.
  revert st n; induction parts as [|part parts IH]; intros st n; simpl.
  - rewrite !app_nil_r, append_nil_r, Nat.add_0_r. done.
  - destruct (decodePart st part n) as [st1 n1] eqn:Hpart.
    pose proof (decodePart_fields st part n) as (Hb & Ht & Hc & Hn).
    rewrite Hpart in Hb, Ht, Hc, Hn. simpl in Hb, Ht, Hc, Hn.
    destruct (IH st1 n1) as (Hb' & Ht' & Hc' & Hn').
    rewrite Hb', Ht', Hc', Hn', Hb, Ht, Hc, Hn.
    rewrite <- !app_assoc, append_assoc.
    split; [done |]. split; [done |].
    unfold functionCalls. simpl.
    destruct (p_functionCall part) as [fc|]; simpl.
    + split;
        [| rewrite (missingIds_cons fc (omap p_functionCall parts)); lia].
      change (missingIds []) with 0. rewrite Nat.add_0_r.
      do 2 f_equal. apply imap_ext. intros i fc' _. simpl.
      f_equal.
      rewrite (missingIds_cons fc (take i (omap p_functionCall parts))). lia.
    + change (missingIds []) with 0. rewrite Nat.add_0_r. done.
Qed.

(** What a successful full decode returns, in terms of the parts of the
    first candidate. *)
Lemma convertGoogleResponseToChatGeneration_Ok
    (response : GenerateContentResponse) (n n' : nat) (gen : ChatGeneration) :
  convertGoogleResponseToChatGeneration response n = Ok (gen, n') ->
  let parts := responseParts response in
  g_text gen = concatStrings (map partText parts)
  /\ msg_content (g_message gen)
     = (if hasReasoning (flat_map partBlocks parts)
        then CBlocks (flat_map partBlocks parts)
        else CString (concatStrings (map partText parts)))
  /\ msg_tool_calls (g_message gen)
     = imap (fun i fc =>
               toolCallOf fc (n + missingIds (take i (functionCalls parts))))
         (functionCalls parts)
  /\ n' = n + missingIds (functionCalls parts).
Proof.
  unfold convertGoogleResponseToChatGeneration, responseParts.
  destruct (firstCandidate response) as [candidate|]; [| discriminate].
  destruct (cand_content candidate) as [content|]; [| discriminate].
  set (st0 := mkDecodeState "" [] [] _).
  pose proof (decodeParts_fields (default [] (c_parts content)) st0 n)
    as (Hb & Ht & Hc & Hn).
  destruct (decodeParts (default [] (c_parts content)) st0 n) as [st n1].
  simpl in Hb, Ht, Hc, Hn. rewrite append_nil_l in Ht.
  intros [= <- <-]. simpl.
  by rewrite Hb, Ht, Hc, Hn.
Qed.

Lemma decodeOutputs_fields (outputs : list Output) (st : DecodeState) :
  let st' := fold_left decodeOutput outputs st in
  contentBlocks st' = contentBlocks st ++ flat_map outputBlocks outputs
  /\ textContent st'
     = textContent st +:+ concatStrings (map outputText outputs)
  /\ toolCalls st' = toolCalls st ++ flat_map outputToolCalls outputs.
Proof.
  revert st; induction outputs as [|output outputs IH]; intros st; simpl.
  - by rewrite !app_nil_r, append_nil_r.
  - destruct (IH (decodeOutput st output)) as (Hb & Ht & Hc).
    rewrite Hb, Ht, Hc.
    destruct output as [text|mime data|id name args|sig [[|s ss]|]|payload|type];
      simpl; rewrite <- ?app_assoc, ?append_assoc; done.
Qed.

Lemma convertInteractionToChatGeneration_fields (response : Interaction)
    (usage : option UsageMetadata) :
  let outputs := default [] (i_outputs response) in
  let blocks := flat_map outputBlocks outputs in
  let text := concatStrings (map outputText outputs) in
  exists gen,
    convertInteractionToChatGeneration response usage = [gen]
    /\ g_text gen = text
    /\ msg_content (g_message gen)
       = (if isOnlyText blocks && bool_decide (text <> "")
          then CString text
          else if bool_decide (blocks <> []) then CBlocks blocks
          else CString text)
    /\ msg_tool_calls (g_message gen) = flat_map outputToolCalls outputs.
Proof.
  intros outputs blocks text. unfold convertInteractionToChatGeneration.
  pose proof (decodeOutputs_fields outputs (mkDecodeState "" [] [] ∅))
    as (Hb & Ht & Hc).
  fold outputs. simpl in Hb, Ht, Hc. rewrite append_nil_l in Ht.
  rewrite Hb, Ht, Hc.
  fold blocks text. eexists. split; [reflexivity |]. simpl.
  split; [done |]. split; [| done].
  destruct (isOnlyText blocks && bool_decide (text <> "")) eqn:Hflat; simpl.
  - apply andb_true_iff in Hflat as [_ Htext]. by rewrite Htext.
  - done.
Qed.

(** ** Shape of the decoded content *)

Lemma hasReasoning_partBlocks (parts : list Part) :
  hasReasoning (flat_map partBlocks parts) = true <->
  Exists (fun part => truthy (p_text part) = true /\ p_thought part = true)
    parts.
Proof.
  unfold hasReasoning. induction parts as [|part parts IH]; simpl.
  - split; [discriminate | by inversion 1].
  - rewrite existsb_app, orb_true_iff, IH, Exists_cons.
    unfold partBlocks.
    destruct (truthy (p_text part)), (p_thought part); simpl;
      intuition (discriminate || auto).
Qed.

Lemma outputBlocks_nil_text (outputs : list Output) :
  flat_map outputBlocks outputs = [] ->
  concatStrings (map outputText outputs) = "".
Proof.
  induction outputs as [|output outputs IH]; [done |]. simpl.
  intros [Hhead Htail]%app_eq_nil. rewrite (IH Htail).
  destruct output; try discriminate; done.
Qed.

(** C7, as the code has it.  Standard decoder: the content of the message
    is a plain string, the concatenated standard text, exactly when no
    reasoning block was produced, that is when no part is thought-marked
    with a non-empty text; otherwise it is the full sequence of blocks.
    Interactions decoder: the content is a plain string when every block
    produced is a text block and the concatenated text is not empty, or
    when no block was produced at all; in every other case, also without
    any reasoning block, it is the sequence of blocks. *)
Theorem C7_content_shape :
  (forall response n gen n',
     convertGoogleResponseToChatGeneration response n = Ok (gen, n') ->
     let parts := responseParts response in
     let blocks := flat_map partBlocks parts in
     (hasReasoning blocks = false ->
        msg_content (g_message gen)
        = CString (concatStrings (map partText parts)))
     /\ (hasReasoning blocks = true ->
           msg_content (g_message gen) = CBlocks blocks)
     /\ (hasReasoning blocks = true <->
         Exists (fun part => truthy (p_text part) = true
                             /\ p_thought part = true) parts))
  /\ (forall response usage,
        let outputs := default [] (i_outputs response) in
        let blocks := flat_map outputBlocks outputs in
        let text := concatStrings (map outputText outputs) in
        exists gen,
          convertInteractionToChatGeneration response usage = [gen]
          /\ ((isOnlyText blocks = true /\ text <> "") \/ blocks = [] ->
                msg_content (g_message gen) = CString text)
          /\ (~ ((isOnlyText blocks = true /\ text <> "") \/ blocks = []) ->
                msg_content (g_message gen) = CBlocks blocks)).
Proof.
  split.
  - intros response n gen n' Hgen parts blocks.
    apply convertGoogleResponseToChatGeneration_Ok in Hgen
      as (_ & Hcontent & _).
    fold parts blocks in Hcontent. rewrite Hcontent.
    split; [by intros -> |]. split; [by intros -> |].
    apply hasReasoning_partBlocks.
  - intros response usage outputs blocks text.
    destruct (convertInteractionToChatGeneration_fields response usage)
      as (gen & Hgen & _ & Hcontent & _).
    fold outputs blocks text in Hcontent.
    exists gen. split; [done |]. rewrite Hcontent. clear Hcontent. split.
    + intros [[Honly Htext] | Hnil].
      * by rewrite Honly, bool_decide_eq_true_2.
      * pose proof (outputBlocks_nil_text outputs Hnil) as Hempty.
        fold text in Hempty. rewrite Hnil, Hempty. reflexivity.
    + intros Hnot.
      destruct (isOnlyText blocks) eqn:Honly; simpl.
      * case_bool_decide as Htext; [exfalso; apply Hnot; by left |].
        case_bool_decide as Hblocks; [done |].
        exfalso. apply Hnot. right. exact Hblocks.
      * case_bool_decide as Hblocks; [done |].
        exfalso. apply Hnot. right. exact Hblocks.
Qed.

Lemma C7_content_shape_witness :
  (exists gen n',
     convertGoogleResponseToChatGeneration thinking_response 0 = Ok (gen, n')
     /\ msg_content (g_message gen)
        = CBlocks [reasoning_block "plan" None; text_block "answer"])
  /\ exists gen,
       convertInteractionToChatGeneration image_interaction None = [gen]
       /\ msg_content (g_message gen)
          = CBlocks [image_url_block "data:image/png;base64,QUJD"].
Proof.
  destruct C7_content_shape as [Hstd Hint]. split.
  - destruct (convertGoogleResponseToChatGeneration thinking_response 0)
      as [[gen n']|e] eqn:Hgen; [| discriminate].
    exists gen, n'. split; [reflexivity |].
    destruct (Hstd thinking_response 0 gen n' Hgen) as (_ & Hblocks & _).
    apply Hblocks. reflexivity.
  - destruct (Hint image_interaction None) as (gen & Hgen & _ & Hblocks).
    exists gen. split; [exact Hgen |]. apply Hblocks.
    intros [[Honly _] | Hnil]; discriminate.
Defined.

(** C7, counterexample: an interaction whose only output is an image is
    decoded to a block sequence although no reasoning block was produced. *)
Lemma C7_interactions_blocks_without_reasoning :
  convertInteractionToChatGeneration image_interaction None
  = [mkGeneration ""
       (AIMessage (CBlocks [image_url_block "data:image/png;base64,QUJD"])
          [] ∅ None)
       (mkGenerationInfo None None)]
  /\ hasReasoning [image_url_block "data:image/png;base64,QUJD"] = false.
Proof. split; vm_compute; reflexivity. Qed.

(** ** Identifiers of decoded function calls *)

Lemma uuid_of_inj (a b : nat) : uuid_of a = uuid_of b -> a = b.
Proof.
  unfold uuid_of. intros H%(inj (String.append "uuid-")).
  by apply (inj pretty) in H.
Qed.

Lemma missingIds_take_le (fcs : list FunctionCall) (i : nat) :
  missingIds (take i fcs) <= missingIds fcs.
Proof.
  rewrite <- (take_drop i fcs) at 2. rewrite missingIds_app. lia.
Qed.

Lemma missingIds_take_S (fcs : list FunctionCall) (i : nat)
    (fc : FunctionCall) :
  fcs !! i = Some fc -> fc_id fc = None ->
  missingIds (take (S i) fcs) = S (missingIds (take i fcs)).
Proof.
  intros Hi Hid. rewrite (take_S_r _ _ _ Hi), missingIds_app.
  unfold missingIds at 2. simpl. rewrite bool_decide_eq_true_2 by done.
  simpl. lia.
Qed.

Lemma missingIds_take_lt (fcs : list FunctionCall) (i j : nat)
    (fc : FunctionCall) :
  i < j -> fcs !! i = Some fc -> fc_id fc = None ->
  missingIds (take i fcs) < missingIds (take j fcs).
Proof.
  intros Hij Hi Hid.
  pose proof (missingIds_take_S fcs i fc Hi Hid) as HS.
  pose proof (missingIds_take_le (take j fcs) (S i)) as Hle.
  rewrite take_take in Hle. replace (S i `min` j) with (S i) in Hle by lia.
  lia.
Qed.

(** C6, as the code has it.  Standard full-response decoder: there is one
    tool call per function call; it keeps the identifier that the server
    sent, and a call that came without one gets an identifier drawn from the
    supply at that moment, different from every other one drawn for the
    response.  Standard stream decoder: the tool-call chunk of a
    function-call part carries the server identifier, or else the next
    identifier of the supply.  Interactions decoder: the identifier of the
    output is handed on as it is, and none is generated when it is
    missing. *)
Theorem C6_function_call_ids :
  (forall response n gen n',
     convertGoogleResponseToChatGeneration response n = Ok (gen, n') ->
     let fcs := functionCalls (responseParts response) in
     let tcs := msg_tool_calls (g_message gen) in
     length tcs = length fcs
     /\ (forall i fc tc, fcs !! i = Some fc -> tcs !! i = Some tc ->
           (forall id, fc_id fc = Some id -> tc_id tc = Some id)
           /\ (fc_id fc = None ->
               exists k, n <= k < n' /\ tc_id tc = Some (uuid_of k)))
     /\ (forall i j fi fj ti tj,
           i <> j -> fcs !! i = Some fi -> fcs !! j = Some fj ->
           fc_id fi = None -> fc_id fj = None ->
           tcs !! i = Some ti -> tcs !! j = Some tj ->
           tc_id ti <> tc_id tj))
  /\ (forall part index n fc,
        p_text part = None -> p_functionCall part = Some fc ->
        exists chunk,
          ch_tool_call_chunks (convertPartToChunk part index n).1 = [chunk]
          /\ tcc_id chunk = Some (default (uuid_of n) (fc_id fc))
          /\ (convertPartToChunk part index n).2
             = match fc_id fc with Some _ => n | None => S n end)
  /\ (forall response usage,
        exists gen,
          convertInteractionToChatGeneration response usage = [gen]
          /\ msg_tool_calls (g_message gen)
             = flat_map outputToolCalls (default [] (i_outputs response))).
Proof.
  split; [| split].
  - intros response n gen n' Hgen fcs tcs.
    apply convertGoogleResponseToChatGeneration_Ok in Hgen
      as (_ & _ & Htcs & ->).
    fold fcs in Htcs |- *. fold tcs in Htcs.
    assert (Hlookup : forall i fc tc,
              fcs !! i = Some fc -> tcs !! i = Some tc ->
              tc = toolCallOf fc (n + missingIds (take i fcs))).
    { intros i fc tc Hfc Htc. rewrite Htcs, list_lookup_imap, Hfc in Htc.
      by injection Htc as <-. }
    split; [by rewrite Htcs, length_imap |]. split.
    + intros i fc tc Hfc Htc. rewrite (Hlookup i fc tc Hfc Htc).
      unfold toolCallOf. simpl. split; [by intros id -> |].
      intros Hid. rewrite Hid. simpl.
      exists (n + missingIds (take i fcs)). split; [| done].
      pose proof (missingIds_take_S fcs i fc Hfc Hid).
      pose proof (missingIds_take_le fcs (S i)). lia.
    + intros i j fi fj ti tj Hij Hfi Hfj Hidi Hidj Hti Htj.
      rewrite (Hlookup i fi ti Hfi Hti), (Hlookup j fj tj Hfj Htj).
      unfold toolCallOf. simpl. rewrite Hidi, Hidj. simpl.
      intros Heq. apply (inj Some) in Heq. apply uuid_of_inj in Heq.
      destruct (decide (i < j)).
      * pose proof (missingIds_take_lt fcs i j fi ltac:(lia) Hfi Hidi). lia.
      * pose proof (missingIds_take_lt fcs j i fj ltac:(lia) Hfj Hidj). lia.
  - intros part index n fc Htext Hfc.
    unfold convertPartToChunk, convertFunctionCallToToolCallChunk, idOrUuid.
    rewrite Htext, Hfc. destruct (fc_id fc); simpl; by eexists.
  - intros response usage.
    destruct (convertInteractionToChatGeneration_fields response usage)
      as (gen & Hgen & _ & _ & Htcs).
    by exists gen.
Qed.

Lemma C6_function_call_ids_witness :
  exists gen n',
    convertGoogleResponseToChatGeneration tool_call_response 0 = Ok (gen, n')
    /\ length (msg_tool_calls (g_message gen)) = 1
    /\ exists chunk,
         ch_tool_call_chunks
           (convertPartToChunk (functionCall_part call_without_id) 0 0).1
         = [chunk]
         /\ tcc_id chunk = Some (uuid_of 0).
Proof.
  destruct C6_function_call_ids as (Hfull & Hstream & _).
  destruct (convertGoogleResponseToChatGeneration tool_call_response 0)
    as [[gen n']|e] eqn:Hgen; [| discriminate].
  exists gen, n'. split; [reflexivity |].
  destruct (Hfull tool_call_response 0 gen n' Hgen) as (Hlen & _ & _).
  split; [exact Hlen |].
  destruct (Hstream (functionCall_part call_without_id) 0 0 call_without_id
              eq_refl eq_refl) as (chunk & Hchunk & Hid & _).
  exists chunk. split; [exact Hchunk | exact Hid].
Defined.

(** C6, counterexample: a function-call output of an interaction that
    carries no identifier is decoded to a tool call without identifier. *)
Lemma C6_interactions_id_not_generated :
  convertInteractionToChatGeneration
    (mkInteraction None None None
       (Some [OFunctionCall None "get_weather" "{}"]) None) None
  = [mkGeneration ""
       (AIMessage (CString "") [mkToolCall "get_weather" "{}" None] ∅ None)
       (mkGenerationInfo None None)].
Proof. vm_compute. reflexivity. Qed.

(** ** The text of a stream chunk *)

Lemma chunkText_blocks (blocks : list ContentBlock) :
  chunkText (CBlocks blocks) = blocksText blocks.
Proof. apply join_empty. Qed.

Lemma blocksText_app (l1 l2 : list ContentBlock) :
  blocksText (l1 ++ l2) = blocksText l1 +:+ blocksText l2.
Proof.
  unfold blocksText. by rewrite List.filter_app, map_app, concatStrings_app.
Qed.

Lemma blocksText_not_text (b : ContentBlock) :
  b_type b <> "text" -> blocksText [b] = "".
Proof.
  intros Hb. unfold blocksText, isTextBlock. simpl.
  by rewrite bool_decide_eq_false_2.
Qed.

Lemma blocksText_insert (blocks : list ContentBlock) (k : nat)
    (old new : ContentBlock) :
  blocks !! k = Some old -> b_type old <> "text" -> b_type new <> "text" ->
  blocksText (<[k := new]> blocks) = blocksText blocks.
Proof.
  intros Hk Hold Hnew.
  rewrite insert_take_drop by (by eapply lookup_lt_Some).
  rewrite <- (take_drop_middle blocks k old Hk) at 3.
  rewrite !blocksText_app.
  change (new :: drop (S k) blocks) with ([new] ++ drop (S k) blocks).
  change (old :: drop (S k) blocks) with ([old] ++ drop (S k) blocks).
  by rewrite !blocksText_app, !blocksText_not_text.
Qed.

Lemma mergeItem_text (merged : list ContentBlock) (item : ContentBlock) :
  indexedNotText (CBlocks merged) -> indexedNotText (CBlocks [item]) ->
  blocksText (mergeItem b_index merge_block merged item)
  = blocksText merged +:+ blocksText [item]
  /\ indexedNotText (CBlocks (mergeItem b_index merge_block merged item)).
Proof.
  simpl. intros Hmerged Hitem. rewrite Forall_singleton in Hitem.
  unfold mergeItem. destruct (b_index item) as [i|] eqn:Hindex.
  - assert (Htype : b_type item <> "text") by (apply Hitem; by eexists).
    rewrite (blocksText_not_text item Htype), append_nil_r.
    destruct (list_find _ merged) as [[k leftItem]|] eqn:Hfind.
    + apply list_find_Some in Hfind as (Hk & Hleft & _).
      assert (Hltype : b_type leftItem <> "text").
      { eapply (proj1 (Forall_lookup _ _) Hmerged); [done | by eexists]. }
      split; [by eapply blocksText_insert |].
      apply Forall_insert; [done |]. intros _. exact Hltype.
    + split.
      * rewrite blocksText_app, (blocksText_not_text item Htype).
        by rewrite append_nil_r.
      * apply Forall_app. split; [done |]. rewrite Forall_singleton.
        intros _. exact Htype.
  - split; [apply blocksText_app |].
    apply Forall_app. split; [done |]. rewrite Forall_singleton.
    rewrite Hindex. exact Hitem.
Qed.

Lemma mergeLists_text (ls rs : list ContentBlock) :
  indexedNotText (CBlocks ls) -> indexedNotText (CBlocks rs) ->
  blocksText (mergeLists b_index merge_block ls rs)
  = blocksText ls +:+ blocksText rs
  /\ indexedNotText (CBlocks (mergeLists b_index merge_block ls rs)).
Proof.
  unfold mergeLists. revert ls; induction rs as [|r rs IH]; intros ls Hls Hrs.
  - simpl. by rewrite append_nil_r.
  - simpl in Hrs. apply Forall_cons in Hrs as [Hr Hrs]. simpl.
    destruct (mergeItem_text ls r Hls) as [Htext Hinv];
      [simpl; by rewrite Forall_singleton |].
    destruct (IH _ Hinv Hrs) as [Htext' Hinv'].
    split; [| done]. rewrite Htext', Htext.
    change (r :: rs) with ([r] ++ rs).
    by rewrite blocksText_app, append_assoc.
Qed.

Lemma text_block_text (s : string) : blocksText [text_block s] = s.
Proof. unfold blocksText. simpl. apply append_nil_r. Qed.

(** Concatenation of chunks concatenates their texts. *)
Lemma mergeContent_text (first second : MessageContent) :
  indexedNotText first -> indexedNotText second ->
  chunkText (mergeContent first second)
  = chunkText first +:+ chunkText second
  /\ indexedNotText (mergeContent first second).
Proof.
  intros Hfirst Hsecond.
  destruct first as [a|ls], second as [b|rs]; unfold mergeContent.
  - case_bool_decide as Ha; [by subst | done].
  - case_bool_decide as Ha; [by subst |].
    rewrite !chunkText_blocks.
    change (text_block a :: rs) with ([text_block a] ++ rs).
    rewrite blocksText_app, text_block_text. split; [done |].
    simpl. apply Forall_cons. split; [by intros [? [=]] | done].
  - case_bool_decide as Hb; [subst; by rewrite append_nil_r |].
    rewrite !chunkText_blocks, blocksText_app, text_block_text.
    split; [done |]. simpl. apply Forall_app. split; [done |].
    rewrite Forall_singleton. by intros [? [=]].
  - rewrite !chunkText_blocks. by apply mergeLists_text.
Qed.

Lemma convertPartToChunk_text (part : Part) (index n : nat) :
  let chunk := (convertPartToChunk part index n).1 in
  chunkText (ch_content chunk) = streamPartText part
  /\ indexedNotText (ch_content chunk).
Proof.
  unfold convertPartToChunk, streamPartText.
  destruct (p_text part) as [text|], (p_thought part); simpl;
    try (destruct (p_functionCall part) as [fc|];
         [destruct (convertFunctionCallToToolCallChunk fc index n) |]);
    simpl; split; try done.
  all: rewrite Forall_singleton; intros _; discriminate.
Qed.

(** The text of the chunk that the reduction over the parts builds. *)
Lemma reduceParts_text (parts : list Part) (index : nat)
    (acc : option AIMessageChunk) (n : nat) :
  (forall a, acc = Some a -> indexedNotText (ch_content a)) ->
  match (reduceParts parts index acc n).1 with
  | Some chunk =>
      chunkText (ch_content chunk)
      = from_option (fun a => chunkText (ch_content a)) "" acc
        +:+ concatStrings (map streamPartText parts)
      /\ indexedNotText (ch_content chunk)
  | None => acc = None /\ parts = []
  end.
Proof.
  revert index acc n; induction parts as [|part parts IH];
    intros index acc n Hacc; simpl.
  - destruct acc as [a|]; [| done]. simpl.
    rewrite append_nil_r. split; [done | by apply Hacc].
  - destruct (convertPartToChunk part index n) as [nextChunk n1] eqn:Hnext.
    pose proof (convertPartToChunk_text part index n) as [Htext Hinv].
    rewrite Hnext in Htext, Hinv. simpl in Htext, Hinv.
    set (acc' := Some _).
    assert (Hacc' : forall a, acc' = Some a -> indexedNotText (ch_content a)).
    { intros ? [= <-]. destruct acc as [a|]; [| done].
      apply mergeContent_text; [by apply Hacc | done]. }
    specialize (IH (S index) acc' n1 Hacc').
    destruct (reduceParts parts (S index) acc' n1).1 as [chunk|];
      [| by destruct IH as [[=] _]].
    destruct IH as [-> Hchunk]. split; [| done].
    destruct acc as [a|]; simpl.
    + destruct (mergeContent_text (ch_content a) (ch_content nextChunk))
        as [-> _]; [by apply Hacc | done |].
      by rewrite Htext, append_assoc.
    + by rewrite Htext.
Qed.

Lemma streamPartText_filter (parts : list Part) :
  concatStrings (map streamPartText parts)
  = concatStrings
      (map (fun part => default "" (p_text part))
         (List.filter (fun part => negb (p_thought part)) parts)).
Proof.
  induction parts as [|part parts IH]; [done |]. simpl.
  unfold streamPartText at 1. destruct (p_thought part); simpl.
  - by rewrite append_nil_l.
  - by rewrite IH.
Qed.

(** C10.  The [text] of the generation chunk made from a stream chunk is the
    text of the plain text blocks of its content, and it is the texts of
    the parts that are not thought-marked, in order: the text of a
    thought-marked part is never in it. *)
Theorem C10_stream_chunk_text (response : GenerateContentResponse)
    (n n' : nat) (chunk : ChatGenerationChunk) :
  convertGoogleStreamChunkToLangChainChunk response n = (Some chunk, n') ->
  gc_text chunk = chunkText (ch_content (gc_message chunk))
  /\ gc_text chunk
     = concatStrings
         (map (fun part => default "" (p_text part))
            (List.filter (fun part => negb (p_thought part))
               (responseParts response))).
Proof.
  unfold convertGoogleStreamChunkToLangChainChunk, responseParts.
  destruct (firstCandidate response) as [candidate|].
  - destruct (cand_content candidate) as [content|]; simpl; [| discriminate].
    destruct (c_parts content) as [parts|]; simpl; [| discriminate].
    pose proof (reduceParts_text parts 0 None n) as Hred.
    destruct (reduceParts parts 0 None n) as [[reduced|] n1];
      [| discriminate].
    destruct Hred as [Htext _]; [discriminate |].
    simpl in Htext. rewrite append_nil_l in Htext.
    rewrite <- streamPartText_filter, <- Htext.
    intros [= <- <-]. by destruct (usageMetadata response).
  - destruct (usageMetadata response); [| discriminate].
    by intros [= <- <-].
Qed.

Lemma C10_stream_chunk_text_witness :
  exists chunk n',
    convertGoogleStreamChunkToLangChainChunk thinking_stream_chunk 0
    = (Some chunk, n')
    /\ ch_content (gc_message chunk)
       = CBlocks [reasoning_block "plan" (Some 0); text_block "an";
                  text_block "swer"]
    /\ gc_text chunk = "answer".
Proof.
  destruct (convertGoogleStreamChunkToLangChainChunk thinking_stream_chunk 0)
    as [[chunk|] n'] eqn:Hchunk; [| discriminate].
  exists chunk, n'. split; [reflexivity |].
  destruct (C10_stream_chunk_text thinking_stream_chunk 0 n' chunk Hchunk)
    as [_ Htext].
  split; [| exact Htext].
  injection Hchunk as <- _. reflexivity.
Defined.

(** ** Streamed against full decoding *)


Lemma mergeAll_app (l1 l2 : list string) :
  merge_opt_string (mergeAll l1) (mergeAll l2) = mergeAll (l1 ++ l2).
Proof.
  destruct l1 as [|a l1]; [done |].
  destruct l2 as [|b l2]; [by rewrite app_nil_r |].
  unfold mergeAll, merge_opt_string. simpl app.
  change (a :: l1 ++ b :: l2) with ((a :: l1) ++ (b :: l2)).
  by rewrite concatStrings_app.
Qed.

Lemma signatures_app (l1 l2 : list Part) :
  signatures (l1 ++ l2) = signatures l1 ++ signatures l2.
Proof. apply omap_app. Qed.









(** The full decoder keeps the signature of the last part that has one. *)
Lemma decodePart_signature (st : DecodeState) (part : Part) (n : nat) :
  string_at "thoughtSignature" (responseMetadata (decodePart st part n).1)
  = if truthy (p_thoughtSignature part) then p_thoughtSignature part
    else string_at "thoughtSignature" (responseMetadata st).
Proof.
  unfold decodePart, string_at, insert_some, idOrUuid.
  destruct (truthy (p_text part)), (p_thought part);
    destruct (p_functionCall part) as [[name args [id|]]|];
    destruct (p_executableCode part), (p_codeExecutionResult part);
    destruct (p_thoughtSignature part) as [sig|]; simpl;
    try case_bool_decide; simpl;
    rewrite ?lookup_insert_ne by done;
    rewrite ?lookup_insert_eq; done.
Qed.

Lemma decodeParts_signature (parts : list Part) (st : DecodeState) (n : nat) :
  string_at "thoughtSignature" (responseMetadata (decodeParts parts st n).1)
  = from_option Some (string_at "thoughtSignature" (responseMetadata st))
      (last (signatures parts)).
Proof.
  revert st n; induction parts as [|part parts IH]; intros st n; simpl;
    [done |].
  pose proof (decodePart_signature st part n) as Hpart.
  destruct (decodePart st part n) as [st1 n1]. simpl in Hpart.
  rewrite IH, Hpart. unfold signatures. simpl.
  fold (signatures parts).
  destruct (truthy (p_thoughtSignature part)) eqn:Hsig.
  - destruct (p_thoughtSignature part) as [sig|]; [| discriminate]. simpl.
    destruct (signatures parts) as [|a l]; [done |].
    change (last (sig :: a :: l)) with (last (a :: l)).
    destruct (last (a :: l)) eqn:Hlast; [done |].
    by apply last_None in Hlast.
  - done.
Qed.

Lemma convertGoogleResponseToChatGeneration_signature
    (response : GenerateContentResponse) (n n' : nat) (gen : ChatGeneration) :
  promptFeedback response !! "thoughtSignature" = None ->
  convertGoogleResponseToChatGeneration response n = Ok (gen, n') ->
  string_at "thoughtSignature" (msg_response_metadata (g_message gen))
  = last (signatures (responseParts response)).
Proof.
  intros Hfeedback.
  unfold convertGoogleResponseToChatGeneration, responseParts.
  destruct (firstCandidate response) as [candidate|]; [| discriminate].
  destruct (cand_content candidate) as [content|]; [| discriminate].
  set (st0 := mkDecodeState "" [] [] _).
  pose proof (decodeParts_signature (default [] (c_parts content)) st0 n)
    as Hsig.
  assert (Hinit : string_at "thoughtSignature" (responseMetadata st0) = None).
  { unfold string_at, st0, insert_some. simpl.
    rewrite lookup_union, Hfeedback.
    destruct (cand_finishReason candidate), (cand_index candidate); simpl;
      rewrite ?lookup_insert_ne by done; by rewrite lookup_empty. }
  rewrite Hinit in Hsig.
  destruct (decodeParts (default [] (c_parts content)) st0 n) as [st n1].
  simpl in Hsig. intros [= <- <-]. simpl. rewrite Hsig.
  by destruct (last _).
Qed.




(** * Further properties of the sources *)

(** ** The standard encoder *)





Lemma chatMessagesOf_idemp (messages : list BaseMessage) :
  chatMessagesOf (chatMessagesOf messages) = chatMessagesOf messages.
Proof.
  unfold chatMessagesOf. induction messages as [|m messages IH]; [done |].
  simpl. destruct (isSystemMessage m) eqn:Hm; simpl; [done |].
  by rewrite Hm, IH.
Qed.

Lemma systemMessages_of_chat (messages : list BaseMessage) :
  List.filter isSystemMessage (chatMessagesOf messages) = [].
Proof.
  unfold chatMessagesOf. induction messages as [|m messages IH]; [done |].
  simpl. destruct (isSystemMessage m) eqn:Hm; simpl; [done |].
  by rewrite Hm.
Qed.

Lemma systemMessages_idemp (messages : list BaseMessage) :
  List.filter isSystemMessage (List.filter isSystemMessage messages)
  = List.filter isSystemMessage messages
  /\ chatMessagesOf (List.filter isSystemMessage messages) = [].
Proof.
  unfold chatMessagesOf. induction messages as [|m messages [IH1 IH2]];
    [done |].
  simpl. destruct (isSystemMessage m) eqn:Hm; simpl; [| done].
  by rewrite Hm, IH1.
Qed.

(** X2.  The standard payload splits along the system messages: the
    contents are those of the other messages alone, so that a system message
    between two messages of one role does not keep them from being merged,
    and the system instruction is that of the system messages alone. *)
Theorem standard_payload_splits (messages : list BaseMessage)
    (payload : GooglePayload) :
  convertMessagesToGooglePayload messages = Ok payload ->
  convertMessagesToGooglePayload (chatMessagesOf messages)
  = Ok (mkGooglePayload (contents payload) None)
  /\ convertMessagesToGooglePayload (List.filter isSystemMessage messages)
     = Ok (mkGooglePayload [] (systemInstruction payload)).
Proof.
  unfold convertMessagesToGooglePayload. intros Hp.
  apply bind_Ok in Hp as (instr & Hinstr & (cs & Hcs & [= <-])%bind_Ok).
  simpl. split.
  - rewrite systemMessages_of_chat. simpl.
    fold (chatMessagesOf (chatMessagesOf messages)).
    rewrite chatMessagesOf_idemp. fold (chatMessagesOf messages) in Hcs.
    by rewrite Hcs.
  - destruct (systemMessages_idemp messages) as [-> Hchat].
    rewrite Hinstr. simpl.
    fold (chatMessagesOf (List.filter isSystemMessage messages)).
    by rewrite Hchat.
Qed.

Lemma standard_payload_splits_witness :
  convertMessagesToGooglePayload split_conversation
  = Ok (mkGooglePayload
          [mkContent "user" (Some [text_part "a"; text_part "b"])]
          (Some (mkContent "system" (Some [text_part "be brief"]))))
  /\ convertMessagesToGooglePayload (chatMessagesOf split_conversation)
     = Ok (mkGooglePayload
             [mkContent "user" (Some [text_part "a"; text_part "b"])] None).
Proof.
  assert (Hp : convertMessagesToGooglePayload split_conversation
               = Ok (mkGooglePayload
                       [mkContent "user" (Some [text_part "a"; text_part "b"])]
                       (Some (mkContent "system"
                                (Some [text_part "be brief"])))))
    by reflexivity.
  split; [exact Hp |].
  exact (proj1 (standard_payload_splits _ _ Hp)).
Defined.

Lemma convertBlockToPart_fields (b : ContentBlock) (p : Part) :
  convertBlockToPart b = Ok p ->
  p_functionCall p = None /\ p_functionResponse p = None
  /\ p_thoughtSignature p = None.
Proof.
  unfold convertBlockToPart.
  destruct (_ && _); [by intros [= <-] |].
  destruct (_ && _); [by intros [= <-] |].
  destruct (_ && _); [| discriminate].
  destruct (match b_image_url b with
            | Some (UrlString url) => Ok url
            | Some (UrlObject (Some url)) => Ok url
            | _ => Throw (InvalidImageUrlError "Invalid image_url block format")
            end) as [url|e]; simpl; [| discriminate].
  destruct (startsWith "data:" url).
  - destruct (parseBase64Data url) as [md|e]; simpl; [| discriminate].
    by intros [= <-].
  - destruct (_ || _); [by intros [= <-] | discriminate].
Qed.

Lemma convertContentToParts_fields (content : MessageContent)
    (parts : list Part) :
  convertContentToParts content = Ok parts ->
  Forall (fun p => p_functionCall p = None /\ p_functionResponse p = None
                   /\ p_thoughtSignature p = None) parts.
Proof.
  destruct content as [s|blocks]; simpl.
  - case_bool_decide; intros [= <-]; by repeat constructor.
  - intros H%map_throwing_Ok.
    induction H as [|b p blocks parts Hb _ IH]; constructor; [| done].
    by eapply convertBlockToPart_fields.
Qed.

Lemma reinjectThoughtSignature_Forall (m : BaseMessage) (parts : list Part)
    (P : Part -> Prop) :
  (forall s p, P p -> P (set_thoughtSignature s p)) ->
  (forall s, P (set_thoughtSignature s (text_part ""))) ->
  Forall P parts -> Forall P (reinjectThoughtSignature m parts).
Proof.
  intros Hset Hempty Hparts. unfold reinjectThoughtSignature.
  destruct m; try done.
  destruct (string_at "thoughtSignature" response_metadata) as [s|]; [| done].
  destruct (last parts) as [lastPart|] eqn:Hlast.
  - apply Forall_insert; [done |]. apply Hset.
    apply last_Some in Hlast as [front ->].
    apply Forall_app in Hparts as [_ Hlast].
    by rewrite Forall_singleton in Hlast.
  - apply Forall_app. split; [done |]. rewrite Forall_singleton. apply Hempty.
Qed.

Lemma messageParts_function_calls (m : BaseMessage) (parts : list Part) :
  messageParts m = Ok parts ->
  Forall (fun p => forall fc, p_functionCall p = Some fc -> fc_id fc = None)
    parts.
Proof.
  unfold messageParts. intros (cps & Hcps & [= <-])%bind_Ok.
  apply reinjectThoughtSignature_Forall; [done | done |].
  apply Forall_app. split.
  - eapply Forall_impl; [by eapply convertContentToParts_fields |].
    intros p (Hfc & _) fc. by rewrite Hfc.
  - apply Forall_app. split.
    + destruct m; try by constructor.
      apply Forall_forall. intros p Hp%list_elem_of_In.
      apply in_map_iff in Hp as (tc & <- & _). by intros fc [= <-].
    + destruct m; by repeat constructor.
Qed.

Lemma Forall_concat {A : Type} (P : A -> Prop) (ls : list (list A)) :
  Forall (Forall P) ls -> Forall P (List.concat ls).
Proof.
  induction 1 as [|l ls Hl _ IH]; simpl; [constructor |]. by apply Forall_app.
Qed.

Lemma payload_parts_Forall (messages : list BaseMessage)
    (payload : GooglePayload) (P : Part -> Prop) :
  (forall m parts, messageParts m = Ok parts -> Forall P parts) ->
  convertMessagesToGooglePayload messages = Ok payload ->
  Forall P (allParts (contents payload)).
Proof.
  intros HP Hp%convertMessagesToGooglePayload_contents.
  apply processChatMessages_spec in Hp as (_ & pss & Hpss & ->);
    [| apply adjacentDistinct_nil].
  simpl. apply Forall_concat. apply map_throwing_Ok in Hpss.
  induction Hpss as [|m ps ms pss Hm _ IH]; constructor; [| done].
  by eapply HP.
Qed.

(** X3.  The standard encoder never sends the identifier of a tool call:
    every function-call part of a payload is built from the name and the
    arguments alone. *)
Theorem standard_payload_drops_tool_call_ids (messages : list BaseMessage)
    (payload : GooglePayload) :
  convertMessagesToGooglePayload messages = Ok payload ->
  Forall (fun p => forall fc, p_functionCall p = Some fc -> fc_id fc = None)
    (allParts (contents payload)).
Proof. apply payload_parts_Forall. apply messageParts_function_calls. Qed.

Lemma standard_payload_drops_tool_call_ids_witness :
  exists payload,
    convertMessagesToGooglePayload tool_conversation = Ok payload
    /\ tc_id weather_call = Some "call-1"
    /\ Forall (fun p => forall fc, p_functionCall p = Some fc ->
                                   fc_id fc = None)
         (allParts (contents payload)).
Proof.
  destruct (convertMessagesToGooglePayload tool_conversation)
    as [payload|e] eqn:Hp; [| discriminate].
  exists payload. split; [reflexivity |]. split; [reflexivity |].
  exact (standard_payload_drops_tool_call_ids _ _ Hp).
Defined.

Lemma messageParts_stringContent (m : BaseMessage) :
  stringContent m -> is_Ok (messageParts m).
Proof.
  intros [s Hs]. unfold messageParts. rewrite Hs. simpl.
  case_bool_decide; apply is_Ok_Ok.
Qed.

Lemma processChatMessages_stringContent (msgs : list BaseMessage)
    (cs : list Content) :
  Forall stringContent msgs -> is_Ok (processChatMessages msgs cs).
Proof.
  intros Hmsgs. revert cs.
  induction Hmsgs as [|m msgs Hm _ IH]; intros cs; simpl; [apply is_Ok_Ok |].
  destruct (messageParts_stringContent m Hm) as [ps ->]. simpl. apply IH.
Qed.

Lemma flatMap_throwing_stringContent (msgs : list BaseMessage) :
  Forall stringContent msgs ->
  is_Ok (flatMap_throwing
           (fun msg => convertContentToParts (msg_content msg)) msgs).
Proof.
  induction 1 as [|m msgs [s Hs] _ [zs IH]]; simpl; [apply is_Ok_Ok |].
  rewrite Hs, IH. simpl. case_bool_decide; apply is_Ok_Ok.
Qed.

Lemma Forall_filter {A : Type} (P : A -> Prop) (f : A -> bool) (l : list A) :
  Forall P l -> Forall P (List.filter f l).
Proof.
  induction 1 as [|x l Hx _ IH]; simpl; [constructor |].
  destruct (f x); [by constructor | done].
Qed.

Lemma convertMessageToGoogleTurn_stringContent (m : BaseMessage) :
  stringContent m -> isOtherMessage m = false ->
  is_Ok (convertMessageToGoogleTurn m).
Proof.
  intros [s Hs] Hother. destruct m; try discriminate; simpl in Hs; subst;
    simpl; apply is_Ok_Ok.
Qed.

Lemma interactionLoop_stringContent (messages : list BaseMessage)
    (acc : InteractionPayload) :
  Forall stringContent messages ->
  Forall (fun m => isOtherMessage m = false) messages ->
  is_Ok (interactionLoop messages acc).
Proof.
  intros Hs. revert acc.
  induction Hs as [|m messages Hm _ IH]; intros acc Hother;
    [apply is_Ok_Ok |].
  apply Forall_cons in Hother as [Hmo Hother].
  destruct (isSystemMessage m) eqn:Hsys.
  - destruct m; try discriminate. simpl. by apply IH.
  - rewrite interactionLoop_cons by done.
    destruct (convertMessageToGoogleTurn_stringContent m Hm Hmo) as [t ->].
    simpl. by apply IH.
Qed.

Lemma interactionLoop_unsupported (pre post : list BaseMessage)
    (type : string) (content : MessageContent) (acc : InteractionPayload) :
  Forall stringContent pre ->
  Forall (fun m => isOtherMessage m = false) pre ->
  interactionLoop (pre ++ OtherMessage type content :: post) acc
  = Throw (UnsupportedMessageTypeError type).
Proof.
  intros Hs. revert acc.
  induction Hs as [|m pre Hm _ IH]; intros acc Hother; [done |].
  apply Forall_cons in Hother as [Hmo Hother].
  destruct (isSystemMessage m) eqn:Hsys.
  - destruct m; try discriminate. simpl. by apply IH.
  - change ((m :: pre) ++ OtherMessage type content :: post)
      with (m :: (pre ++ OtherMessage type content :: post)).
    rewrite interactionLoop_cons by done.
    destruct (convertMessageToGoogleTurn_stringContent m Hm Hmo) as [t ->].
    simpl. by apply IH.
Qed.

(** X4.  A conversation whose messages all have a plain string as content
    is always encoded by the standard encoder, whatever the kinds of its
    messages: a message of an unknown kind goes under [user].  The
    interactions encoder encodes it when no message is of an unknown kind,
    and otherwise throws the unsupported-message error naming the type of
    the first such message. *)
Theorem text_conversations_encode (messages : list BaseMessage) :
  Forall stringContent messages ->
  is_Ok (convertMessagesToGooglePayload messages)
  /\ (Forall (fun m => isOtherMessage m = false) messages ->
      is_Ok (convertMessagesToGoogleInteractionPayload messages))
  /\ (forall pre type content post,
        messages = pre ++ OtherMessage type content :: post ->
        Forall (fun m => isOtherMessage m = false) pre ->
        convertMessagesToGoogleInteractionPayload messages
        = Throw (UnsupportedMessageTypeError type)).
Proof.
  intros Hs. split; [| split].
  - unfold convertMessagesToGooglePayload.
    destruct (flatMap_throwing_stringContent
                (List.filter isSystemMessage messages)) as [sp Hsp];
      [by apply Forall_filter |].
    destruct (processChatMessages_stringContent
                (List.filter (fun msg => negb (isSystemMessage msg)) messages)
                []) as [cs Hcs]; [by apply Forall_filter |].
    rewrite Hsp, Hcs. case_bool_decide; simpl; apply is_Ok_Ok.
  - intros Hother. by apply interactionLoop_stringContent.
  - intros pre type content post -> Hother.
    apply interactionLoop_unsupported; [| done].
    by apply Forall_app in Hs as [Hpre _].
Qed.

Lemma text_conversations_encode_witness :
  let messages :=
    [HumanMessage (CString "hi"); OtherMessage "function" (CString "f")] in
  Forall stringContent messages
  /\ is_Ok (convertMessagesToGooglePayload messages)
  /\ convertMessagesToGoogleInteractionPayload messages
     = Throw (UnsupportedMessageTypeError "function").
Proof.
  intros messages.
  assert (Hs : Forall stringContent messages)
    by (repeat constructor; by eexists).
  destruct (text_conversations_encode messages Hs) as (Hstd & _ & Hint).
  split; [exact Hs |]. split; [exact Hstd |].
  apply (Hint [HumanMessage (CString "hi")] "function" (CString "f") []);
    [reflexivity | by repeat constructor].
Defined.

(** ** Images *)



(** X6.  An image URL that does not start with [data:]: the standard codec
    takes it as a file reference of the fixed media type [image/jpeg] when
    it starts with [gs://] or [https://], and otherwise throws the
    unsupported-block error for [image_url]; the interactions codec sends
    it as the [uri] of an image item whatever the scheme. *)
Theorem image_reference_urls (b : ContentBlock) (url : string) :
  b_type b = "image_url" -> block_url b = Some url -> url <> "" ->
  startsWith "data:" url = false ->
  convertBlockToPart b
  = (if startsWith "gs://" url || startsWith "https://" url
     then Ok (fileData_part "image/jpeg" url)
     else Throw (UnsupportedBlockError "image_url"))
  /\ formatBlock b = Ok (Some (ImageContent None None (Some url))).
Proof.
  intros Htype Hurl Hne Hdata.
  unfold convertBlockToPart, formatBlock, block_url in *.
  rewrite Htype. simpl.
  destruct (b_image_url b) as [[u|[u|]]|]; simplify_eq; simpl;
    rewrite ?bool_decide_eq_true_2 by done; simpl; by rewrite Hdata.
Qed.

Lemma image_reference_urls_witness :
  convertBlockToPart (image_url_block "http://x/y.png")
  = Throw (UnsupportedBlockError "image_url")
  /\ formatBlock (image_url_block "http://x/y.png")
     = Ok (Some (ImageContent None None (Some "http://x/y.png")))
  /\ convertBlockToPart (image_url_block "gs://bucket/y.png")
     = Ok (fileData_part "image/jpeg" "gs://bucket/y.png").
Proof.
  destruct (image_reference_urls (image_url_block "http://x/y.png")
              "http://x/y.png" eq_refl eq_refl) as [Hstd Hint];
    [discriminate | reflexivity |].
  destruct (image_reference_urls (image_url_block "gs://bucket/y.png")
              "gs://bucket/y.png" eq_refl eq_refl) as [Hgs _];
    [discriminate | reflexivity |].
  split; [exact Hstd |]. split; [exact Hint | exact Hgs].
Defined.


(** ** Decoding, encoding and decoding again *)

Lemma convertGoogleResponseToChatGeneration_AIMessage
    (response : GenerateContentResponse) (n n' : nat) (gen : ChatGeneration) :
  convertGoogleResponseToChatGeneration response n = Ok (gen, n') ->
  exists content tool_calls metadata usage,
    g_message gen = AIMessage content tool_calls metadata usage.
Proof.
  unfold convertGoogleResponseToChatGeneration.
  destruct (firstCandidate response) as [candidate|]; [| discriminate].
  destruct (cand_content candidate) as [content|]; [| discriminate].
  destruct (decodeParts _ _ _) as [st n1]. intros [= <- <-]. simpl.
  by repeat eexists.
Qed.

Lemma signatures_nonempty (parts : list Part) (s : string) :
  s ∈ signatures parts -> s <> "".
Proof.
  unfold signatures. rewrite list_elem_of_omap. intros (p & _ & Hp).
  destruct (p_thoughtSignature p) as [sig|]; simpl in Hp; [| discriminate].
  case_bool_decide; [| discriminate]. by injection Hp as <-.
Qed.

Lemma map_throwing_app {A B : Type} (f : A -> result B) (l1 l2 : list A)
    (ys1 ys2 : list B) :
  map_throwing f l1 = Ok ys1 -> map_throwing f l2 = Ok ys2 ->
  map_throwing f (l1 ++ l2) = Ok (ys1 ++ ys2).
Proof.
  revert ys1. induction l1 as [|x l1 IH]; intros ys1; simpl.
  - by intros [= <-].
  - intros (y & Hy & (ys & Hys & [= <-])%bind_Ok)%bind_Ok Hl2.
    by rewrite Hy, (IH ys Hys Hl2).
Qed.

Lemma encode_partBlocks (p : Part) :
  exists ps,
    map_throwing convertBlockToPart (partBlocks p) = Ok ps
    /\ flat_map partBlocks ps = partBlocks p
    /\ concatStrings (map partText ps) = partText p.
Proof.
  unfold partBlocks, partText.
  destruct (p_text p) as [t|]; simpl; [| by exists []].
  case_bool_decide as Hne; simpl; [| by exists []].
  destruct (p_thought p); simpl.
  - exists [thought_part t]. split; [done |].
    unfold partBlocks, partText, concatStrings. simpl.
    by rewrite bool_decide_eq_true_2 by done.
  - exists [text_part t]. split; [done |].
    unfold partBlocks, partText, concatStrings. simpl.
    rewrite bool_decide_eq_true_2 by done. simpl. by rewrite append_nil_r.
Qed.

Lemma encode_decoded_blocks (parts : list Part) :
  exists ps,
    map_throwing convertBlockToPart (flat_map partBlocks parts) = Ok ps
    /\ flat_map partBlocks ps = flat_map partBlocks parts
    /\ concatStrings (map partText ps) = concatStrings (map partText parts).
Proof.
  induction parts as [|p parts (ps & Hps & Hb & Ht)]; [by exists [] |].
  destruct (encode_partBlocks p) as (ps1 & Hps1 & Hb1 & Ht1).
  exists (ps1 ++ ps). simpl. split; [by apply map_throwing_app |].
  rewrite flat_map_app, map_app, concatStrings_app.
  change (concatStrings (partText p :: map partText parts))
    with (partText p +:+ concatStrings (map partText parts)).
  by rewrite Hb1, Hb, Ht1, Ht.
Qed.

Lemma encode_decoded_string (text : string) :
  exists ps,
    convertContentToParts (CString text) = Ok ps
    /\ hasReasoning (flat_map partBlocks ps) = false
    /\ concatStrings (map partText ps) = text.
Proof.
  simpl. case_bool_decide as Hempty.
  - exists []. by subst.
  - exists [text_part text]. split; [done |].
    unfold partBlocks, partText, concatStrings. simpl.
    rewrite bool_decide_eq_true_2 by done. simpl.
    by rewrite append_nil_r.
Qed.

Lemma signatures_none (parts : list Part) :
  Forall (fun p => p_thoughtSignature p = None) parts -> signatures parts = [].
Proof.
  unfold signatures. induction 1 as [|p parts Hp _ IH]; [done |].
  simpl. by rewrite Hp.
Qed.

Lemma flat_map_snoc {A B : Type} (f : A -> list B) (l : list A) (x : A) :
  flat_map f (l ++ [x]) = flat_map f l ++ f x.
Proof. by rewrite flat_map_app; simpl; rewrite app_nil_r. Qed.

(** Putting the signature back changes nothing that the decoder reads off
    the parts but the signature. *)
Lemma reinjectThoughtSignature_view (content : MessageContent)
    (tool_calls : list ToolCall) (metadata : gmap string MetaValue)
    (usage : option UsageMetadata) (parts : list Part) :
  Forall (fun p => p_thoughtSignature p = None) parts ->
  let parts' :=
    reinjectThoughtSignature (AIMessage content tool_calls metadata usage)
      parts in
  flat_map partBlocks parts' = flat_map partBlocks parts
  /\ concatStrings (map partText parts')
     = concatStrings (map partText parts)
  /\ functionCalls parts' = functionCalls parts
  /\ signatures parts'
     = match string_at "thoughtSignature" metadata with
       | Some s => if bool_decide (s <> "") then [s] else []
       | None => []
       end.
Proof.
  intros Hnone parts'. unfold parts', reinjectThoughtSignature.
  destruct (string_at "thoughtSignature" metadata) as [s|];
    [| by rewrite signatures_none].
  destruct (last parts) as [lastPart|] eqn:Hlast.
  - apply last_Some in Hlast as [front ->]. rewrite insert_last.
    apply Forall_app in Hnone as [Hfront _].
    unfold functionCalls.
    rewrite !flat_map_snoc, !map_app, !concatStrings_app, !omap_app,
      !signatures_app, (signatures_none front) by done.
    repeat split; try done.
    unfold signatures. simpl. by case_bool_decide.
  - apply last_None in Hlast as ->. simpl.
    unfold signatures, partText, concatStrings. simpl.
    by case_bool_decide.
Qed.

Lemma toolCallParts_view (tool_calls : list ToolCall) :
  let parts := map convertToolCallToPart tool_calls in
  flat_map partBlocks parts = []
  /\ concatStrings (map partText parts) = ""
  /\ functionCalls parts
     = map (fun tc => mkFunctionCall (Some (tc_name tc)) (Some (tc_args tc))
                        None) tool_calls
  /\ Forall (fun p => p_thoughtSignature p = None) parts.
Proof.
  induction tool_calls as [|tc tcs (Hb & Ht & Hc & Hs)]; [done |].
  simpl. unfold functionCalls in *. simpl. rewrite Hb, Hc.
  repeat split; try done. by constructor.
Qed.

Lemma missingIds_no_ids (fcs : list FunctionCall) :
  Forall (fun fc => fc_id fc = None) fcs -> missingIds fcs = length fcs.
Proof.
  unfold missingIds. induction 1 as [|fc fcs Hfc _ IH]; [done |].
  simpl. rewrite Hfc. simpl. by rewrite IH.
Qed.

(** X7.  What the full-response decoder returns can be sent back and
    decoded again without loss in what the model said: the decoded message
    is always accepted by the standard encoder, and decoding the parts that
    the encoder builds for it gives the same content, the same text, the
    same thought signature and the same tool calls by name and arguments.
    The identifiers of the tool calls are not kept: one fresh identifier is
    drawn for every tool call. *)
Theorem standard_decode_encode_decode (response : GenerateContentResponse)
    (n n' k : nat) (gen : ChatGeneration) :
  promptFeedback response !! "thoughtSignature" = None ->
  convertGoogleResponseToChatGeneration response n = Ok (gen, n') ->
  exists parts gen',
    messageParts (g_message gen) = Ok parts
    /\ convertGoogleResponseToChatGeneration (responseOfParts parts) k
       = Ok (gen', k + length (msg_tool_calls (g_message gen)))
    /\ msg_content (g_message gen') = msg_content (g_message gen)
    /\ g_text gen' = g_text gen
    /\ string_at "thoughtSignature" (msg_response_metadata (g_message gen'))
       = string_at "thoughtSignature"
           (msg_response_metadata (g_message gen))
    /\ callOf <$> msg_tool_calls (g_message gen')
       = callOf <$> msg_tool_calls (g_message gen).
Proof.
  intros Hfeedback Hgen.
  pose proof (convertGoogleResponseToChatGeneration_signature
                _ _ _ _ Hfeedback Hgen) as Hsig.
  pose proof (convertGoogleResponseToChatGeneration_Ok _ _ _ _ Hgen)
    as (Htext & Hcontent & _ & _).
  destruct (convertGoogleResponseToChatGeneration_AIMessage _ _ _ _ Hgen)
    as (content & tool_calls & metadata & usage & Hmsg).
  rewrite Hmsg in *. simpl in Hsig, Hcontent. simpl.
  set (orig := responseParts response) in *.
  (* the parts built from the content *)
  assert (exists cps,
            convertContentToParts content = Ok cps
            /\ (if hasReasoning (flat_map partBlocks cps)
                then CBlocks (flat_map partBlocks cps)
                else CString (concatStrings (map partText cps))) = content
            /\ concatStrings (map partText cps) = g_text gen)
    as (cps & Hcps & Hsame & Hsametext).
  { rewrite Htext, Hcontent.
    destruct (hasReasoning (flat_map partBlocks orig)) eqn:Hreasoning.
    - destruct (encode_decoded_blocks orig) as (ps & Hps & Hb & Ht).
      exists ps. simpl. by rewrite Hps, Hb, Hreasoning, Ht.
    - destruct (encode_decoded_string (concatStrings (map partText orig)))
        as (ps & Hps & Hr & Ht).
      exists ps. by rewrite Hps, Hr, Ht. }
  pose proof (convertContentToParts_fields _ _ Hcps) as Hfields.
  destruct (toolCallParts_view tool_calls) as (Htb & Htt & Htc & Hts).
  set (parts := reinjectThoughtSignature
                  (AIMessage content tool_calls metadata usage)
                  (cps ++ map convertToolCallToPart tool_calls ++ [])).
  assert (Hparts : messageParts (AIMessage content tool_calls metadata usage)
                   = Ok parts).
  { unfold messageParts. simpl. by rewrite Hcps. }
  destruct (reinjectThoughtSignature_view content tool_calls metadata usage
              (cps ++ map convertToolCallToPart tool_calls ++ []))
    as (Hb & Ht & Hc & Hs).
  { rewrite app_nil_r. apply Forall_app. split; [| done].
    eapply Forall_impl; [exact Hfields |]. by intros p (_ & _ & Hp). }
  fold parts in Hb, Ht, Hc, Hs.
  rewrite app_nil_r in Hb, Ht, Hc.
  unfold functionCalls in Hc.
  rewrite flat_map_app, Htb, app_nil_r in Hb.
  rewrite map_app, concatStrings_app, Htt, append_nil_r in Ht.
  rewrite omap_app in Hc. fold (functionCalls cps) in Hc.
  fold (functionCalls (map convertToolCallToPart tool_calls)) in Hc.
  rewrite Htc in Hc.
  assert (Hnocalls : functionCalls cps = []).
  { unfold functionCalls. clear -Hfields.
    induction Hfields as [|p ps (Hp & _) _ IH]; [done |].
    simpl. by rewrite Hp. }
  rewrite Hnocalls in Hc. simpl in Hc. fold (functionCalls parts) in Hc.
  (* decoding the parts again *)
  destruct (convertGoogleResponseToChatGeneration (responseOfParts parts) k)
    as [[gen' k']|e] eqn:Hgen'.
  2: { unfold convertGoogleResponseToChatGeneration in Hgen'.
       simpl in Hgen'. destruct (decodeParts _ _ _) in Hgen'.
       discriminate. }
  pose proof (convertGoogleResponseToChatGeneration_signature
                (responseOfParts parts) _ _ _ (lookup_empty _) Hgen')
    as Hsig'.
  pose proof (convertGoogleResponseToChatGeneration_Ok _ _ _ _ Hgen')
    as (Htext' & Hcontent' & Hcalls' & Hk').
  change (responseParts (responseOfParts parts)) with parts in *.
  rewrite Hb, Ht in Hcontent'. rewrite Ht in Htext'.
  exists parts, gen'. split; [done |].
  assert (Hids : Forall (fun fc => fc_id fc = None) (functionCalls parts)).
  { rewrite Hc. apply Forall_forall. intros fc Hfc%list_elem_of_In.
    by apply in_map_iff in Hfc as (tc & <- & _). }
  split.
  { rewrite Hgen', Hk', missingIds_no_ids by done.
    by rewrite Hc, length_map. }
  split; [by rewrite Hcontent', Hsame |].
  split; [by rewrite Htext', Hsametext |].
  split.
  - rewrite Hsig', Hs, Hsig.
    destruct (last (signatures orig)) as [s|] eqn:Hlast; [| done].
    rewrite bool_decide_eq_true_2; [done |].
    apply (signatures_nonempty orig). rewrite last_Some in Hlast.
    destruct Hlast as [front ->]. set_solver.
  - rewrite Hcalls', Hc, fmap_imap.
    rewrite (imap_ext _ (fun _ fc =>
                           (default "" (fc_name fc),
                            default "{}" (fc_args fc)))) by done.
    rewrite (imap_const (fun fc : FunctionCall =>
                           (default "" (fc_name fc),
                            default "{}" (fc_args fc)))).
    by rewrite <- list_fmap_compose.
Qed.

Lemma standard_decode_encode_decode_witness :
  exists gen parts gen',
    convertGoogleResponseToChatGeneration tool_call_response 0 = Ok (gen, 1)
    /\ messageParts (g_message gen) = Ok parts
    /\ convertGoogleResponseToChatGeneration (responseOfParts parts) 7
       = Ok (gen', 7 + length (msg_tool_calls (g_message gen)))
    /\ msg_content (g_message gen') = msg_content (g_message gen)
    /\ callOf <$> msg_tool_calls (g_message gen')
       = callOf <$> msg_tool_calls (g_message gen).
Proof.
  destruct (convertGoogleResponseToChatGeneration tool_call_response 0)
    as [[gen n']|e] eqn:Hgen; [| discriminate].
  assert (Hn : n' = 1) by (by injection Hgen as _ <-). subst n'.
  destruct (standard_decode_encode_decode tool_call_response 0 1 7 gen
              eq_refl Hgen)
    as (parts & gen' & Hparts & Hgen' & Hcontent & _ & _ & Hcalls).
  by exists gen, parts, gen'.
Defined.


(** ** Fields of a decoded generation that go together *)

Lemma blocksText_partBlocks (parts : list Part) :
  blocksText (flat_map partBlocks parts) = concatStrings (map partText parts).
Proof.
  induction parts as [|p parts IH]; [done |].
  simpl. rewrite blocksText_app, IH.
  change (concatStrings (partText p :: map partText parts))
    with (partText p +:+ concatStrings (map partText parts)).
  f_equal. unfold partBlocks, partText, blocksText, isTextBlock.
  destruct (truthy (p_text p)); [| done].
  destruct (p_thought p); simpl; [done |].
  unfold concatStrings. simpl. by rewrite append_nil_r.
Qed.

Lemma blocksText_outputBlocks (outputs : list Output) :
  blocksText (flat_map outputBlocks outputs)
  = concatStrings (map outputText outputs).
Proof.
  induction outputs as [|o outputs IH]; [done |].
  simpl. rewrite blocksText_app, IH.
  change (concatStrings (outputText o :: map outputText outputs))
    with (outputText o +:+ concatStrings (map outputText outputs)).
  f_equal.
  destruct o as [text|mime data|id name args|sig [[|s ss]|]|payload|type];
    try done.
  unfold blocksText, isTextBlock, concatStrings. simpl.
  by rewrite append_nil_r.
Qed.

(** X8.  In both full decoders the [text] of the generation is the text of
    the content of its message, as the stream converter reads it: the
    content itself when it is a string, and otherwise its text blocks
    joined; reasoning and image blocks add nothing to it. *)
Theorem generation_text_is_content_text :
  (forall response n gen n',
     convertGoogleResponseToChatGeneration response n = Ok (gen, n') ->
     g_text gen = chunkText (msg_content (g_message gen)))
  /\ (forall response usage gen,
        gen ∈ convertInteractionToChatGeneration response usage ->
        g_text gen = chunkText (msg_content (g_message gen))).
Proof.
  split.
  - intros response n gen n' Hgen.
    apply convertGoogleResponseToChatGeneration_Ok in Hgen
      as (Htext & Hcontent & _ & _).
    rewrite Htext, Hcontent.
    destruct (hasReasoning _); [| done].
    by rewrite chunkText_blocks, blocksText_partBlocks.
  - intros response usage gen Hin.
    destruct (convertInteractionToChatGeneration_fields response usage)
      as (gen0 & Hgen & Htext & Hcontent & _).
    rewrite Hgen in Hin. apply list_elem_of_singleton in Hin as ->.
    rewrite Htext, Hcontent.
    destruct (_ && _); [done |].
    case_bool_decide; [| done].
    by rewrite chunkText_blocks, blocksText_outputBlocks.
Qed.

Lemma generation_text_is_content_text_witness :
  exists gen n',
    convertGoogleResponseToChatGeneration thinking_response 0 = Ok (gen, n')
    /\ msg_content (g_message gen)
       = CBlocks [reasoning_block "plan" None; text_block "answer"]
    /\ g_text gen = chunkText (msg_content (g_message gen)).
Proof.
  destruct (convertGoogleResponseToChatGeneration thinking_response 0)
    as [[gen n']|e] eqn:Hgen; [| discriminate].
  exists gen, n'. split; [reflexivity |].
  split; [by injection Hgen as <- _ |].
  exact (proj1 generation_text_is_content_text _ _ _ _ Hgen).
Defined.

Lemma decodePart_thoughts (st : DecodeState) (part : Part) (n : nat)
    (l : list string) :
  responseMetadata st !! "thoughts"
  = (if bool_decide (l = []) then None else Some (MStrings l)) ->
  responseMetadata (decodePart st part n).1 !! "thoughts"
  = (if bool_decide (l ++ partThoughts part = []) then None
     else Some (MStrings (l ++ partThoughts part))).
Proof.
  intros Hl. unfold decodePart, partThoughts, insert_some, idOrUuid.
  destruct (truthy (p_text part)) eqn:Htext, (p_thought part);
    destruct (p_functionCall part) as [[name args [id|]]|];
    destruct (p_executableCode part), (p_codeExecutionResult part);
    destruct (truthy (p_thoughtSignature part)); simpl;
    rewrite ?lookup_insert_ne by done;
    rewrite ?lookup_insert_eq, ?app_nil_r; try done;
    rewrite Hl; case_bool_decide as Hnil; subst; simpl; try done;
    rewrite bool_decide_eq_false_2; try done;
    by intros []%app_eq_nil.
Qed.

Lemma decodeParts_thoughts (parts : list Part) (st : DecodeState) (n : nat)
    (l : list string) :
  responseMetadata st !! "thoughts"
  = (if bool_decide (l = []) then None else Some (MStrings l)) ->
  let all := l ++ flat_map partThoughts parts in
  responseMetadata (decodeParts parts st n).1 !! "thoughts"
  = (if bool_decide (all = []) then None else Some (MStrings all)).
Proof.
  revert st n l. induction parts as [|part parts IH]; intros st n l Hl; simpl.
  - by rewrite app_nil_r.
  - pose proof (decodePart_thoughts st part n l Hl) as Hpart.
    destruct (decodePart st part n) as [st1 n1]. simpl in Hpart.
    rewrite app_assoc. by apply IH.
Qed.

Lemma partThoughts_blocks (parts : list Part) :
  omap b_reasoning (flat_map partBlocks parts) = flat_map partThoughts parts
  /\ hasReasoning (flat_map partBlocks parts)
     = negb (bool_decide (flat_map partThoughts parts = [])).
Proof.
  unfold hasReasoning.
  induction parts as [|p parts [IHb IHr]]; [done |].
  simpl. rewrite omap_app, existsb_app, IHb, IHr.
  unfold partBlocks, partThoughts.
  destruct (truthy (p_text p)), (p_thought p); simpl; done.
Qed.

(** X9.  The [thoughts] entry of the metadata of a decoded message goes
    with its content: it is absent when the content is a string, and when
    the content is a block list it holds the texts of the reasoning blocks
    in their order. *)
Theorem thoughts_metadata_matches_content
    (response : GenerateContentResponse) (n n' : nat) (gen : ChatGeneration) :
  promptFeedback response !! "thoughts" = None ->
  convertGoogleResponseToChatGeneration response n = Ok (gen, n') ->
  msg_response_metadata (g_message gen) !! "thoughts"
  = match msg_content (g_message gen) with
    | CString _ => None
    | CBlocks blocks => Some (MStrings (omap b_reasoning blocks))
    end.
Proof.
  intros Hfeedback.
  unfold convertGoogleResponseToChatGeneration.
  destruct (firstCandidate response) as [candidate|]; [| discriminate].
  destruct (cand_content candidate) as [content|]; [| discriminate].
  set (parts := default [] (c_parts content)).
  set (st0 := mkDecodeState "" [] [] _).
  pose proof (decodeParts_thoughts parts st0 n []) as Hthoughts.
  pose proof (decodeParts_fields parts st0 n) as (Hblocks & _).
  destruct (partThoughts_blocks parts) as [Hb Hr].
  destruct (decodeParts parts st0 n) as [st n1].
  simpl in Hthoughts, Hblocks.
  intros [= <- <-]. simpl. rewrite Hblocks, Hr, Hthoughts.
  - case_bool_decide; simpl; [done |]. by rewrite Hb.
  - unfold st0, insert_some. simpl. rewrite lookup_union, Hfeedback.
    destruct (cand_finishReason candidate), (cand_index candidate); simpl;
      rewrite ?lookup_insert_ne by done; by rewrite lookup_empty.
Qed.

Lemma thoughts_metadata_matches_content_witness :
  exists gen n',
    convertGoogleResponseToChatGeneration thinking_response 0 = Ok (gen, n')
    /\ msg_response_metadata (g_message gen) !! "thoughts"
       = Some (MStrings ["plan"]).
Proof.
  destruct (convertGoogleResponseToChatGeneration thinking_response 0)
    as [[gen n']|e] eqn:Hgen; [| discriminate].
  exists gen, n'. split; [reflexivity |].
  rewrite (thoughts_metadata_matches_content thinking_response 0 n' gen
             eq_refl Hgen).
  by injection Hgen as <- _.
Defined.

(** ** Thought signatures of decoded messages *)

Lemma decodeOutput_signature (st : DecodeState) (output : Output) :
  string_at "thought_signature" (responseMetadata (decodeOutput st output))
  = from_option Some (string_at "thought_signature" (responseMetadata st))
      (last (outputSignatures [output]))
  /\ string_at "thoughtSignature" (responseMetadata (decodeOutput st output))
     = string_at "thoughtSignature" (responseMetadata st).
Proof.
  unfold string_at, outputSignatures.
  destruct output as [text|mime data|id name args|[sig|] summary|payload|type];
    simpl; try done.
  - case_bool_decide; simpl;
      rewrite ?lookup_insert_eq, ?lookup_insert_ne by done; done.
  - by rewrite !lookup_insert_ne by done.
Qed.

Lemma decodeOutputs_signature (outputs : list Output) (st : DecodeState) :
  let st' := fold_left decodeOutput outputs st in
  string_at "thought_signature" (responseMetadata st')
  = from_option Some (string_at "thought_signature" (responseMetadata st))
      (last (outputSignatures outputs))
  /\ string_at "thoughtSignature" (responseMetadata st')
     = string_at "thoughtSignature" (responseMetadata st).
Proof.
  revert st. induction outputs as [|o outputs IH]; intros st; [done |].
  simpl. destruct (IH (decodeOutput st o)) as [-> ->].
  destruct (decodeOutput_signature st o) as [-> ->]. split; [| done].
  unfold outputSignatures. simpl.
  destruct (match o with
            | OThought signature _ =>
                if truthy signature then signature else None
            | _ => None
            end) as [s|]; simpl; [| done].
  fold (outputSignatures outputs).
  destruct (outputSignatures outputs) as [|y l]; [done |].
  change (last (s :: y :: l)) with (last (y :: l)).
  destruct (last (y :: l)) eqn:Hlast; [done |]. by apply last_None in Hlast.
Qed.

Lemma string_at_interaction_metadata (key : string)
    (metadata : gmap string MetaValue) (response : Interaction) :
  key <> "interaction_id" -> key <> "finish_reason" -> key <> "model" ->
  string_at key
    (metadata ∪
       insert_some "interaction_id" (MString <$> i_id response)
         (insert_some "finish_reason" (MString <$> i_status response)
            (insert_some "model" (MString <$> i_model response) ∅)))
  = string_at key metadata.
Proof.
  intros H1 H2 H3. unfold string_at, insert_some. rewrite lookup_union.
  destruct (i_id response), (i_status response), (i_model response); simpl;
    rewrite ?lookup_insert_ne by done; rewrite lookup_empty;
    by destruct (metadata !! key).
Qed.

(** X10.  When several parts of a response carry a thought signature the
    decoded message keeps the last one that is not empty, in both full
    decoders: the standard decoder under [thoughtSignature], from the parts
    of the first candidate, and the interactions decoder under
    [thought_signature], from the thought outputs. *)
Theorem last_signature_wins :
  (forall response n gen n',
     promptFeedback response !! "thoughtSignature" = None ->
     convertGoogleResponseToChatGeneration response n = Ok (gen, n') ->
     string_at "thoughtSignature" (msg_response_metadata (g_message gen))
     = last (signatures (responseParts response)))
  /\ (forall response usage gen,
        gen ∈ convertInteractionToChatGeneration response usage ->
        string_at "thought_signature" (msg_response_metadata (g_message gen))
        = last (outputSignatures (default [] (i_outputs response)))).
Proof.
  split.
  - intros response n gen n'.
    apply convertGoogleResponseToChatGeneration_signature.
  - intros response usage gen Hin.
    unfold convertInteractionToChatGeneration in Hin.
    apply list_elem_of_singleton in Hin as ->. simpl.
    rewrite string_at_interaction_metadata by done.
    destruct (decodeOutputs_signature (default [] (i_outputs response))
                (mkDecodeState "" [] [] ∅)) as [-> _].
    simpl. by destruct (last _).
Qed.

Lemma last_signature_wins_witness :
  let parts := [signed_text_part "a" "s1"; text_part "b";
                signed_text_part "c" "s2"; signed_text_part "d" ""] in
  exists gen n',
    convertGoogleResponseToChatGeneration (responseOfParts parts) 0
    = Ok (gen, n')
    /\ string_at "thoughtSignature" (msg_response_metadata (g_message gen))
       = Some "s2".
Proof.
  intros parts.
  destruct (convertGoogleResponseToChatGeneration (responseOfParts parts) 0)
    as [[gen n']|e] eqn:Hgen; [| discriminate].
  exists gen, n'. split; [reflexivity |].
  by rewrite (proj1 last_signature_wins (responseOfParts parts) 0 gen n'
                eq_refl Hgen).
Defined.


(** ** Decoding an interaction and encoding the message again *)

Lemma filterDefined_app {A : Type} (l1 l2 : list (option A)) :
  filterDefined (l1 ++ l2) = filterDefined l1 ++ filterDefined l2.
Proof.
  induction l1 as [|[x|] l1 IH]; simpl; [done | by rewrite IH | done].
Qed.

Lemma formatBlock_outputBlocks (output : Output) :
  isImageOutput output = false ->
  exists parts texts,
    map_throwing formatBlock (outputBlocks output) = Ok parts
    /\ filterDefined parts = TextContent <$> texts
    /\ concatStrings texts = outputText output.
Proof.
  intros Himage.
  destruct output as [text|mime data|id name args|sig [[|s ss]|]|payload|type];
    try discriminate; try (by exists [], []).
  - exists [Some (TextContent (outputText (OText text)))],
      [outputText (OText text)].
    split; [| split; [done |]].
    + simpl. destruct text as [t|]; simpl; [| done].
      destruct (decide (t = "")) as [->|Hne]; [done |].
      rewrite (bool_decide_eq_true_2 (t <> "")) by done.
      by rewrite bool_decide_eq_true_2.
    + unfold concatStrings. simpl. by rewrite append_nil_r.
  - by exists [None], [].
Qed.

Lemma formatBlock_outputs (outputs : list Output) :
  Forall (fun output => isImageOutput output = false) outputs ->
  exists parts texts,
    map_throwing formatBlock (flat_map outputBlocks outputs) = Ok parts
    /\ filterDefined parts = TextContent <$> texts
    /\ concatStrings texts = concatStrings (map outputText outputs).
Proof.
  induction 1 as [|o outputs Ho _ (ps & ts & Hps & Hf & Ht)];
    [by exists [], [] |].
  destruct (formatBlock_outputBlocks o Ho) as (ps1 & ts1 & Hps1 & Hf1 & Ht1).
  exists (ps1 ++ ps), (ts1 ++ ts). simpl.
  split; [by apply map_throwing_app |].
  rewrite filterDefined_app, fmap_app, concatStrings_app, Hf1, Hf, Ht1, Ht.
  done.
Qed.

Lemma outputCallItems_toolCalls (outputs : list Output) :
  map (fun toolCall =>
         FunctionCallContent (default "" (tc_id toolCall))
           (tc_name toolCall) (tc_args toolCall))
    (flat_map outputToolCalls outputs)
  = flat_map outputCallItems outputs.
Proof.
  induction outputs as [|o outputs IH]; [done |].
  simpl. rewrite map_app, IH. by destruct o.
Qed.

(** X11.  The message decoded from an interaction without image outputs is
    always accepted by the interactions encoder, and the turn built for it
    is a [model] turn that holds, in this order: the last thought signature
    of the interaction when there is one, text items whose texts together
    are the text of the generation, and one function-call item per
    function-call output, an absent identifier sent as the empty string.
    The summaries of the thought outputs are not sent back. *)
Theorem interaction_decode_encode (response : Interaction)
    (usage : option UsageMetadata) (gen : ChatGeneration) :
  let outputs := default [] (i_outputs response) in
  gen ∈ convertInteractionToChatGeneration response usage ->
  Forall (fun output => isImageOutput output = false) outputs ->
  exists texts,
    convertMessageToGoogleTurn (g_message gen)
    = Ok (Some (mkTurn "model"
                  (match last (outputSignatures outputs) with
                   | Some signature => [ThoughtContent signature]
                   | None => []
                   end
                   ++ (TextContent <$> texts)
                   ++ flat_map outputCallItems outputs)))
    /\ concatStrings texts = g_text gen.
Proof.
  intros outputs Hin Himages.
  unfold convertInteractionToChatGeneration in Hin.
  apply list_elem_of_singleton in Hin as ->. simpl. fold outputs.
  rewrite string_at_interaction_metadata by done.
  assert (Hsig : string_at "thought_signature"
                   (responseMetadata
                      (fold_left decodeOutput outputs
                         (mkDecodeState "" [] [] ∅)))
                 = last (outputSignatures outputs)).
  { destruct (decodeOutputs_signature outputs (mkDecodeState "" [] [] ∅))
      as [-> _]. simpl. by destruct (last _). }
  destruct (decodeOutputs_fields outputs (mkDecodeState "" [] [] ∅))
    as (Hb & Ht & Hc).
  simpl in Hb, Ht, Hc. rewrite append_nil_l in Ht.
  rewrite Hsig, Hb, Ht, Hc, outputCallItems_toolCalls.
  clear Hsig Hb Ht Hc.
  set (blocks := flat_map outputBlocks outputs).
  set (text := concatStrings (map outputText outputs)).
  destruct (isOnlyText blocks && bool_decide (text <> "")) eqn:Hflat.
  - apply andb_true_iff in Hflat as [_ Htext]. simpl. rewrite Htext. simpl.
    exists [text]. split; [by rewrite Htext |].
    unfold concatStrings. simpl. by rewrite append_nil_r.
  - simpl. destruct (decide (blocks = [])) as [Hnil|Hblocks].
    + assert (Htext : text = "").
      { unfold text. rewrite <- blocksText_outputBlocks. fold blocks.
        by rewrite Hnil. }
      rewrite Hnil, Htext. simpl. by exists [].
    + destruct (formatBlock_outputs outputs Himages)
        as (ps & ts & Hps & Hf & Hts).
      fold blocks in Hps. fold text in Hts.
      rewrite (bool_decide_eq_true_2 (blocks <> [])) by done.
      exists ts. simpl. by rewrite Hps; simpl; rewrite Hf.
Qed.

Lemma interaction_decode_encode_witness :
  let response :=
    mkInteraction (Some "i1") None None
      (Some [OThought (Some "sig")
               (Some [mkSummaryItem "text" "thinking"]);
             OText (Some "hello");
             OFunctionCall None "get_weather" "{}"]) None in
  exists gen texts,
    convertInteractionToChatGeneration response None = [gen]
    /\ convertMessageToGoogleTurn (g_message gen)
       = Ok (Some (mkTurn "model"
                     ([ThoughtContent "sig"] ++ (TextContent <$> texts)
                      ++ [FunctionCallContent "" "get_weather" "{}"])))
    /\ concatStrings texts = "hello".
Proof.
  intros response.
  destruct (convertInteractionToChatGeneration response None)
    as [|gen [|]] eqn:Hgen; try discriminate.
  destruct (interaction_decode_encode response None gen)
    as (texts & Hturn & Htext).
  - rewrite Hgen. apply list_elem_of_singleton. reflexivity.
  - by repeat constructor.
  - exists gen, texts. split; [reflexivity |]. split; [exact Hturn |].
    rewrite Htext. by injection Hgen as <-.
Defined.


(** ** The identifier of an interaction *)

Lemma decodeOutputs_other_keys (outputs : list Output) (st : DecodeState)
    (key : string) :
  key <> "thought_signature" -> key <> "code_execution_result" ->
  responseMetadata (fold_left decodeOutput outputs st) !! key
  = responseMetadata st !! key.
Proof.
  intros H1 H2. revert st.
  induction outputs as [|o outputs IH]; intros st; [done |].
  simpl. rewrite IH.
  destruct o as [text|mime data|id name args|sig [[|s ss]|]|payload|type];
    simpl; try done;
    try (destruct (truthy sig); simpl);
    by rewrite ?lookup_insert_ne by done.
Qed.

(** X12.  The message decoded from an interaction carries the identifier of
    the interaction under [interaction_id], whatever the outputs are; a
    call whose options give this value back as [previousInteractionId] is
    routed to the interactions protocol as soon as the identifier is not
    empty, also on a model built without the experimental flag. *)
Theorem interaction_id_continues (response : Interaction)
    (usage : option UsageMetadata) (gen : ChatGeneration)
    (this : ChatGoogleGenAI) (options : CallOptions) :
  gen ∈ convertInteractionToChatGeneration response usage ->
  string_at "interaction_id" (msg_response_metadata (g_message gen))
  = i_id response
  /\ (previousInteractionId options
      = string_at "interaction_id" (msg_response_metadata (g_message gen)) ->
      (exists id, i_id response = Some id /\ id <> "") ->
      shouldUseInteractionsApi this options = true).
Proof.
  intros Hin.
  assert (Hid : string_at "interaction_id"
                  (msg_response_metadata (g_message gen)) = i_id response).
  { unfold convertInteractionToChatGeneration in Hin.
    apply list_elem_of_singleton in Hin as ->. simpl.
    unfold string_at. rewrite lookup_union.
    rewrite decodeOutputs_other_keys by done. simpl.
    rewrite lookup_empty. unfold insert_some.
    destruct (i_id response) as [id|]; simpl.
    - by rewrite lookup_insert_eq.
    - destruct (i_status response), (i_model response); simpl;
        rewrite ?lookup_insert_ne by done; by rewrite lookup_empty. }
  split; [exact Hid |].
  intros Hprev (id & Hsome & Hne). unfold shouldUseInteractionsApi.
  rewrite Hprev, Hid, Hsome. simpl. rewrite bool_decide_eq_true_2 by done.
  apply orb_true_r.
Qed.

Lemma interaction_id_continues_witness :
  exists gen,
    convertInteractionToChatGeneration signed_interaction None = [gen]
    /\ string_at "interaction_id" (msg_response_metadata (g_message gen))
       = Some "i1"
    /\ shouldUseInteractionsApi standard_model
         (mkCallOptions (Some "i1") None None None) = true.
Proof.
  destruct (convertInteractionToChatGeneration signed_interaction None)
    as [|gen [|]] eqn:Hgen; try discriminate.
  exists gen. split; [reflexivity |].
  destruct (interaction_id_continues signed_interaction None gen
              standard_model (mkCallOptions (Some "i1") None None None))
    as [Hid Hroute].
  - rewrite Hgen. apply list_elem_of_singleton. reflexivity.
  - split; [exact Hid |]. apply Hroute; [by rewrite Hid |].
    exists "i1". by split.
Defined.

(** ** A thought signature across the two protocols *)

Lemma decodePart_other_keys (st : DecodeState) (part : Part) (n : nat)
    (key : string) :
  key <> "thoughts" -> key <> "thoughtSignature" ->
  key <> "executableCode" -> key <> "codeExecutionResult" ->
  responseMetadata (decodePart st part n).1 !! key
  = responseMetadata st !! key.
Proof.
  intros H1 H2 H3 H4. unfold decodePart, insert_some, idOrUuid.
  destruct (truthy (p_text part)), (p_thought part);
    destruct (p_functionCall part) as [[name args [id|]]|];
    destruct (p_executableCode part), (p_codeExecutionResult part);
    destruct (truthy (p_thoughtSignature part)); simpl;
    by rewrite ?lookup_insert_ne by done.
Qed.

Lemma decodeParts_other_keys (parts : list Part) (st : DecodeState) (n : nat)
    (key : string) :
  key <> "thoughts" -> key <> "thoughtSignature" ->
  key <> "executableCode" -> key <> "codeExecutionResult" ->
  responseMetadata (decodeParts parts st n).1 !! key
  = responseMetadata st !! key.
Proof.
  intros H1 H2 H3 H4. revert st n.
  induction parts as [|part parts IH]; intros st n; [done |].
  simpl. pose proof (decodePart_other_keys st part n key H1 H2 H3 H4) as Hp.
  destruct (decodePart st part n) as [st1 n1]. simpl in Hp.
  by rewrite IH.
Qed.

Lemma formatBlock_partBlocks (parts : list Part) :
  exists items,
    map_throwing formatBlock (flat_map partBlocks parts) = Ok items
    /\ Forall (fun item => item_signature item = None) (filterDefined items).
Proof.
  induction parts as [|p parts (items & Hitems & Hsig)];
    [by exists [] |].
  simpl. unfold partBlocks at 1.
  destruct (truthy (p_text p)); simpl; [| by exists items].
  destruct (p_thought p); simpl; rewrite Hitems; simpl.
  - by exists (None :: items).
  - eexists. split; [done |]. simpl. by constructor.
Qed.

Lemma convertBlockToPart_outputs (outputs : list Output) :
  Forall (fun output => isImageOutput output = false) outputs ->
  is_Ok (map_throwing convertBlockToPart (flat_map outputBlocks outputs)).
Proof.
  induction 1 as [|o outputs Ho _ [ps Hps]]; [apply is_Ok_Ok |].
  simpl.
  assert (is_Ok (map_throwing convertBlockToPart (outputBlocks o)))
    as [ps1 Hps1].
  { destruct o as [text|mime data|id name args|sig [[|s ss]|]|payload|type];
      try discriminate; apply is_Ok_Ok. }
  exists (ps1 ++ ps). by apply map_throwing_app.
Qed.

(** X13.  A thought signature does not survive a change of protocol.  The
    message that the standard decoder returns is always accepted by the
    interactions encoder, in a [model] turn without any thought item,
    whatever signatures the response carried; and the message decoded from
    an interaction without image outputs is always accepted by the standard
    encoder, which attaches a signature to none of its parts. *)
Theorem signature_lost_across_protocols :
  (forall response n gen n',
     promptFeedback response !! "thought_signature" = None ->
     convertGoogleResponseToChatGeneration response n = Ok (gen, n') ->
     exists items,
       convertMessageToGoogleTurn (g_message gen)
       = Ok (Some (mkTurn "model" items))
       /\ Forall (fun item => item_signature item = None) items)
  /\ (forall response usage gen,
        gen ∈ convertInteractionToChatGeneration response usage ->
        Forall (fun output => isImageOutput output = false)
          (default [] (i_outputs response)) ->
        exists parts,
          messageParts (g_message gen) = Ok parts
          /\ Forall (fun part => p_thoughtSignature part = None) parts).
Proof.
  split.
  - intros response n gen n' Hfeedback.
    unfold convertGoogleResponseToChatGeneration.
    destruct (firstCandidate response) as [candidate|]; [| discriminate].
    destruct (cand_content candidate) as [content|]; [| discriminate].
    set (parts := default [] (c_parts content)).
    set (st0 := mkDecodeState "" [] [] _).
    assert (Hinit : responseMetadata st0 !! "thought_signature" = None).
    { unfold st0, insert_some. simpl. rewrite lookup_union, Hfeedback.
      destruct (cand_finishReason candidate), (cand_index candidate); simpl;
        rewrite ?lookup_insert_ne by done; by rewrite lookup_empty. }
    pose proof (decodeParts_other_keys parts st0 n "thought_signature"
                  ltac:(done) ltac:(done) ltac:(done) ltac:(done)) as Hkey.
    rewrite Hinit in Hkey. clear Hinit.
    pose proof (decodeParts_fields parts st0 n) as (Hblocks & _).
    destruct (decodeParts parts st0 n) as [st n1].
    simpl in Hkey, Hblocks.
    intros [= <- <-]. simpl. unfold string_at.
    rewrite Hkey. simpl.
    assert (Hcalls : Forall (fun item => item_signature item = None)
                       (map (fun toolCall =>
                               FunctionCallContent
                                 (default "" (tc_id toolCall))
                                 (tc_name toolCall) (tc_args toolCall))
                          (toolCalls st))).
    { apply Forall_forall. intros item Hitem%list_elem_of_In.
      by apply in_map_iff in Hitem as (tc & <- & _). }
    destruct (hasReasoning (contentBlocks st)).
    + rewrite Hblocks.
      destruct (formatBlock_partBlocks parts) as (items & Hitems & Hsig).
      simpl. rewrite Hitems. simpl. eexists. split; [done |].
      by apply Forall_app.
    + eexists. split; [done |]. apply Forall_app. split; [| done].
      case_bool_decide; by repeat constructor.
  - intros response usage gen Hin Himages.
    set (outputs := default [] (i_outputs response)) in *.
    unfold convertInteractionToChatGeneration in Hin.
    apply list_elem_of_singleton in Hin as ->. fold outputs.
    unfold messageParts. simpl.
    rewrite string_at_interaction_metadata by done.
    destruct (decodeOutputs_signature outputs (mkDecodeState "" [] [] ∅))
      as [_ ->].
    destruct (decodeOutputs_fields outputs (mkDecodeState "" [] [] ∅))
      as (Hb & _).
    simpl in Hb. rewrite Hb. clear Hb.
    set (content := if content_nonempty _ then _ else _).
    assert (is_Ok (convertContentToParts content)) as [cps Hcps].
    { unfold content.
      destruct (_ && _); simpl.
      - destruct (bool_decide _); simpl; case_bool_decide; apply is_Ok_Ok.
      - destruct (bool_decide _); simpl.
        + by apply convertBlockToPart_outputs.
        + case_bool_decide; apply is_Ok_Ok. }
    rewrite Hcps. simpl. eexists. split; [done |].
    rewrite app_nil_r. apply Forall_app. split.
    + eapply Forall_impl; [by eapply convertContentToParts_fields |].
      by intros p (_ & _ & Hp).
    + apply toolCallParts_view.
Qed.

Lemma signature_lost_across_protocols_witness :
  exists gen parts,
    convertInteractionToChatGeneration signed_interaction None = [gen]
    /\ string_at "thought_signature" (msg_response_metadata (g_message gen))
       = Some "sig"
    /\ messageParts (g_message gen) = Ok parts
    /\ Forall (fun part => p_thoughtSignature part = None) parts.
Proof.
  destruct (convertInteractionToChatGeneration signed_interaction None)
    as [|gen [|]] eqn:Hgen; try discriminate.
  destruct (proj2 signature_lost_across_protocols signed_interaction None gen)
    as (parts & Hparts & Hnone).
  - rewrite Hgen. apply list_elem_of_singleton. reflexivity.
  - by repeat constructor.
  - exists gen, parts. split; [reflexivity |].
    split; [by injection Hgen as <- | by split].
Defined.


(** ** A streamed interaction *)

Lemma mergeDicts_string (key : string) (m1 m2 : gmap string MetaValue)
    (o1 o2 : option string) :
  m1 !! key = MString <$> o1 -> m2 !! key = MString <$> o2 ->
  mergeDicts m1 m2 !! key = MString <$> merge_opt_string o1 o2.
Proof.
  intros H1 H2. unfold mergeDicts. rewrite lookup_union_with, H1, H2.
  by destruct o1, o2.
Qed.

Lemma mergeAll_snoc {A : Type} (f : A -> option string) (l : list A) (x : A) :
  mergeAll (omap f (l ++ [x])) = merge_opt_string (mergeAll (omap f l)) (f x).
Proof.
  rewrite omap_app, <- mergeAll_app. f_equal. simpl.
  destruct (f x) as [y|]; [| done].
  unfold mergeAll, concatStrings. simpl. by rewrite append_nil_r.
Qed.

Lemma concatStrings_snoc (l : list string) (x : string) :
  concatStrings (l ++ [x]) = concatStrings l +:+ x.
Proof.
  rewrite concatStrings_app. unfold concatStrings at 2. simpl.
  by rewrite append_nil_r.
Qed.

Lemma event_without_chunk (event : InteractionSSEEvent) :
  makeMessageChunkFromGoogleInteractionEvent event = None ->
  eventText event = "" /\ eventSignature event = None
  /\ eventId event = None.
Proof.
  destruct event as [[[text|id name args|sig|content|type]|] index
                    |interaction|type|]; simpl; try done.
  by destruct (interaction ≫= i_usage).
Qed.

Lemma events_without_chunk (events : list InteractionSSEEvent) :
  Forall (fun event =>
            makeMessageChunkFromGoogleInteractionEvent event = None) events ->
  concatStrings (map eventText events) = ""
  /\ omap eventSignature events = [] /\ omap eventId events = [].
Proof.
  induction 1 as [|e events He _ (IHt & IHs & IHi)]; [done |].
  destruct (event_without_chunk e He) as (Ht & Hs & Hi).
  simpl. rewrite Hs, Hi, Ht. unfold concatStrings in *. simpl.
  by rewrite IHt.
Qed.

Lemma event_with_chunk (event : InteractionSSEEvent)
    (chunk : AIMessageChunk) :
  plainEvent event = true ->
  makeMessageChunkFromGoogleInteractionEvent event = Some chunk ->
  ch_content chunk = CString (eventText event)
  /\ ch_tool_call_chunks chunk = []
  /\ ch_response_metadata chunk !! "thought_signature"
     = MString <$> eventSignature event
  /\ ch_response_metadata chunk !! "interaction_id"
     = MString <$> eventId event.
Proof.
  destruct event as [[[text|id name args|sig|content|type]|] index
                    |interaction|type|]; simpl; try done.
  - by intros _ [= <-].
  - intros _ [= <-]. simpl. destruct sig as [s|]; simpl; [| done].
    by rewrite lookup_insert_eq, lookup_insert_ne.
  - intros _. destruct (interaction ≫= i_usage) as [usage|]; [| done].
    intros [= <-]. simpl.
    destruct (interaction ≫= i_id) as [id|]; simpl; [| done].
    by rewrite lookup_insert_eq, lookup_insert_ne.
Qed.

Lemma foldInteractionStream_plain (events seen : list InteractionSSEEvent)
    (final : option ChatGenerationChunk) :
  Forall (fun event => plainEvent event = true) events ->
  plainEvents final seen ->
  plainEvents (foldInteractionStream events final) (seen ++ events).
Proof.
  intros Hplain. revert seen final.
  induction Hplain as [|e events He _ IH]; intros seen final Hfinal; simpl.
  - by rewrite app_nil_r.
  - change (e :: events) with ([e] ++ events). rewrite app_assoc.
    destruct (makeMessageChunkFromGoogleInteractionEvent e) as [chunk|]
      eqn:Hchunk; apply IH.
    + destruct (event_with_chunk e chunk He Hchunk) as (Hc & Ht & Hs & Hi).
      destruct final as [f|]; simpl in *.
      * destruct Hfinal as (Hft & Hfc & Hftc & Hfs & Hfi).
        rewrite Hfc, Hc, Hft, Hftc, Ht, map_app, !mergeAll_snoc.
        simpl (map eventText [e]). rewrite concatStrings_snoc. simpl.
        split; [done |].
        split; [by case_bool_decide as Hempty; [rewrite Hempty |] |].
        split; [done |].
        split; by apply mergeDicts_string.
      * destruct (events_without_chunk seen Hfinal) as (Hst & Hss & Hsi).
        rewrite map_app, !mergeAll_snoc. simpl (map eventText [e]).
        rewrite concatStrings_snoc, Hst, Hss, Hsi, Hc, append_nil_l.
        simpl. by rewrite Hs, Hi.
    + destruct (event_without_chunk e Hchunk) as (Ht & Hs & Hi).
      destruct final as [f|]; simpl in *.
      * rewrite map_app, !mergeAll_snoc. simpl (map eventText [e]).
        rewrite concatStrings_snoc, Ht, Hs, Hi, append_nil_r.
        by destruct Hfinal as (-> & -> & -> & -> & ->);
          repeat split; destruct (mergeAll _).
      * apply Forall_app. by repeat constructor.
Qed.

Lemma foldInteractionStream_without_chunk
    (events : list InteractionSSEEvent)
    (final : option ChatGenerationChunk) :
  Forall (fun event =>
            makeMessageChunkFromGoogleInteractionEvent event = None) events ->
  foldInteractionStream events final = final.
Proof.
  induction 1 as [|e events He _ IH]; [done |]. simpl. by rewrite He.
Qed.

(** X14.  A streamed interaction made of text deltas, signature deltas and
    events without content folds into one chunk whose content is the string
    of all text deltas in order, which is also its text, without tool-call
    chunks; the signatures arrive under [thought_signature] and the
    identifier of an [interaction.complete] event that carries usage under
    [interaction_id].  No chunk at all comes out exactly when no event
    gives one. *)
Theorem interaction_stream_fold (events : list InteractionSSEEvent) :
  Forall (fun event => plainEvent event = true) events ->
  plainEvents (foldInteractionStream events None) events
  /\ (foldInteractionStream events None = None <->
      Forall (fun event =>
                makeMessageChunkFromGoogleInteractionEvent event = None)
        events).
Proof.
  intros Hplain.
  pose proof (foldInteractionStream_plain events [] None Hplain
                (Forall_nil_2 _)) as Hfold.
  simpl in Hfold. split; [exact Hfold |]. split.
  - intros Hnone. by rewrite Hnone in Hfold.
  - apply foldInteractionStream_without_chunk.
Qed.

Lemma interaction_stream_fold_witness :
  exists final,
    foldInteractionStream hello_events None = Some final
    /\ gc_text final = "Hello"
    /\ ch_content (gc_message final) = CString "Hello"
    /\ ch_response_metadata (gc_message final) !! "thought_signature"
       = Some (MString "sig")
    /\ ch_response_metadata (gc_message final) !! "interaction_id"
       = Some (MString "i1").
Proof.
  assert (Hplain : Forall (fun event => plainEvent event = true) hello_events)
    by (by repeat constructor).
  pose proof (proj1 (interaction_stream_fold hello_events Hplain)) as Hfold.
  destruct (foldInteractionStream hello_events None) as [final|] eqn:Hfinal;
    [| discriminate].
  exists final. split; [reflexivity |].
  destruct Hfold as (Ht & Hc & _ & Hs & Hi).
  rewrite Ht, Hc, Hs, Hi. by repeat split.
Defined.


(** ** What the stream converter yields *)

Lemma convertPartToChunk_usage (part : Part) (index n : nat) :
  ch_usage_metadata (convertPartToChunk part index n).1 = None.
Proof.
  unfold convertPartToChunk, convertFunctionCallToToolCallChunk, idOrUuid.
  destruct (p_text part), (p_thought part);
    destruct (p_functionCall part) as [[name args [id|]]|]; done.
Qed.

Lemma reduceParts_usage (parts : list Part) (index : nat)
    (acc : option AIMessageChunk) (n : nat) :
  acc ≫= ch_usage_metadata = None ->
  (reduceParts parts index acc n).1 ≫= ch_usage_metadata = None
  /\ ((reduceParts parts index acc n).1 = None <-> parts = [] /\ acc = None).
Proof.
  revert index acc n. induction parts as [|part parts IH];
    intros index acc n Hacc; simpl.
  - split; [done |]. split; [done | by intros [_ ->]].
  - pose proof (convertPartToChunk_usage part index n) as Hnext.
    destruct (convertPartToChunk part index n) as [nextChunk n1].
    simpl in Hnext.
    destruct (IH (S index)
                (Some match acc with
                      | Some a => concat a nextChunk
                      | None => nextChunk
                      end) n1) as [Husage Hnone].
    + destruct acc as [a|]; simpl in *; [| done].
      by rewrite Hacc, Hnext.
    + split; [done |]. split; [| by intros [? _]].
      intros H%Hnone. by destruct H.
Qed.

Lemma convertGoogleStreamChunkToLangChainChunk_None
    (response : GenerateContentResponse) (n : nat) :
  (convertGoogleStreamChunkToLangChainChunk response n).1 = None <->
  droppedDelta response = true.
Proof.
  unfold convertGoogleStreamChunkToLangChainChunk, droppedDelta.
  destruct (firstCandidate response) as [candidate|].
  - destruct (cand_content candidate ≫= c_parts) as [parts|]; simpl;
      [| done].
    destruct (reduceParts_usage parts 0 None n eq_refl) as [_ Hnone].
    destruct (reduceParts parts 0 None n) as [[chunk|] n1]; simpl in *.
    + split; [done |]. destruct parts; [| done]. intros _.
      by pose proof (proj2 Hnone (conj eq_refl eq_refl)).
    + split; [| done]. intros _. by destruct (proj1 Hnone eq_refl) as [-> _].
  - by destruct (usageMetadata response).
Qed.

Lemma foldStream_None (deltas : list GenerateContentResponse)
    (final : option ChatGenerationChunk) (n : nat) :
  (foldStream deltas final n).1 = None <->
  final = None /\ Forall (fun delta => droppedDelta delta = true) deltas.
Proof.
  revert final n. induction deltas as [|delta deltas IH]; intros final n;
    simpl.
  - split; [by intros -> | by intros [-> _]].
  - pose proof (convertGoogleStreamChunkToLangChainChunk_None delta n)
      as Hdelta.
    destruct (convertGoogleStreamChunkToLangChainChunk delta n)
      as [[chunk|] n1]; simpl in Hdelta; rewrite IH.
    + split; [by intros [? _] |]. intros [_ Hall].
      apply Forall_cons in Hall as [Hd _]. by apply Hdelta in Hd.
    + split.
      * intros [-> Hall]. split; [done |]. constructor; [| done].
        by apply Hdelta.
      * intros [-> Hall]. by apply Forall_cons in Hall as [_ Hall].
Qed.

(** X15.  A stream delta gives no chunk exactly when it has no candidate
    and no usage, or when its first candidate has no part; so a delta whose
    candidate only reports the finish reason is dropped together with the
    usage it carries.  The usage of a chunk that is yielded is the one of
    its delta, converted, and none when the delta has none.  The streaming
    branch of [_generate] is left without a final chunk exactly when every
    delta of the stream is dropped. *)
Theorem stream_chunk_yield :
  (forall response n,
     (convertGoogleStreamChunkToLangChainChunk response n).1 = None <->
     droppedDelta response = true)
  /\ (forall response n chunk,
        (convertGoogleStreamChunkToLangChainChunk response n).1 = Some chunk ->
        ch_usage_metadata (gc_message chunk)
        = extractUsageMetadata (usageMetadata response))
  /\ (forall deltas n,
        (foldStream deltas None n).1 = None <->
        Forall (fun delta => droppedDelta delta = true) deltas).
Proof.
  split; [apply convertGoogleStreamChunkToLangChainChunk_None |].
  split.
  - intros response n.
    unfold convertGoogleStreamChunkToLangChainChunk.
    destruct (firstCandidate response) as [candidate|].
    + destruct (cand_content candidate ≫= c_parts) as [parts|]; simpl;
        [| done].
      destruct (reduceParts_usage parts 0 None n eq_refl) as [Husage _].
      destruct (reduceParts parts 0 None n) as [[chunk|] n1]; simpl in *;
        [| done].
      intros ? [= <-]. simpl.
      destruct (usageMetadata response); simpl; done.
    + destruct (usageMetadata response) as [usage|]; simpl; [| done].
      by intros ? [= <-].
  - intros deltas n. rewrite foldStream_None.
    split; [by intros [_ ?] | by split].
Qed.

Lemma stream_chunk_yield_witness :
  (convertGoogleStreamChunkToLangChainChunk finish_delta 0).1 = None
  /\ is_Some (usageMetadata finish_delta)
  /\ (foldStream [finish_delta; finish_delta] None 0).1 = None.
Proof.
  destruct stream_chunk_yield as (Hone & _ & Hall).
  split; [by apply Hone |]. split; [by eexists |].
  apply Hall. by repeat constructor.
Defined.

(** ** Tool-call chunks of a stream delta *)

Lemma mergeLists_fresh_index (chunks : list ToolCallChunk)
    (chunk : ToolCallChunk) (index : nat) :
  tcc_index chunk = Some index ->
  Forall (fun c => exists j, tcc_index c = Some j /\ j < index) chunks ->
  mergeLists tcc_index merge_tool_call_chunk chunks [chunk]
  = chunks ++ [chunk].
Proof.
  intros Hindex Hchunks. unfold mergeLists, mergeItem. simpl.
  rewrite Hindex.
  destruct (list_find _ chunks) as [[k c]|] eqn:Hfind; [| done].
  apply list_find_Some in Hfind as (Hk & Hc & _).
  rewrite Forall_forall in Hchunks.
  destruct (Hchunks c) as (j & Hj & Hlt);
    [by eapply list_elem_of_lookup_2 |].
  rewrite Hj in Hc. injection Hc as ->. lia.
Qed.

Lemma convertPartToChunk_tool_call_chunks (part : Part) (index n : nat) :
  match p_text part, p_functionCall part with
  | None, Some _ =>
      exists chunk,
        ch_tool_call_chunks (convertPartToChunk part index n).1 = [chunk]
        /\ tcc_index chunk = Some index
  | _, _ => ch_tool_call_chunks (convertPartToChunk part index n).1 = []
  end.
Proof.
  unfold convertPartToChunk, convertFunctionCallToToolCallChunk, idOrUuid.
  destruct (p_text part), (p_thought part);
    destruct (p_functionCall part) as [[name args [id|]]|]; simpl;
    try done; by eexists.
Qed.

Lemma reduceParts_tool_call_indexes (parts : list Part) (index : nat)
    (acc : option AIMessageChunk) (n : nat) :
  Forall (fun c => exists j, tcc_index c = Some j /\ j < index)
    (accToolCallChunks acc) ->
  tcc_index <$> accToolCallChunks (reduceParts parts index acc n).1
  = (tcc_index <$> accToolCallChunks acc)
    ++ (Some <$> callPositions parts index).
Proof.
  revert index acc n. induction parts as [|part parts IH];
    intros index acc n Hacc; simpl.
  - by rewrite app_nil_r.
  - pose proof (convertPartToChunk_tool_call_chunks part index n) as Hnext.
    destruct (convertPartToChunk part index n) as [nextChunk n1].
    simpl in Hnext.
    set (acc' := Some _).
    assert (Hweaken : Forall (fun c => exists j, tcc_index c = Some j
                                                 /\ j < S index)
                        (accToolCallChunks acc)).
    { eapply Forall_impl; [exact Hacc |].
      intros c (j & Hj & Hlt). exists j. split; [done | lia]. }
    destruct (p_text part) as [text|].
    + assert (Hsame : accToolCallChunks acc' = accToolCallChunks acc).
      { unfold acc'. destruct acc as [a|]; simpl; [| done].
        by rewrite Hnext. }
      rewrite IH; rewrite Hsame; done.
    + destruct (p_functionCall part) as [fc|].
      * destruct Hnext as (chunk & Hchunk & Hindex).
        assert (Hpush : accToolCallChunks acc'
                        = accToolCallChunks acc ++ [chunk]).
        { unfold acc'. destruct acc as [a|]; simpl; [| done].
          rewrite Hchunk. by apply mergeLists_fresh_index with index. }
        rewrite IH; rewrite Hpush.
        -- rewrite fmap_app, <- app_assoc. simpl. by rewrite Hindex.
        -- apply Forall_app. split; [done |]. rewrite Forall_singleton.
           exists index. split; [done | lia].
      * assert (Hsame : accToolCallChunks acc' = accToolCallChunks acc).
        { unfold acc'. destruct acc as [a|]; simpl; [| done].
          by rewrite Hnext. }
        rewrite IH; rewrite Hsame; done.
Qed.

(** X16.  Within one stream delta the tool-call chunks are never merged
    with each other: the chunk that is yielded holds one tool-call chunk
    for every part that has a function call and no text, in order, with the
    position of the part as index.  A part that has a text and a function
    call gives no tool-call chunk and draws no identifier there, whereas
    the full-response decoder makes a tool call of it. *)
Theorem stream_tool_call_chunks :
  (forall response n chunk n',
     convertGoogleStreamChunkToLangChainChunk response n = (Some chunk, n') ->
     tcc_index <$> ch_tool_call_chunks (gc_message chunk)
     = Some <$> callPositions (responseParts response) 0)
  /\ (forall part index n st text fc,
        p_text part = Some text -> p_functionCall part = Some fc ->
        convertPartToChunk part index n
        = ((convertPartToChunk part index n).1, n)
        /\ ch_tool_call_chunks (convertPartToChunk part index n).1 = []
        /\ toolCalls (decodePart st part n).1
           = toolCalls st ++ [toolCallOf fc n]).
Proof.
  split.
  - intros response n chunk n'.
    unfold convertGoogleStreamChunkToLangChainChunk, responseParts.
    destruct (firstCandidate response) as [candidate|].
    + destruct (cand_content candidate) as [content|]; simpl; [| done].
      destruct (c_parts content) as [parts|]; simpl; [| done].
      pose proof (reduceParts_tool_call_indexes parts 0 None n
                    (Forall_nil_2 _)) as Hindexes.
      destruct (reduceParts parts 0 None n) as [[c|] n1]; [| done].
      simpl in Hindexes. intros [= <- <-]. simpl.
      by destruct (usageMetadata response).
    + destruct (usageMetadata response); [| done]. by intros [= <- <-].
  - intros part index n st text fc Htext Hcall.
    split; [| split].
    + unfold convertPartToChunk. rewrite Htext. by destruct (p_thought part).
    + pose proof (convertPartToChunk_tool_call_chunks part index n) as H.
      by rewrite Htext in H.
    + destruct (decodePart_fields st part n) as (_ & _ & -> & _).
      by rewrite Hcall.
Qed.

Lemma stream_tool_call_chunks_witness :
  ch_tool_call_chunks (convertPartToChunk text_and_call_part 0 0).1 = []
  /\ toolCalls (decodePart (mkDecodeState "" [] [] ∅) text_and_call_part 0).1
     = [toolCallOf call_without_id 0].
Proof.
  destruct (proj2 stream_tool_call_chunks text_and_call_part 0 0
              (mkDecodeState "" [] [] ∅) "calling" call_without_id
              eq_refl eq_refl) as (_ & Hstream & Hfull).
  split; [exact Hstream | exact Hfull].
Defined.


(** ** The system instruction of the interactions protocol *)

Lemma join_snoc (sep : string) (l : list string) (x : string) :
  l <> [] -> join sep (l ++ [x]) = join sep l +:+ sep +:+ x.
Proof.
  induction l as [|a [|b l] IH]; intros Hl; [done | done |].
  change (join sep ((a :: b :: l) ++ [x]))
    with (a +:+ sep +:+ join sep ((b :: l) ++ [x])).
  rewrite IH by done.
  change (join sep (a :: b :: l)) with (a +:+ sep +:+ join sep (b :: l)).
  by rewrite !append_assoc.
Qed.

Lemma join_nonempty (sep : string) (l : list string) :
  l <> [] -> Forall (fun text => text <> "") l -> join sep l <> "".
Proof.
  destruct l as [|a [|b l]]; intros Hl Hne; [done | |].
  - by apply Forall_cons in Hne as [Ha _].
  - apply Forall_cons in Hne as [Ha _].
    change (join sep (a :: b :: l)) with (a +:+ sep +:+ join sep (b :: l)).
    by intros [? _]%append_eq_nil.
Qed.

Lemma systemTexts_nonempty (messages : list BaseMessage) :
  Forall (fun text => text <> "") (systemTexts messages).
Proof.
  unfold systemTexts. apply Forall_forall. intros text Hin%list_elem_of_In.
  apply filter_In in Hin as [_ Hne]. by apply bool_decide_eq_true in Hne.
Qed.

Lemma systemTexts_cons (m : BaseMessage) (messages : list BaseMessage) :
  systemTexts (m :: messages)
  = match m with
    | SystemMessage content =>
        if bool_decide (systemText content <> "")
        then systemText content :: systemTexts messages
        else systemTexts messages
    | _ => systemTexts messages
    end.
Proof. by destruct m. Qed.

Lemma interactionLoop_instruction (messages : list BaseMessage)
    (acc out : InteractionPayload) (texts : list string) :
  interactionLoop messages acc = Ok out ->
  system_instruction acc = instructionOf texts ->
  Forall (fun text => text <> "") texts ->
  system_instruction out = instructionOf (texts ++ systemTexts messages).
Proof.
  revert acc texts. induction messages as [|m messages IH];
    intros acc texts Hout Hacc Htexts.
  - injection Hout as <-. by rewrite app_nil_r.
  - rewrite systemTexts_cons.
    destruct (isSystemMessage m) eqn:Hsys.
    + destruct m as [| |content| | |]; try discriminate. simpl in Hout.
      case_bool_decide as Hne.
      * replace (texts ++ systemText content :: systemTexts messages)
          with ((texts ++ [systemText content]) ++ systemTexts messages)
          by (by rewrite <- app_assoc).
        apply (IH _ _ Hout); [| by apply Forall_app; split; [| constructor]].
        simpl. rewrite Hacc.
        destruct texts as [|a texts]; [done |].
        assert (Hrhs : instructionOf ((a :: texts) ++ [systemText content])
                       = Some (join (String "010"%char "")
                                 ((a :: texts) ++ [systemText content])))
          by done.
        rewrite Hrhs, join_snoc by done.
        change (instructionOf (a :: texts))
          with (Some (join (String "010"%char "") (a :: texts))).
        unfold truthy.
        by rewrite bool_decide_eq_true_2 by (by apply join_nonempty).
      * by apply (IH _ _ Hout).
    + rewrite interactionLoop_cons in Hout by done.
      apply bind_Ok in Hout as (turn & _ & Hrest).
      destruct m; try discriminate;
        apply (IH _ _ Hrest); try done; by destruct turn.
Qed.

(** X17.  The system instruction of an interactions payload is made of the
    texts of the system messages alone: the texts that are not empty, in the
    order of the messages, joined by a line feed, and no instruction at all
    when there is none.  Of a system message with blocks only the text
    blocks count. *)
Theorem interaction_system_instruction (messages : list BaseMessage)
    (payload : InteractionPayload) :
  convertMessagesToGoogleInteractionPayload messages = Ok payload ->
  system_instruction payload = instructionOf (systemTexts messages).
Proof.
  intros Hpayload.
  by apply (interactionLoop_instruction messages _ payload [] Hpayload).
Qed.

Lemma interaction_system_instruction_witness :
  let messages :=
    [SystemMessage (CString "be brief"); HumanMessage (CString "hi");
     SystemMessage (CString "");
     SystemMessage (CBlocks [text_block "be"; audio_block;
                             text_block "kind"])] in
  exists payload,
    convertMessagesToGoogleInteractionPayload messages = Ok payload
    /\ system_instruction payload
       = Some ("be brief" +:+ String "010"%char "" +:+ "be"
               +:+ String "010"%char "" +:+ "kind").
Proof.
  intros messages.
  destruct (convertMessagesToGoogleInteractionPayload messages)
    as [payload|e] eqn:Hpayload; [| discriminate].
  exists payload. split; [reflexivity |].
  by rewrite (interaction_system_instruction messages payload Hpayload).
Defined.


(** ** Tool choice *)

Lemma interactionModeMap_modeMap (choice : string) :
  interactionModeMap choice
  = (fun mode => modeString (Some mode)) <$> modeMap choice.
Proof.
  unfold interactionModeMap, modeMap. by repeat case_bool_decide.
Qed.

Lemma modeMap_nonempty (s : string) (mode : FunctionCallingConfigMode) :
  modeMap (toUpperCase s) = Some mode -> s <> "".
Proof. by intros Hmode ->. Qed.

(** X18.  A [tool_choice] given as a string is read the same way by both
    protocols, through its upper-case form: the interactions protocol sends
    the lower-case name of the mode that the standard protocol sends, and a
    string that names no mode is ignored by both.  When a [toolConfig] is
    given as well the two differ: the standard protocol sends the
    [toolConfig] and ignores the string, the interactions protocol sends
    the mode of the string and ignores the [toolConfig]. *)
Theorem tool_choice_string (toolConfig : option ToolConfig) (s : string) :
  formatInteractionToolConfig None (Some (ChoiceString s))
  = match formatToolConfig None (Some (ChoiceString s)) with
    | Some (ModeToolConfig mode) =>
        Some (AllowedToolsMode (modeString (Some mode)))
    | _ => None
    end
  /\ (modeMap (toUpperCase s) = None ->
      formatToolConfig toolConfig (Some (ChoiceString s))
      = formatToolConfig toolConfig None
      /\ formatInteractionToolConfig toolConfig (Some (ChoiceString s))
         = formatInteractionToolConfig toolConfig None)
  /\ (forall config mode,
        modeMap (toUpperCase s) = Some mode ->
        formatToolConfig (Some config) (Some (ChoiceString s))
        = Some (GivenToolConfig config)
        /\ formatInteractionToolConfig (Some config) (Some (ChoiceString s))
           = Some (AllowedToolsMode (modeString (Some mode)))).
Proof.
  unfold formatToolConfig, formatInteractionToolConfig. simpl.
  rewrite interactionModeMap_modeMap.
  split; [| split].
  - case_bool_decide; [| done].
    by destruct (modeMap (toUpperCase s)).
  - intros ->. simpl. split.
    + destruct toolConfig; [done |]. by case_bool_decide.
    + by case_bool_decide.
  - intros config mode Hmode. split; [done |].
    rewrite bool_decide_eq_true_2 by (by eapply modeMap_nonempty).
    by rewrite Hmode.
Qed.

Lemma tool_choice_string_witness :
  let config :=
    mkToolConfig (Some (mkFunctionCallingConfig (Some ANY) None)) None in
  modeMap (toUpperCase "none") = Some NONE
  /\ formatToolConfig (Some config) (Some (ChoiceString "none"))
     = Some (GivenToolConfig config)
  /\ formatInteractionToolConfig (Some config) (Some (ChoiceString "none"))
     = Some (AllowedToolsMode "none").
Proof.
  intros config.
  destruct (tool_choice_string None "none") as (_ & _ & Hboth).
  split; [reflexivity |]. exact (Hboth config NONE eq_refl).
Defined.

(** ** Tools *)

Lemma formatToolsLoop_spec (toolList : list ToolInput)
    (functionDeclarations : list FunctionDeclaration)
    (googleTools : list Tool) :
  formatToolsLoop toolList functionDeclarations googleTools
  = (functionDeclarations ++ gatheredDeclarations toolList,
     googleTools ++ givenTools toolList).
Proof.
  revert functionDeclarations googleTools.
  unfold gatheredDeclarations, givenTools.
  induction toolList as [|tool toolList IH];
    intros functionDeclarations googleTools; simpl.
  - by rewrite !app_nil_r.
  - destruct (isGoogleTool tool); simpl.
    + rewrite IH. by rewrite <- app_assoc.
    + destruct (ti_structured tool); simpl; rewrite IH;
        by rewrite <- ?app_assoc.
Qed.

(** X19.  [formatTools] hands on the entries written for the standard
    protocol in their order and gathers the declarations of all structured
    tools into one tool, which comes last wherever the structured tools
    stood in the list; an entry that is neither is dropped, and the result
    is undefined exactly when nothing is left. *)
Theorem formatTools_gathers (toolList : list ToolInput) :
  formatTools (Some toolList)
  = match gatheredDeclarations toolList, givenTools toolList with
    | [], [] => None
    | [], given => Some given
    | declarations, given =>
        Some (given ++ [DeclarationsTool declarations])
    end.
Proof.
  unfold formatTools. rewrite formatToolsLoop_spec. simpl.
  destruct toolList as [|tool toolList]; [done |].
  rewrite bool_decide_eq_false_2 by done.
  destruct (gatheredDeclarations (tool :: toolList)) as [|d ds].
  - simpl. by destruct (givenTools (tool :: toolList)).
  - rewrite (bool_decide_eq_true_2 (0 < length (d :: ds))) by (simpl; lia).
    rewrite bool_decide_eq_true_2; [done |].
    rewrite length_app. simpl. lia.
Qed.

Lemma formatInteractionToolsLoop_spec (toolList : list ToolInput)
    (googleTools : list InteractionTool) :
  formatInteractionToolsLoop toolList googleTools
  = googleTools ++ flat_map formatInteractionTool toolList.
Proof.
  revert googleTools. induction toolList as [|tool toolList IH];
    intros googleTools; simpl.
  - by rewrite app_nil_r.
  - by rewrite IH, <- app_assoc.
Qed.

(** X20.  [formatInteractionTools] keeps the order of the entries: every
    entry is replaced, in place, by the tools made of it.  An entry that
    only asks for Google Search or code execution in the way of the
    standard protocol, without function declarations, gives no tool at all
    there, although [formatTools] hands the same entry on. *)
Theorem formatInteractionTools_in_place :
  (forall toolList,
     formatInteractionTools (Some toolList)
     = match flat_map formatInteractionTool toolList with
       | [] => None
       | googleTools => Some googleTools
       end)
  /\ (forall tool pre post,
        isInteractionTool tool = false ->
        ti_functionDeclarations tool = None ->
        ti_structured tool = None ->
        ti_googleSearch tool || ti_codeExecution tool = true ->
        formatInteractionTools (Some (pre ++ tool :: post))
        = formatInteractionTools (Some (pre ++ post))
        /\ GivenTool tool ∈ givenTools (pre ++ tool :: post)).
Proof.
  assert (Hclosed : forall toolList,
            formatInteractionTools (Some toolList)
            = match flat_map formatInteractionTool toolList with
              | [] => None
              | googleTools => Some googleTools
              end).
  { intros toolList. unfold formatInteractionTools.
    rewrite formatInteractionToolsLoop_spec. simpl.
    destruct toolList as [|tool toolList]; [done |].
    rewrite bool_decide_eq_false_2 by done.
    destruct (flat_map formatInteractionTool (tool :: toolList)); [done |].
    by rewrite bool_decide_eq_true_2 by (simpl; lia). }
  split; [exact Hclosed |].
  intros tool pre post Htype Hdecl Hstruct Hsearch.
  split.
  - rewrite !Hclosed, !flat_map_app. simpl.
    unfold formatInteractionTool at 2. by rewrite Htype, Hdecl, Hstruct.
  - unfold givenTools. apply list_elem_of_fmap. exists tool.
    split; [done |]. apply list_elem_of_In, filter_In. split.
    + apply in_or_app. right. by left.
    + unfold isGoogleTool. rewrite Hdecl. simpl.
      by destruct (ti_googleSearch tool), (ti_codeExecution tool).
Qed.

Lemma formatInteractionTools_in_place_witness :
  formatInteractionTools (Some [search_tool]) = None
  /\ formatTools (Some [search_tool]) = Some [GivenTool search_tool].
Proof.
  destruct (proj2 formatInteractionTools_in_place search_tool [] []
              eq_refl eq_refl eq_refl eq_refl) as [Hdropped _].
  split; [exact Hdropped | reflexivity].
Defined.

(** ** Construction of the model *)

(** X21.  A model object that the constructor returns has exactly one of
    [model] and [agent]; with an agent every call goes through the
    interactions protocol; [store] is never false while [background] is
    true; the API key is not empty; and the name that a call sends, agent
    or model, is always there, so that neither [requiredAgent] nor
    [requiredModel] throws on any path of a call.  An API key given as the
    empty string is refused even when the environment holds a key. *)
Theorem constructed_model_invariants (fields : option ChatGoogleGenAIInput)
    (env : option string) :
  (forall this key,
     constructModel fields env = inr (this, key) ->
     truthy (model this) = negb (truthy (agent this))
     /\ (truthy (agent this) = true ->
         forall options, shouldUseInteractionsApi this options = true)
     /\ ~ (store this = Some false /\ background this = Some true)
     /\ key <> ""
     /\ forall options, is_Some (requestTarget this options))
  /\ (fields ≫= in_apiKey = Some "" ->
      forall this key, constructModel fields env <> inr (this, key)).
Proof.
  unfold constructModel.
  set (m := fields ≫= in_model). set (a := fields ≫= in_agent).
  set (bg := fields ≫= in_background). set (st := fields ≫= in_store).
  set (apiKey := match fields ≫= in_apiKey with
                 | Some key => Some key
                 | None => env
                 end).
  split.
  - intros this key.
    destruct (truthy m && truthy a) eqn:Hboth; [done |].
    destruct (negb (truthy m) && negb (truthy a)) eqn:Hneither; [done |].
    destruct (bool_decide (st = Some false) && bool_decide (bg = Some true))
      eqn:Hstore; [done |].
    destruct (truthy a && bool_decide _) eqn:Hflag; [done |].
    destruct (truthy apiKey) eqn:Hkey; [| done].
    intros [= <- <-]. simpl.
    split; [by destruct (truthy m), (truthy a) |].
    split; [by intros -> |].
    split.
    { intros [Hs Hb]. by rewrite Hs, Hb in Hstore. }
    split.
    { destruct apiKey as [k|]; [| done]. simpl in *.
      by apply bool_decide_eq_true in Hkey. }
    intros options.
    unfold requestTarget, requiredAgent, requiredModel,
      shouldUseInteractionsApi. simpl.
    destruct (truthy m) eqn:Hm, (truthy a) eqn:Ha; try done; simpl.
    + destruct m; [| done]. by destruct (_ || _).
    + by destruct a.
  - intros Hkey this key. unfold apiKey. rewrite Hkey. simpl.
    by repeat (destruct (_ && _)).
Qed.

Lemma constructed_model_invariants_witness :
  let fields :=
    Some (mkInput None None (Some "deep-research") None None None None None) in
  exists this key,
    constructModel fields (Some "secret") = inr (this, key)
    /\ key = "secret"
    /\ shouldUseInteractionsApi this (mkCallOptions None None None None)
       = true
    /\ requestTarget this (mkCallOptions None None None None)
       = Some "deep-research".
Proof.
  intros fields.
  destruct (constructModel fields (Some "secret")) as [e|[this key]] eqn:Hc;
    [discriminate |].
  exists this, key. split; [reflexivity |].
  destruct (proj1 (constructed_model_invariants fields (Some "secret"))
              this key Hc) as (_ & Hroute & _ & _ & _).
  split; [by injection Hc as _ <- |].
  split; [apply Hroute; by injection Hc as <- _ |].
  by injection Hc as <- _.
Defined.


(** ** Tool results in the standard payload *)






(** ** Requests of the interactions protocol *)

Lemma interactionLoop_input (messages : list BaseMessage)
    (acc acc' : InteractionPayload) {A : Type}
    (k : list Turn -> result A) :
  input acc = input acc' ->
  interactionLoop messages acc ≫= (fun payload => k (input payload))
  = interactionLoop (chatMessagesOf messages) acc'
      ≫= (fun payload => k (input payload)).
Proof.
  revert acc acc'. induction messages as [|m messages IH];
    intros acc acc' Hacc.
  - simpl. by rewrite Hacc.
  - destruct (isSystemMessage m) eqn:Hsys.
    + destruct m; try discriminate.
      change (chatMessagesOf (SystemMessage content :: messages))
        with (chatMessagesOf messages).
      simpl. apply IH. by case_bool_decide.
    + assert (Hchat : chatMessagesOf (m :: messages)
                      = m :: chatMessagesOf messages).
      { unfold chatMessagesOf. simpl. by rewrite Hsys. }
      rewrite Hchat, !interactionLoop_cons by done.
      destruct (convertMessageToGoogleTurn m) as [turn|e]; [| done].
      simpl. apply IH. destruct turn; simpl; by rewrite ?Hacc.
Qed.

(** X23.  With an agent, a request of the interactions protocol depends on
    the messages that are not system messages alone: the system messages
    and the tool options of the call change nothing, since the parameters
    made for an agent hold no system instruction, no tools and no tool
    choice.  This holds for the request and for the error alike. *)
Theorem agent_request_ignores_system_and_tools (this : ChatGoogleGenAI)
    (messages : list BaseMessage) (options : CallOptions)
    (toolOptions : ToolOptions) (stream : bool) :
  truthy (agent this) = true ->
  interactionRequest this messages options toolOptions stream
  = interactionRequest this (chatMessagesOf messages) options
      (mkToolOptions None None None) stream
  /\ forall request,
       interactionRequest this messages options toolOptions stream
       = Ok (Some request) ->
       rq_system_instruction request = None /\ rq_tools request = None
       /\ rq_tool_choice request = None.
Proof.
  intros Hagent. unfold interactionRequest. rewrite Hagent. split.
  - unfold convertMessagesToGoogleInteractionPayload.
    by apply (interactionLoop_input messages _ _
                (fun input =>
                   Ok (interactiveAgentInvocationParams this input options
                         stream))).
  - intros request (payload & _ & [= Hrequest])%bind_Ok.
    unfold interactiveAgentInvocationParams in Hrequest.
    destruct (requiredAgent this); [| done].
    by injection Hrequest as <-.
Qed.

Lemma agent_request_ignores_system_and_tools_witness :
  let this :=
    mkModel None (Some "deep-research") false true true None None in
  let options := mkCallOptions None None None None in
  interactionRequest this split_conversation options
    (mkToolOptions (Some [search_tool]) None (Some (ChoiceString "any")))
    false
  = Ok (Some (mkInteractionRequest (Some "deep-research") None
                [mkTurn "user" [TextContent "a"];
                 mkTurn "user" [TextContent "b"]]
                None None None None None false None)).
Proof.
  intros this options.
  rewrite (proj1 (agent_request_ignores_system_and_tools this
                    split_conversation options
                    (mkToolOptions (Some [search_tool]) None
                       (Some (ChoiceString "any"))) false eq_refl)).
  reflexivity.
Defined.

(** X24.  The constructor refuses [store] false together with [background]
    true, but a call is not checked: on an object that the constructor
    returned, a call whose messages are accepted always gets a request; the
    request takes [background] from the options of the call when they give
    it and from the object otherwise, [store] from the object, and the
    previous interaction identifier from the options as it is.  So a
    request can hold [store] false with [background] true, or with a
    previous interaction identifier. *)
Theorem call_options_unchecked (fields : option ChatGoogleGenAIInput)
    (env : option string) (this : ChatGoogleGenAI) (key : string)
    (messages : list BaseMessage) (options : CallOptions)
    (toolOptions : ToolOptions) (stream : bool) :
  constructModel fields env = inr (this, key) ->
  is_Ok (convertMessagesToGoogleInteractionPayload messages) ->
  exists request,
    interactionRequest this messages options toolOptions stream
    = Ok (Some request)
    /\ rq_store request = fields ≫= in_store
    /\ rq_background request
       = match opt_background options with
         | Some b => Some b
         | None => fields ≫= in_background
         end
    /\ rq_previous_interaction_id request = previousInteractionId options
    /\ rq_stream request = stream.
Proof.
  intros Hthis [payload Hpayload].
  unfold interactionRequest. rewrite Hpayload. simpl.
  unfold interactiveAgentInvocationParams, interactiveInvocationParams,
    requiredAgent, requiredModel, callBackground.
  unfold constructModel in Hthis.
  destruct (truthy (fields ≫= in_model) && truthy (fields ≫= in_agent))
    eqn:Hboth; [done |].
  destruct (negb (truthy (fields ≫= in_model))
            && negb (truthy (fields ≫= in_agent))) eqn:Hneither; [done |].
  destruct (bool_decide _ && bool_decide _); [done |].
  destruct (truthy (fields ≫= in_agent) && bool_decide _); [done |].
  destruct (truthy _) eqn:Hkey in Hthis; [| done].
  injection Hthis as <- <-. simpl.
  destruct (truthy (fields ≫= in_agent)) eqn:Hagent.
  - destruct (fields ≫= in_agent); [| done]. simpl. by eexists.
  - destruct (truthy (fields ≫= in_model)) eqn:Hmodel; [| done].
    destruct (fields ≫= in_model); [| done]. simpl. by eexists.
Qed.

Lemma call_options_unchecked_witness :
  let fields :=
    Some (mkInput (Some "secret") None (Some "deep-research") None None None
            None (Some false)) in
  let options := mkCallOptions (Some "i1") (Some true) None None in
  exists this key request,
    constructModel fields None = inr (this, key)
    /\ interactionRequest this split_conversation options
         (mkToolOptions None None None) false
       = Ok (Some request)
    /\ rq_store request = Some false
    /\ rq_background request = Some true
    /\ rq_previous_interaction_id request = Some "i1".
Proof.
  intros fields options.
  destruct (constructModel fields None) as [e|[this key]] eqn:Hthis;
    [discriminate |].
  destruct (call_options_unchecked fields None this key split_conversation
              options (mkToolOptions None None None) false Hthis)
    as (request & Hrequest & Hstore & Hbackground & Hprevious & _).
  - apply is_Ok_Ok.
  - by exists this, key, request.
Defined.
